(** * A master/worker MapReduce: shallow embedding and verified properties

    The development embeds [core/worker.py] (the map and reduce executors),
    [core/master.py] (the coordinator's handlers, the dispatch loops and the
    result merger), the word-count functions of [create_worker], the
    single-machine framework of [core/mapreduce.py] and the word count of
    [examples/wordcount.py].

    Conventions.
    - A Python [str] is a [list ascii]; a character stands for the code point
      of the same number (0..255).  Keys are [str] objects, as the word-count
      map function produces them.  Files hold text that decodes.
    - A Python [int] is a [Z]; the built-ins [int], [str], [hash], [%],
      [strip], [split], [lower] and the text-mode line iteration are written
      out as CPython 3.11 has them on such strings.
    - A [dict] whose iteration order is observable is an association list in
      insertion order; the coordinator's manifest, which is only ever indexed,
      is a [gmap].
    - Code inside [try] blocks runs in a state-and-exception monad over the
      file system, so that what was written before an exception persists.
    - Handlers run one request at a time, and the threads the master starts
      run one after the other; interleavings of concurrent requests are not
      modelled. *)

From Stdlib Require Import ZArith List Ascii String Lia Bool.
From stdpp Require Import base option list gmap.
From stdpp Require strings.

Import ListNotations.
Open Scope Z_scope.

(** ** Python text primitives *)

Module Py.

Abbreviation text := (list ascii).

(** String literals of the source. *)
Definition txt (s : string) : text := list_ascii_of_string s.

Definition code (c : ascii) : Z := Z.of_nat (nat_of_ascii c).

Definition TAB : ascii := ascii_of_nat 9.
Definition LF : ascii := ascii_of_nat 10.
Definition CR : ascii := ascii_of_nat 13.

(** [str.isspace] on code points below 256: what [str.strip()] and
    [str.split()] without arguments remove. *)
Definition isspace (c : ascii) : bool :=
  let n := code c in
  ((9 <=? n) && (n <=? 13)) || ((28 <=? n) && (n <=? 32))
  || (n =? 133) || (n =? 160).

(** Dropping the leading characters that satisfy [sp], and the same at both
    ends. *)
Fixpoint lstrip_with (sp : ascii -> bool) (s : text) : text :=
  match s with
  | c :: s' => if sp c then lstrip_with sp s' else s
  | [] => []
  end.

Definition strip_with (sp : ascii -> bool) (s : text) : text :=
  rev (lstrip_with sp (rev (lstrip_with sp s))).

(** [s.strip()] *)
Definition strip (s : text) : text := strip_with isspace s.

(** [s.split(sep)] for a one-character separator: never empty. *)
Fixpoint split (sep : ascii) (s : text) : list text :=
  match s with
  | [] => [[]]
  | c :: s' =>
      if Ascii.eqb c sep then [] :: split sep s'
      else match split sep s' with
           | w :: ws => (c :: w) :: ws
           | [] => [[c]]
           end
  end.

(** Reading in text mode translates "\r\n" and a lone "\r" to "\n". *)
Fixpoint universal_newlines (s : text) : text :=
  match s with
  | [] => []
  | c :: s' =>
      if Ascii.eqb c CR then
        LF :: match s' with
              | d :: s'' => if Ascii.eqb d LF then universal_newlines s''
                            else universal_newlines s'
              | [] => []
              end
      else c :: universal_newlines s'
  end.

(** [for line in f]: the lines of a text, each with its terminator. *)
Fixpoint lines (s : text) : list text :=
  match s with
  | [] => []
  | c :: s' =>
      if Ascii.eqb c LF then [LF] :: lines s'
      else match lines s' with
           | l :: ls => (c :: l) :: ls
           | [] => [[c]]
           end
  end.

(** *** Integers and their decimal form *)

(** [sys.int_info.default_max_str_digits]: conversions between [int] and
    decimal [str] raise [ValueError] beyond this many digits. *)
Definition max_str_digits : nat := 4300.

Definition isdigit (c : ascii) : bool := (48 <=? code c) && (code c <=? 57).
Definition digit_value (c : ascii) : Z := code c - 48.
Definition digit_char (d : Z) : ascii := ascii_of_nat (Z.to_nat (48 + d)).

(** The digits of a non-negative number, most significant first, pushed in
    front of [acc]. *)
Fixpoint digits_go (fuel : nat) (n : Z) (acc : text) : text :=
  match fuel with
  | O => acc
  | S fuel' =>
      let acc' := digit_char (n mod 10) :: acc in
      if n <? 10 then acc' else digits_go fuel' (n / 10) acc'
  end.

Definition digits (n : Z) : text := digits_go (S (Z.to_nat (Z.log2 n))) n [].

(** [str(n)] without the length limit. *)
Definition repr_int (n : Z) : text :=
  if n <? 0 then "-"%char :: digits (- n) else digits n.

(** [str(n)], [f"{n}"]: [None] stands for the [ValueError] of an integer with
    too many digits. *)
Definition str_int (n : Z) : option text :=
  if (length (digits (Z.abs n)) <=? max_str_digits)%nat then Some (repr_int n)
  else None.

(** The digit run of an integer literal: digits with single underscores
    between them.  Returns the value and the number of digits. *)
Fixpoint scan_digits (acc : Z) (count : nat) (prev_digit : bool) (s : text)
  : option (Z * nat) :=
  match s with
  | [] => if prev_digit then Some (acc, count) else None
  | c :: s' =>
      if isdigit c then scan_digits (10 * acc + digit_value c) (S count) true s'
      else if Ascii.eqb c "_"%char then
        if prev_digit then scan_digits acc count false s' else None
      else None
  end.

Definition parse_digits (s : text) : option Z :=
  match scan_digits 0 0 false s with
  | Some (v, count) => if (count <=? max_str_digits)%nat then Some v else None
  | None => None
  end.

(** The white space [int()] skips around a literal. *)
Definition int_space (c : ascii) : bool :=
  let n := code c in
  ((9 <=? n) && (n <=? 13)) || (n =? 32) || (n =? 133) || (n =? 160).

(** [int(s)] in base 10; [None] stands for [ValueError]. *)
Definition int (s : text) : option Z :=
  match strip_with int_space s with
  | c :: ds =>
      if Ascii.eqb c "+"%char then parse_digits ds
      else if Ascii.eqb c "-"%char then Z.opp <$> parse_digits ds
      else parse_digits (c :: ds)
  | [] => None
  end.

(** [s.lower()] on code points below 256. *)
Definition lower_char (c : ascii) : ascii :=
  let n := code c in
  if ((65 <=? n) && (n <=? 90)) || ((192 <=? n) && (n <=? 222) && negb (n =? 215))
  then ascii_of_nat (Z.to_nat (n + 32)) else c.

Definition lower (s : text) : text := map lower_char s.

(** [s.split()]: the maximal runs of characters that are not white space.
    [cur] is the current run, reversed. *)
Fixpoint split_ws_go (cur : text) (s : text) : list text :=
  match s with
  | [] => match cur with [] => [] | _ => [rev cur] end
  | c :: s' =>
      if isspace c then
        match cur with
        | [] => split_ws_go [] s'
        | _ => rev cur :: split_ws_go [] s'
        end
      else split_ws_go (c :: cur) s'
  end.

Definition split_ws (s : text) : list text := split_ws_go [] s.

Definition mem_char (c : ascii) (chars : text) : bool :=
  existsb (Ascii.eqb c) chars.

(** [s.strip(chars)] *)
Definition strip_chars (chars : text) (s : text) : text :=
  strip_with (fun c => mem_char c chars) s.

(** [a % b] on integers: the sign of the divisor, [None] for division by
    zero. *)
Definition mod_ (a b : Z) : option Z :=
  if b =? 0 then None else Some (a mod b).

(** [range(n)] *)
Definition range (n : Z) : list Z := map Z.of_nat (seq 0 (Z.to_nat n)).

End Py.

(** ** The hash of a [str] (CPython's SipHash-1-3, keyed per process) *)

Module PyHash.

Definition mask64 : Z := 2 ^ 64 - 1.
Definition w64 (x : Z) : Z := Z.land x mask64.
Definition rotl (x b : Z) : Z :=
  w64 (Z.lor (Z.shiftl x b) (Z.shiftr x (64 - b))).

Record sipstate := { v0 : Z; v1 : Z; v2 : Z; v3 : Z }.

(** [HALF_ROUND(a,b,c,d,s,t)]; returns the new (a,b,c,d). *)
Definition half_round (a b c d s t : Z) : Z * Z * Z * Z :=
  let a := w64 (a + b) in
  let c := w64 (c + d) in
  let b := Z.lxor (rotl b s) a in
  let d := Z.lxor (rotl d t) c in
  let a := rotl a 32 in
  (a, b, c, d).

(** [SINGLE_ROUND(v0,v1,v2,v3)] *)
Definition single_round (st : sipstate) : sipstate :=
  let '(a, b, c, d) := half_round (v0 st) (v1 st) (v2 st) (v3 st) 13 16 in
  let '(c, b, a, d) := half_round c b a d 17 21 in
  {| v0 := a; v1 := b; v2 := c; v3 := d |}.

(** Little-endian value of at most eight bytes. *)
Fixpoint le_word (bs : list Z) : Z :=
  match bs with
  | [] => 0
  | b :: bs' => b + 256 * le_word bs'
  end.

Definition absorb (st : sipstate) (m : Z) : sipstate :=
  let st := {| v0 := v0 st; v1 := v1 st; v2 := v2 st; v3 := Z.lxor (v3 st) m |} in
  let st := single_round st in
  {| v0 := Z.lxor (v0 st) m; v1 := v1 st; v2 := v2 st; v3 := v3 st |}.

(** The loop over full eight-byte words, then the tail word carrying the
    length in its top byte. *)
Fixpoint sip_blocks (fuel : nat) (st : sipstate) (bs : list Z) (len : Z)
  : sipstate :=
  match fuel with
  | O => st
  | S fuel' =>
      if (8 <=? length bs)%nat then
        sip_blocks fuel' (absorb st (le_word (firstn 8 bs))) (skipn 8 bs) len
      else
        absorb st (Z.lor (w64 (Z.shiftl len 56)) (le_word bs))
  end.

Definition siphash13 (k0 k1 : Z) (bs : list Z) : Z :=
  let st := {| v0 := Z.lxor k0 0x736f6d6570736575;
               v1 := Z.lxor k1 0x646f72616e646f6d;
               v2 := Z.lxor k0 0x6c7967656e657261;
               v3 := Z.lxor k1 0x7465646279746573 |} in
  let st := sip_blocks (S (length bs)) st bs (Z.of_nat (length bs)) in
  let st := {| v0 := v0 st; v1 := v1 st; v2 := Z.lxor (v2 st) 0xff; v3 := v3 st |} in
  let st := single_round (single_round (single_round st)) in
  Z.lxor (Z.lxor (v0 st) (v1 st)) (Z.lxor (v2 st) (v3 st)).

(** The hash secret of an interpreter process: drawn at start-up from the
    operating system's random source unless PYTHONHASHSEED fixes it. *)
Record secret := { k0 : Z; k1 : Z }.

(** [lcg_urandom]: the secret bytes derived from PYTHONHASHSEED=[seed]. *)
Fixpoint lcg_bytes (n : nat) (x : Z) : list Z :=
  match n with
  | O => []
  | S n' =>
      let x := Z.land (x * 214013 + 2531011) (2 ^ 32 - 1) in
      Z.land (Z.shiftr x 16) 255 :: lcg_bytes n' x
  end.

Definition secret_of_seed (seed : Z) : secret :=
  if seed =? 0 then {| k0 := 0; k1 := 0 |}
  else let bs := lcg_bytes 16 seed in
       {| k0 := le_word (firstn 8 bs); k1 := le_word (skipn 8 bs) |}.

(** [(Py_hash_t) x]: reinterpret a 64-bit word as signed. *)
Definition signed64 (x : Z) : Z := if x <? 2 ^ 63 then x else x - 2 ^ 64.

(** [hash(s)] for a [str] whose code points are below 256 (one byte each in
    the object's buffer): 0 for the empty string, and -1 is never returned. *)
Definition hash (sec : secret) (s : Py.text) : Z :=
  match s with
  | [] => 0
  | _ =>
      let x := signed64 (siphash13 (k0 sec) (k1 sec) (map Py.code s)) in
      if x =? -1 then -2 else x
  end.

End PyHash.

(** ** Exceptions, the file system and the monad of [try] blocks *)

Inductive exn :=
| FileNotFoundError (path : Py.text)
| PermissionError (path : Py.text)
| ValueError
| ZeroDivisionError
| ConnectionError.

Inductive result (A : Type) :=
| Ok (a : A)
| Raise (e : exn).
Arguments Ok {A} a.
Arguments Raise {A} e.

(** The files that exist, with their contents, and the paths the operating
    system refuses to open (no permission, missing directory, ...). *)
Record filesystem := {
  files : gmap Py.text Py.text;
  denied : gset Py.text
}.

(** A computation that may change the file system and may raise; the file
    system it leaves behind is kept in both cases. *)
Definition io (A : Type) : Type := filesystem -> filesystem * result A.

Definition ret {A} (a : A) : io A := fun fs => (fs, Ok a).
Definition raise {A} (e : exn) : io A := fun fs => (fs, Raise e).
Definition bind {A B} (m : io A) (k : A -> io B) : io B :=
  fun fs => match m fs with
            | (fs', Ok a) => k a fs'
            | (fs', Raise e) => (fs', Raise e)
            end.

Declare Scope io_scope.
Delimit Scope io_scope with io.
Notation "x <- m ;; k" := (bind m (fun x => k))
  (at level 100, m at next level, right associativity) : io_scope.
Notation "m ;;; k" := (bind m (fun _ => k))
  (at level 100, right associativity) : io_scope.
Open Scope io_scope.

(** [for x in xs: body x], stopping at the first exception. *)
Fixpoint for_each {A} (xs : list A) (body : A -> io unit) : io unit :=
  match xs with
  | [] => ret tt
  | x :: xs' => body x ;;; for_each xs' body
  end.

(** The same loop threading a local variable. *)
Fixpoint for_fold {A S} (xs : list A) (body : S -> A -> io S) (s : S) : io S :=
  match xs with
  | [] => ret s
  | x :: xs' => s' <- body s x ;; for_fold xs' body s'
  end.

Definition of_option {A} (o : option A) (e : exn) : io A :=
  match o with Some a => ret a | None => raise e end.

(** [open(path, 'r')] followed by reading the whole stream in text mode. *)
Definition read_file (path : Py.text) : io Py.text :=
  fun fs =>
    if decide (path ∈ denied fs) then (fs, Raise (PermissionError path))
    else match files fs !! path with
         | Some content => (fs, Ok (Py.universal_newlines content))
         | None => (fs, Raise (FileNotFoundError path))
         end.

(** [open(path, 'w')]: creates or truncates the file. *)
Definition open_w (path : Py.text) : io unit :=
  fun fs =>
    if decide (path ∈ denied fs) then (fs, Raise (PermissionError path))
    else ({| files := <[path := []]> (files fs); denied := denied fs |}, Ok tt).

(** [f.write(s)] on a file opened for writing (seen after the stream is
    closed at the end of the [with] block). *)
Definition write (path : Py.text) (s : Py.text) : io unit :=
  fun fs =>
    ({| files := <[path := default [] (files fs !! path) ++ s]> (files fs);
        denied := denied fs |}, Ok tt).

(** ** Dictionaries in insertion order *)

Section Dict.
Context {K V : Type} `{EqDecision K}.

(** [d[k].append(v)] on a [defaultdict(list)] *)
Fixpoint dict_append (k : K) (v : V) (d : list (K * list V)) : list (K * list V) :=
  match d with
  | [] => [(k, [v])]
  | (k', vs) :: d' =>
      if decide (k = k') then (k', vs ++ [v]) :: d'
      else (k', vs) :: dict_append k v d'
  end.

Definition dict_keys (d : list (K * list V)) : list K := map fst d.
End Dict.

(** ** Values of the (key, value) interface *)

(** What a map or reduce function may return as a value: an [int], or any
    other object, of which only its [str()] form matters here. *)
Inductive value :=
| VInt (n : Z)
| VObj (str : Py.text).

(** [f"{value}"] *)
Definition format_value (v : value) : io Py.text :=
  match v with
  | VInt n => of_option (Py.str_int n) ValueError
  | VObj s => ret s
  end.

(** [f"{n}"] for an [int] *)
Definition format_int (n : Z) : io Py.text := of_option (Py.str_int n) ValueError.

(** [f.write(f"{key}\t{value}\n")] for each item, as in both executors and
    in the merger. *)
Definition write_record (path : Py.text) (item : Py.text * value) : io unit :=
  s <- format_value (snd item) ;;
  write path (fst item ++ [Py.TAB] ++ s ++ [Py.LF]).

Definition write_records (path : Py.text) (items : list (Py.text * value)) : io unit :=
  for_each items (write_record path).

(** The parsing loop shared by the reduce executor and the merger:
<<
    for line in f:
        if line.strip():
            key, value = line.strip().split('\t')
            ... int(value)
>> *)
Definition parse_line (line : Py.text) : option (option (Py.text * Z)) :=
  match Py.strip line with
  | [] => Some None
  | stripped =>
      match Py.split Py.TAB stripped with
      | [key; v] => match Py.int v with
                    | Some n => Some (Some (key, n))
                    | None => None
                    end
      | _ => None
      end
  end.

(** ** The worker ([core/worker.py]) *)

Record Worker := {
  worker_id : Z;
  map_func : Py.text -> list (Py.text * value);
  reduce_func : Py.text -> list Z -> Py.text * value
}.

(** A worker runs in an interpreter process of its own, with that process's
    hash secret. *)
Record process := {
  self : Worker;
  hash_secret : PyHash.secret
}.

(** The JSON bodies of the coordination protocol. *)
Record map_request := {
  map_task_id : Py.text;
  input_file : Py.text;
  num_reducers : Z;
  task_num : Z
}.

Record reduce_request := {
  reduce_task_id : Py.text;
  reducer_id : Z;
  input_files : list Py.text
}.

(** The keys of a JSON object are strings: the worker's [int] reducer ids
    travel in decimal form. *)
Inductive message :=
| MapComplete (task_id : Py.text) (intermediate_files : list (Py.text * list Py.text))
| ReduceComplete (task_id : Py.text) (output_file : Py.text).

(** The worker's answer to a dispatch: 200 with status "completed" or 500
    with status "failed". *)
Inductive response :=
| Completed
| Failed (error : exn).

(** [requests.post(master_address + ..., json=...)]: raises when the master
    cannot be reached; the master's answer is not looked at. *)
Definition post (master_up : bool) (m : message) : io message :=
  if master_up then ret m else raise ConnectionError.

(** [reducer_id = hash(key) % num_reducers] *)
Definition partition (sec : PyHash.secret) (key : Py.text) (num_reducers : Z)
  : option Z :=
  Py.mod_ (PyHash.hash sec key) num_reducers.

Definition partition_filename (task_num reducer_id : Py.text) : Py.text :=
  Py.txt "data/intermediate/map-" ++ task_num ++ Py.txt "-reduce-"
  ++ reducer_id ++ Py.txt ".txt".

Definition output_filename (reducer_id : Py.text) : Py.text :=
  Py.txt "data/output/reduce-" ++ reducer_id ++ Py.txt ".txt".

(** The body of the loop over the mapped pairs:
    [partitions[hash(key) % num_reducers].append((key, value))]. *)
Definition route (p : process) (data : map_request)
  (partitions : list (Z * list (Py.text * value))) (kv : Py.text * value)
  : io (list (Z * list (Py.text * value))) :=
  reducer_id <- of_option (partition (hash_secret p) (fst kv) (num_reducers data))
                          ZeroDivisionError ;;
  ret (dict_append reducer_id kv partitions).

(** The body of the loop over the partitions: one file per reducer that
    received pairs. *)
Definition write_partition_file (data : map_request)
  (intermediate_files : list (Z * list Py.text))
  (part : Z * list (Py.text * value)) : io (list (Z * list Py.text)) :=
  tn <- format_int (task_num data) ;;
  rid <- format_int (fst part) ;;
  let filename := partition_filename tn rid in
  open_w filename ;;;
  write_records filename (snd part) ;;;
  ret (dict_append (fst part) filename intermediate_files).

(** The JSON encoding of [intermediate_files]: the keys become strings. *)
Definition json_entry (js : list (Py.text * list Py.text))
  (entry : Z * list Py.text) : io (list (Py.text * list Py.text)) :=
  rid <- format_int (fst entry) ;;
  ret (js ++ [(rid, snd entry)]).

(** The [try] block of [execute_map]; its value is the completion report
    that was posted. *)
Definition map_body (p : process) (master_up : bool) (data : map_request)
  : io message :=
  text <- read_file (input_file data) ;;
  let mapped_data := map_func (self p) text in
  partitions <- for_fold mapped_data (route p data) [] ;;
  intermediate_files <- for_fold partitions (write_partition_file data) [] ;;
  payload <- for_fold intermediate_files json_entry [] ;;
  post master_up (MapComplete (map_task_id data) payload).

(** [execute_map]: every exception of the body becomes a failed response. *)
Definition execute_map (p : process) (master_up : bool) (data : map_request)
  (fs : filesystem) : filesystem * response * list message :=
  match map_body p master_up data fs with
  | (fs', Ok m) => (fs', Completed, [m])
  | (fs', Raise e) => (fs', Failed e, [])
  end.

(** The loop body over the lines of one partition file. *)
Definition group_line (grouped_data : list (Py.text * list Z)) (line : Py.text)
  : io (list (Py.text * list Z)) :=
  match parse_line line with
  | Some (Some (key, n)) => ret (dict_append key n grouped_data)
  | Some None => ret grouped_data
  | None => raise ValueError
  end.

(** The body of the loop over the input files of a reduce task. *)
Definition group_file (grouped_data : list (Py.text * list Z)) (filename : Py.text)
  : io (list (Py.text * list Z)) :=
  content <- read_file filename ;;
  for_fold (Py.lines content) group_line grouped_data.

(** The [try] block of [execute_reduce]. *)
Definition reduce_body (p : process) (master_up : bool) (data : reduce_request)
  : io message :=
  grouped_data <- for_fold (input_files data) group_file [] ;;
  let results := map (fun kvs => reduce_func (self p) (fst kvs) (snd kvs))
                     grouped_data in
  rid <- format_int (reducer_id data) ;;
  let output_file := output_filename rid in
  open_w output_file ;;;
  write_records output_file results ;;;
  post master_up (ReduceComplete (reduce_task_id data) output_file).

Definition execute_reduce (p : process) (master_up : bool) (data : reduce_request)
  (fs : filesystem) : filesystem * response * list message :=
  match reduce_body p master_up data fs with
  | (fs', Ok m) => (fs', Completed, [m])
  | (fs', Raise e) => (fs', Failed e, [])
  end.

(** *** The word-count functions of [create_worker] *)

Module WordCount.

Definition punctuation : Py.text := Py.txt ".,!?;:".

Definition map_func (text : Py.text) : list (Py.text * value) :=
  let words := Py.split_ws (Py.lower text) in
  flat_map (fun word =>
      match Py.strip_chars punctuation word with
      | [] => []
      | w => [(w, VInt 1)]
      end) words.

Definition sum (counts : list Z) : Z := fold_left Z.add counts 0.

Definition reduce_func (word : Py.text) (counts : list Z) : Py.text * value :=
  (word, VInt (sum counts)).

Definition create_worker (worker_id : Z) : Worker :=
  Build_Worker worker_id map_func reduce_func.

End WordCount.

(** ** The master ([core/master.py]) *)

Record worker_info := {
  id : Z;
  address : Py.text;
  status : Py.text
}.

(** The fields of [Master] that the code reads or writes ([reduce_tasks] and
    [task_status] are initialised and never used). *)
Record Master := {
  workers : list worker_info;
  map_tasks : list Py.text;
  intermediate_files : gmap Z (list Py.text);
  num_reduce_tasks : Z;
  completed_maps : Z;
  completed_reduces : Z
}.

Definition init (num_reduce_tasks : Z) : Master :=
  {| workers := []; map_tasks := []; intermediate_files := ∅;
     num_reduce_tasks := num_reduce_tasks;
     completed_maps := 0; completed_reduces := 0 |}.

(** What a handler of the master answers: 200 "acknowledged", or the 500 the
    framework returns when the handler raised. *)
Inductive ack :=
| Acknowledged
| InternalError (e : exn).

Definition register_worker (m : Master) (worker_id : Z) (addr : Py.text) : Master :=
  {| workers := workers m ++ [{| id := worker_id; address := addr;
                                 status := Py.txt "idle" |}];
     map_tasks := map_tasks m; intermediate_files := intermediate_files m;
     num_reduce_tasks := num_reduce_tasks m;
     completed_maps := completed_maps m;
     completed_reduces := completed_reduces m |}.

(** [for reducer_id, files in intermediate.items():
        self.intermediate_files[int(reducer_id)].extend(files)]
    What was stored before an exception stays stored. *)
Fixpoint store_intermediate (intermediate : list (Py.text * list Py.text))
  (manifest : gmap Z (list Py.text)) : gmap Z (list Py.text) * result unit :=
  match intermediate with
  | [] => (manifest, Ok tt)
  | (reducer_id, names) :: rest =>
      match Py.int reducer_id with
      | Some r =>
          store_intermediate rest
            (<[r := default [] (manifest !! r) ++ names]> manifest)
      | None => (manifest, Raise ValueError)
      end
  end.

(** The [/map_complete] handler.  The boolean tells whether the handler
    started the thread that runs [start_reduce_phase]. *)
Definition map_complete (m : Master) (task_id : Py.text)
  (intermediate : list (Py.text * list Py.text)) : Master * ack * bool :=
  let '(manifest, r) := store_intermediate intermediate (intermediate_files m) in
  match r with
  | Raise e =>
      ({| workers := workers m; map_tasks := map_tasks m;
          intermediate_files := manifest;
          num_reduce_tasks := num_reduce_tasks m;
          completed_maps := completed_maps m;
          completed_reduces := completed_reduces m |}, InternalError e, false)
  | Ok _ =>
      let m' := {| workers := workers m; map_tasks := map_tasks m;
                   intermediate_files := manifest;
                   num_reduce_tasks := num_reduce_tasks m;
                   completed_maps := completed_maps m + 1;
                   completed_reduces := completed_reduces m |} in
      (m', Acknowledged,
       completed_maps m' =? Z.of_nat (length (map_tasks m')))
  end.

(** [final_results.sort(key=lambda x: x[1], reverse=True)]: a stable sort,
    so its result is the stable insertion sort's. *)
Fixpoint insert_desc (x : Py.text * Z) (l : list (Py.text * Z)) : list (Py.text * Z) :=
  match l with
  | [] => [x]
  | y :: l' => if snd x <? snd y then y :: insert_desc x l' else x :: l
  end.

Definition sort_desc (l : list (Py.text * Z)) : list (Py.text * Z) :=
  foldr insert_desc [] l.

Definition merge_line (final_results : list (Py.text * Z)) (line : Py.text)
  : io (list (Py.text * Z)) :=
  match parse_line line with
  | Some (Some (word, count)) => ret (final_results ++ [(word, count)])
  | Some None => ret final_results
  | None => raise ValueError
  end.

(** One turn of the loop over the reducers: only [FileNotFoundError] is
    caught. *)
Definition merge_file (final_results : list (Py.text * Z)) (i : Z)
  : io (list (Py.text * Z)) :=
  name <- format_int i ;;
  let output_file := output_filename name in
  fun fs =>
    match read_file output_file fs with
    | (fs', Ok content) => for_fold (Py.lines content) merge_line final_results fs'
    | (fs', Raise (FileNotFoundError _)) => (fs', Ok final_results)
    | (fs', Raise e) => (fs', Raise e)
    end.

Definition final_results_file : Py.text := Py.txt "data/output/final_results.txt".

(** [merge_results]; its value is the sorted [final_results] list, whose
    length is printed as the number of unique words. *)
Definition merge_results (m : Master) : io (list (Py.text * Z)) :=
  final_results <- for_fold (Py.range (num_reduce_tasks m)) merge_file [] ;;
  let final_results := sort_desc final_results in
  open_w final_results_file ;;;
  write_records final_results_file
    (map (fun '(word, count) => (word, VInt count)) final_results) ;;;
  ret final_results.

(** The [/reduce_complete] handler; the merge runs inside it.  The last
    component is the merged result when the merge ran to its end. *)
Definition reduce_complete (m : Master) (task_id output_file : Py.text)
  (fs : filesystem)
  : Master * filesystem * ack * option (list (Py.text * Z)) :=
  let m' := {| workers := workers m; map_tasks := map_tasks m;
               intermediate_files := intermediate_files m;
               num_reduce_tasks := num_reduce_tasks m;
               completed_maps := completed_maps m;
               completed_reduces := completed_reduces m + 1 |} in
  if completed_reduces m' =? num_reduce_tasks m' then
    match merge_results m' fs with
    | (fs', Ok final) => (m', fs', Acknowledged, Some final)
    | (fs', Raise e) => (m', fs', InternalError e, None)
    end
  else (m', fs, Acknowledged, None).

(** ** A job: the master, the workers it can reach and the shared disk

    Dispatch threads are run one after the other, each to its end, in the
    order in which the code starts them; a worker's completion report is
    handled by the master before the worker answers the dispatch. *)

Record world := {
  master : Master;
  disk : filesystem;
  (** the result of [merge_results], once it has returned *)
  merged : option (list (Py.text * Z))
}.

(** The worker processes by address. *)
Abbreviation cluster := (gmap Py.text process).

Definition set_master (w : world) (m : Master) : world :=
  {| master := m; disk := disk w; merged := merged w |}.

Definition set_disk (w : world) (fs : filesystem) : world :=
  {| master := master w; disk := fs; merged := merged w |}.

(** [self.workers[i % len(self.workers)]] *)
Definition pick_worker (ws : list worker_info) (i : Z) : option worker_info :=
  match Py.mod_ i (Z.of_nat (length ws)) with
  | Some j => ws !! Z.to_nat j
  | None => None
  end.

Definition on_reduce_report (w : world) (msg : message) : world :=
  match msg with
  | ReduceComplete task_id output_file =>
      let '(m, fs, _, final) :=
        reduce_complete (master w) task_id output_file (disk w) in
      {| master := m; disk := fs;
         merged := match final with Some f => Some f | None => merged w end |}
  | MapComplete _ _ => w
  end.

(** [assign_reduce_task]: a worker that cannot be reached or that fails is
    only logged. *)
Definition assign_reduce_task (cl : cluster) (w : world) (worker : worker_info)
  (task_id : Py.text) (reducer_id : Z) : world :=
  let m := master w in
  let names := default [] (intermediate_files m !! reducer_id) in
  let w := set_master w
             {| workers := workers m; map_tasks := map_tasks m;
                intermediate_files := <[reducer_id := names]> (intermediate_files m);
                num_reduce_tasks := num_reduce_tasks m;
                completed_maps := completed_maps m;
                completed_reduces := completed_reduces m |} in
  match cl !! address worker with
  | None => w
  | Some p =>
      let '(fs, _, sent) :=
        execute_reduce p true
          {| reduce_task_id := task_id; reducer_id := reducer_id;
             input_files := names |} (disk w) in
      foldl on_reduce_report (set_disk w fs) sent
  end.

Fixpoint reduce_dispatch (cl : cluster) (ids : list Z) (w : world) : world :=
  match ids with
  | [] => w
  | reducer_id :: rest =>
      match pick_worker (workers (master w)) reducer_id,
            Py.str_int reducer_id with
      | Some worker, Some n =>
          reduce_dispatch cl rest
            (assign_reduce_task cl w worker (Py.txt "reduce-" ++ n) reducer_id)
      | _, _ => w
      end
  end.

Definition start_reduce_phase (cl : cluster) (w : world) : world :=
  reduce_dispatch cl (Py.range (num_reduce_tasks (master w))) w.

Definition on_map_report (cl : cluster) (w : world) (msg : message) : world :=
  match msg with
  | MapComplete task_id intermediate =>
      let '(m, _, spawn) := map_complete (master w) task_id intermediate in
      let w := set_master w m in
      if spawn then start_reduce_phase cl w else w
  | ReduceComplete _ _ => w
  end.

Definition assign_map_task (cl : cluster) (w : world) (worker : worker_info)
  (task_id input_file : Py.text) (task_num : Z) : world :=
  match cl !! address worker with
  | None => w
  | Some p =>
      let '(fs, _, sent) :=
        execute_map p true
          {| map_task_id := task_id; input_file := input_file;
             num_reducers := num_reduce_tasks (master w);
             task_num := task_num |} (disk w) in
      foldl (on_map_report cl) (set_disk w fs) sent
  end.

Fixpoint map_dispatch (cl : cluster) (i : Z) (inputs : list Py.text) (w : world)
  : world :=
  match inputs with
  | [] => w
  | input_file :: rest =>
      match pick_worker (workers (master w)) i, Py.str_int i with
      | Some worker, Some n =>
          map_dispatch cl (i + 1) rest
            (assign_map_task cl w worker (Py.txt "map-" ++ n) input_file i)
      | _, _ => w
      end
  end.

Definition start_map_phase (cl : cluster) (w : world) (input_files : list Py.text)
  : world :=
  let m := master w in
  map_dispatch cl 0 input_files
    (set_master w
       {| workers := workers m; map_tasks := input_files;
          intermediate_files := intermediate_files m;
          num_reduce_tasks := num_reduce_tasks m;
          completed_maps := completed_maps m;
          completed_reduces := completed_reduces m |}).

(** The job has reached its end when the merge has run. *)
Definition done (w : world) : bool := bool_decide (is_Some (merged w)).

(** *** A three-worker job, as [main] sets it up *)

Module Demo.

Definition worker_addr (n : Z) : Py.text :=
  Py.txt "http://127.0.0.1:" ++ Py.repr_int (5001 + n).

(** Worker [n] runs [create_worker n] in a process whose hash secret is the
    one PYTHONHASHSEED=[seed n] gives. *)
Definition proc (seed : Z -> Z) (n : Z) : process :=
  {| self := WordCount.create_worker n;
     hash_secret := PyHash.secret_of_seed (seed n) |}.

Definition the_cluster (seed : Z -> Z) : cluster :=
  list_to_map (map (fun n => (worker_addr n, proc seed n)) [0; 1; 2]).

Definition chunk (n : Z) : Py.text :=
  Py.txt "data/chunks/chunk-" ++ Py.repr_int n ++ Py.txt ".txt".

Definition disk0 : filesystem :=
  {| files := list_to_map [(chunk 0, Py.txt "the cat sat");
                           (chunk 1, Py.txt "the dog sat")];
     denied := ∅ |}.

Definition master0 : Master :=
  foldl (fun m n => register_worker m n (worker_addr n)) (init 4) [0; 1; 2].

Definition world0 : world :=
  {| master := master0; disk := disk0; merged := None |}.

Definition run (seed : Z -> Z) : world :=
  start_map_phase (the_cluster seed) world0 [chunk 0; chunk 1].

(** The reduce task of reducer [r] as the master dispatches it at the end of
    the map phase of [w]. *)
Definition reduce_request_of (w : world) (r : Z) : reduce_request :=
  {| reduce_task_id := Py.txt "reduce-" ++ Py.repr_int r; reducer_id := r;
     input_files := default [] (intermediate_files (master w) !! r) |}.


(** The master once [start_map_phase] has recorded the two map tasks. *)
Definition master_dispatching : Master :=
  {| workers := workers master0; map_tasks := [chunk 0; chunk 1];
     intermediate_files := ∅; num_reduce_tasks := 4;
     completed_maps := 0; completed_reduces := 0 |}.

(** Reducer outputs of which the second has a line without a TAB, and one
    with a count that is not an integer. *)
Definition disk_malformed : filesystem :=
  {| files := list_to_map [(output_filename (Py.txt "0"), Py.txt "the" ++ [Py.TAB] ++ Py.txt "2" ++ [Py.LF]);
                           (output_filename (Py.txt "1"), Py.txt "oops" ++ [Py.LF])];
     denied := ∅ |}.

(** The chunks exist but the directory of the partition files does not:
    no partition of map task 0 can be created. *)
Definition disk_no_intermediate : filesystem :=
  {| files := files disk0;
     denied := list_to_set (map (fun r => partition_filename (Py.txt "0") (Py.repr_int r))
                                [0; 1; 2; 3]) |}.

Definition map_request0 : map_request :=
  {| map_task_id := Py.txt "map-0"; input_file := chunk 0;
     num_reducers := 4; task_num := 0 |}.

(** Only reducer 0 has written its output. *)
Definition disk_one_output : filesystem :=
  {| files := list_to_map [(output_filename (Py.txt "0"), Py.txt "the" ++ [Py.TAB] ++ Py.txt "2" ++ [Py.LF])];
     denied := ∅ |}.

Definition disk_non_integer : filesystem :=
  {| files := list_to_map [(output_filename (Py.txt "0"), Py.txt "pi" ++ [Py.TAB] ++ Py.txt "3.14" ++ [Py.LF])];
     denied := ∅ |}.

(** The completion report of map task 0 when all its keys went to reducer 0. *)
Definition report0 : Py.text * list (Py.text * list Py.text) :=
  (Py.txt "map-0", [(Py.txt "0", [Py.txt "data/intermediate/map-0-reduce-0.txt"])]).

End Demo.

(** ** Vocabulary of the properties *)

(** A key that survives the record format: not empty, no white space in
    front, and no TAB, line feed or carriage return anywhere. *)
Definition key_ok (k : Py.text) : bool :=
  match k with
  | [] => false
  | c :: _ => negb (Py.isspace c)
  end
  && forallb (fun c => negb (Ascii.eqb c Py.TAB || Ascii.eqb c Py.LF
                             || Ascii.eqb c Py.CR)) k.

(** [f"{value}"] as a pure function. *)
Definition render_value (v : value) : option Py.text :=
  match v with
  | VInt n => Py.str_int n
  | VObj s => Some s
  end.

(** The text that writing the records [items] produces, when every value
    can be formatted. *)
Fixpoint render (items : list (Py.text * value)) : option Py.text :=
  match items with
  | [] => Some []
  | (key, v) :: rest =>
      match render_value v, render rest with
      | Some s, Some t => Some (key ++ [Py.TAB] ++ s ++ [Py.LF] ++ t)
      | _, _ => None
      end
  end.

(** The parsing loop of the reduce executor and of the merger over a whole
    text, collecting the (key, value) pairs in order. *)
Definition parse_lines (ls : list Py.text) : option (list (Py.text * Z)) :=
  foldr (fun line acc =>
           match parse_line line, acc with
           | Some (Some kv), Some l => Some (kv :: l)
           | Some None, Some l => Some l
           | _, _ => None
           end)
        (Some []) ls.

Definition parse_records (content : Py.text) : option (list (Py.text * Z)) :=
  parse_lines (Py.lines (Py.universal_newlines content)).

Definition int_items (items : list (Py.text * Z)) : list (Py.text * value) :=
  map (fun '(key, n) => (key, VInt n)) items.

(** The file system with [path] holding [content]. *)
Definition put (path content : Py.text) (fs : filesystem) : filesystem :=
  {| files := <[path := content]> (files fs); denied := denied fs |}.

(** The grouping that the reduce executor builds from parsed pairs. *)
Definition group (pairs : list (Py.text * Z)) (grouped_data : list (Py.text * list Z))
  : list (Py.text * list Z) :=
  fold_left (fun g '(key, n) => dict_append key n g) pairs grouped_data.

(** The pairs the reduce executor reads from one partition file, or the
    exception that reading or parsing it raises. *)
Definition file_pairs (fs : filesystem) (path : Py.text) : result (list (Py.text * Z)) :=
  match read_file path fs with
  | (_, Ok content) =>
      match parse_lines (Py.lines content) with
      | Some l => Ok l
      | None => Raise ValueError
      end
  | (_, Raise e) => Raise e
  end.

(** The pairs the merger takes from reducer [i]: none when its file does not
    exist. *)
Definition reducer_output (fs : filesystem) (i : Z) : result (list (Py.text * Z)) :=
  match Py.str_int i with
  | None => Raise ValueError
  | Some name =>
      match file_pairs fs (output_filename name) with
      | Raise (FileNotFoundError _) => Ok []
      | r => r
      end
  end.

(** The concatenation of what [f] gives on each element, up to the first
    exception. *)
Fixpoint collect {A B} (f : A -> result (list B)) (xs : list A) : result (list B) :=
  match xs with
  | [] => Ok []
  | x :: xs' =>
      match f x with
      | Ok l => match collect f xs' with
                | Ok r => Ok (l ++ r)
                | Raise e => Raise e
                end
      | Raise e => Raise e
      end
  end.

(** A sequence of [/map_complete] requests handled one after the other:
    the master afterwards, and for each request the answer and whether the
    reduce phase was started. *)
Fixpoint map_reports (m : Master)
  (reports : list (Py.text * list (Py.text * list Py.text)))
  : Master * list (ack * bool) :=
  match reports with
  | [] => (m, [])
  | (task_id, intermediate) :: rest =>
      let '(m', a, spawn) := map_complete m task_id intermediate in
      let '(m'', log) := map_reports m' rest in
      (m'', (a, spawn) :: log)
  end.

Definition acknowledged (log : list (ack * bool)) : Z :=
  Z.of_nat (length (List.filter (fun e => match fst e with Acknowledged => true | _ => false end) log)).

Definition reduce_starts (log : list (ack * bool)) : nat :=
  length (List.filter snd log).

(** A line whose stripped form has two TAB-separated fields of which the
    second is not an integer numeral. *)
Definition value_not_int (line : Py.text) : Prop :=
  exists key v, Py.strip line <> []
                /\ Py.split Py.TAB (Py.strip line) = [key; v]
                /\ Py.int v = None.

(** What the file of reducer [i] contributes when it exists and parses. *)
Definition present_pairs (fs : filesystem) (i : Z) : list (Py.text * Z) :=
  match files fs !! output_filename (Py.repr_int i) with
  | Some content => default [] (parse_records content)
  | None => []
  end.

(** Non-increasing in the second component. *)
Fixpoint sorted_desc (l : list (Py.text * Z)) : Prop :=
  match l with
  | [] => True
  | x :: l' => Forall (fun y => snd y <= snd x) l' /\ sorted_desc l'
  end.

(** The partitions the map step builds from the mapped pairs, starting from
    [parts]; [None] when the reducer count is zero. *)
Fixpoint partitions_from (sec : PyHash.secret) (R : Z)
  (mapped : list (Py.text * value)) (parts : list (Z * list (Py.text * value)))
  : option (list (Z * list (Py.text * value))) :=
  match mapped with
  | [] => Some parts
  | (key, v) :: rest =>
      match partition sec key R with
      | Some r => partitions_from sec R rest (dict_append r (key, v) parts)
      | None => None
      end
  end.

(** The input unit of a map task cannot be read. *)
Definition map_read_error (data : map_request) (fs : filesystem) : Prop :=
  exists e, (read_file (input_file data) fs).2 = Raise e.

(** The input unit can be read, but one of the partition files the task has
    to write cannot be opened for writing. *)
Definition map_write_error (p : process) (data : map_request) (fs : filesystem)
  : Prop :=
  exists text parts rid items tn rs,
    read_file (input_file data) fs = (fs, Ok text)
    /\ partitions_from (hash_secret p) (num_reducers data)
         (map_func (self p) text) [] = Some parts
    /\ In (rid, items) parts
    /\ Py.str_int (task_num data) = Some tn /\ Py.str_int rid = Some rs
    /\ partition_filename tn rs ∈ denied fs.

(** The number of distinct keys in the output file of reducer [i]. *)
Definition distinct_keys (fs : filesystem) (i : Z) : nat :=
  length (remove_dups (map fst (present_pairs fs i))).

(** The output file of reducer [i] on [fs] is as a reduce task running the
    word-count reduce function left it when it completed. *)
Definition written_by_reduce_task (fs : filesystem) (i : Z) : Prop :=
  exists (p : process) (up : bool) (data : reduce_request)
         (fs0 fs1 : filesystem) (sent : list message),
    reducer_id data = i
    /\ reduce_func (self p) = WordCount.reduce_func
    /\ execute_reduce p up data fs0 = (fs1, Completed, sent)
    /\ files fs !! output_filename (Py.repr_int i)
       = files fs1 !! output_filename (Py.repr_int i)
    /\ output_filename (Py.repr_int i) ∉ denied fs.

(** The value of a run of digits read after the prefix of value [a]. *)
Definition digits_value (s : Py.text) (a : Z) : Z :=
  fold_left (fun a c => 10 * a + Py.digit_value c) s a.

(** ** The single-machine framework ([core/mapreduce.py]) *)

(** [sep.join(parts)] *)
Fixpoint join (sep : Py.text) (parts : list Py.text) : Py.text :=
  match parts with
  | [] => []
  | p :: rest =>
      match rest with
      | [] => p
      | _ => p ++ sep ++ join sep rest
      end
  end.

Module MapReduce.

Section Run.
Context {V R : Type}.
Variable map_func : Py.text -> list (Py.text * V).
Variable reduce_func : Py.text -> list V -> R.

(** The shuffle loop: [shuffled_data[key].append(value)] for every pair. *)
Definition shuffle (mapped_data : list (Py.text * V)) : list (Py.text * list V) :=
  fold_left (fun d kv => dict_append (fst kv) (snd kv) d) mapped_data [].

(** [MapReduce.run]: map every input item, group the values by key, reduce
    every key. *)
Definition run (input_data : list Py.text) : list R :=
  let mapped_data := flat_map map_func input_data in
  let shuffled_data := shuffle mapped_data in
  map (fun kvs => reduce_func (fst kvs) (snd kvs)) shuffled_data.
End Run.

(** The loop of [read_file_chunks] over the lines of the file: [chunk] is the
    chunk being filled, [chunks] the chunks already closed. *)
Fixpoint chunk_loop (chunk_size : Z) (lines : list Py.text)
  (chunk : list Py.text) (chunks : list Py.text) : list Py.text :=
  match lines with
  | [] =>
      match chunk with
      | [] => chunks
      | _ => chunks ++ [join [Py.LF] chunk]
      end
  | line :: rest =>
      let chunk := chunk ++ [Py.strip line] in
      if chunk_size <=? Z.of_nat (length chunk)
      then chunk_loop chunk_size rest [] (chunks ++ [join [Py.LF] chunk])
      else chunk_loop chunk_size rest chunk chunks
  end.

(** [read_file_chunks(filename, chunk_size)]; a file that cannot be opened
    raises. *)
Definition read_file_chunks (filename : Py.text) (chunk_size : Z)
  : io (list Py.text) :=
  content <- read_file filename ;;
  ret (chunk_loop chunk_size (Py.lines content) [] []).

End MapReduce.

(** ** The word count of [examples/wordcount.py] *)

Module WordCountExample.

(** [map_function]: (word, 1) for every word that is not only punctuation. *)
Definition map_function (text_chunk : Py.text) : list (Py.text * Z) :=
  let words := Py.split_ws (Py.lower text_chunk) in
  flat_map (fun word =>
      match Py.strip_chars WordCount.punctuation word with
      | [] => []
      | w => [(w, 1)]
      end) words.

Definition reduce_function (word : Py.text) (counts : list Z) : Py.text * Z :=
  (word, WordCount.sum counts).

Definition results_file : Py.text := Py.txt "data/wordcount_results.txt".

(** [main] on an input file that is given: chunks of 500 lines, the
    framework's run, the sort by count and the results file. *)
Definition main (input_file : Py.text) : io (list (Py.text * Z)) :=
  chunks <- MapReduce.read_file_chunks input_file 500 ;;
  let results := sort_desc (MapReduce.run map_function reduce_function chunks) in
  open_w results_file ;;;
  write_records results_file (int_items results) ;;;
  ret results.

End WordCountExample.

(** ** Vocabulary of the grouping properties *)

Section DictVocabulary.
Context {K V : Type} `{EqDecision K}.

(** [d.get(k)] *)
Fixpoint dict_get (k : K) (d : list (K * list V)) : option (list V) :=
  match d with
  | [] => None
  | (k', vs) :: d' => if decide (k = k') then Some vs else dict_get k d'
  end.

(** The values paired with [k], in order. *)
Definition values_of (k : K) (pairs : list (K * V)) : list V :=
  map snd (List.filter (fun kv => bool_decide (fst kv = k)) pairs).
End DictVocabulary.

(** The distinct elements of a list in the order of their first occurrence. *)
Definition first_occurrences {A} `{EqDecision A} (l : list A) : list A :=
  rev (remove_dups (rev l)).

(** How many times [w] occurs in [words]. *)
Definition occurrences (w : Py.text) (words : list Py.text) : Z :=
  Z.of_nat (length (List.filter (fun x => bool_decide (x = w)) words)).

(** The lines of a text as [read_file_chunks] keeps them. *)
Definition stripped_lines (content : Py.text) : list Py.text :=
  map Py.strip (Py.lines (Py.universal_newlines content)).

(** The number of lines a chunk holds at most. *)
Definition lines_per_chunk (chunk_size : Z) : Z := Z.max 1 chunk_size.

(** A file of three lines, the second indented. *)
Module Sample.
Definition input : Py.text := Py.txt "data/sample.txt".
Definition disk : filesystem :=
  {| files := list_to_map
       [(input, Py.txt "The fox." ++ [Py.LF] ++ Py.txt "  the DOG" ++ [Py.CR; Py.LF]
                ++ Py.txt "Fox!")];
     denied := ∅ |}.
End Sample.

(** The words of a text: [text.lower().split()]. *)
Definition words_of (s : Py.text) : list Py.text := Py.split_ws (Py.lower s).

(** The reducer of a pair in a process, for a reducer count that is not 0. *)
Definition reducer_of (sec : PyHash.secret) (R : Z) (kv : Py.text * value) : Z :=
  PyHash.hash sec (fst kv) mod R.

(** The partition file of reducer [r] for the map task [data]. *)
Definition partition_path (data : map_request) (r : Z) : Py.text :=
  partition_filename (Py.repr_int (task_num data)) (Py.repr_int r).

(** The completion report of a map task that wrote the partitions [parts]:
    for each reducer, in decimal, the one file written for it. *)
Definition map_report (data : map_request)
  (parts : list (Z * list (Py.text * value))) : message :=
  MapComplete (map_task_id data)
    (map (fun part => (Py.repr_int (fst part), [partition_path data (fst part)]))
         parts).

(** The disk after the partitions [parts] were written. *)
Definition write_parts (data : map_request)
  (parts : list (Z * list (Py.text * value))) (fs : filesystem) : filesystem :=
  fold_left (fun fs part =>
               put (partition_path data (fst part)) (default [] (render (snd part))) fs)
            parts fs.

(** A sequence of [/reduce_complete] requests handled one after the other:
    the master and the disk afterwards, and for each request the answer and
    the merged result if the merge ran to its end. *)
Fixpoint reduce_reports (m : Master) (fs : filesystem)
  (reports : list (Py.text * Py.text))
  : Master * filesystem * list (ack * option (list (Py.text * Z))) :=
  match reports with
  | [] => (m, fs, [])
  | (task_id, output_file) :: rest =>
      let '(m', fs', a, final) := reduce_complete m task_id output_file fs in
      let '(m'', fs'', log) := reduce_reports m' fs' rest in
      (m'', fs'', (a, final) :: log)
  end.

(** The requests during which the merge was run: those that did not answer
    with a plain acknowledgement. *)
Definition merge_runs (log : list (ack * option (list (Py.text * Z)))) : nat :=
  length (List.filter (fun e => match e with
                                | (Acknowledged, None) => false
                                | _ => true
                                end) log).

(** The entries of a list with the count [c], in order. *)
Definition with_count (c : Z) (l : list (Py.text * Z)) : list (Py.text * Z) :=
  List.filter (fun kv => snd kv =? c) l.

(** ** Vocabulary of the job properties *)

(** The partitions a map task builds from its mapped pairs, for a reducer
    count that is not 0. *)
Definition partitions_of (sec : PyHash.secret) (R : Z)
  (mapped : list (Py.text * value)) : list (Z * list (Py.text * value)) :=
  fold_left (fun d kv => dict_append (reducer_of sec R kv) kv d) mapped [].

(** The pairs whose key hashes to reducer [r] under the secret [sec]. *)
Definition routed_to (sec : PyHash.secret) (R r : Z) (pairs : list (Py.text * Z))
  : list (Py.text * Z) :=
  List.filter (fun kv => bool_decide (PyHash.hash sec (fst kv) mod R = r)) pairs.

(** What a word-count reduce task writes for the pairs it read. *)
Definition reduced (pairs : list (Py.text * Z)) : list (Py.text * Z) :=
  map (fun kvs => (fst kvs, WordCount.sum (snd kvs))) (group pairs []).

(** A worker process created by [create_worker], in an interpreter whose
    hash secret is [sec]. *)
Definition word_count_process (sec : PyHash.secret) (p : process) : Prop :=
  hash_secret p = sec /\ exists n, self p = WordCount.create_worker n.

(** The state of a word-count job after its first [k] map tasks have
    completed: the inputs of the later tasks are still in place, the
    manifest lists only partition files of the completed tasks, and what a
    reducer would read from its files are the pairs of these tasks that are
    routed to it. *)
Definition map_phase_state (sec : PyHash.secret) (ws : list worker_info) (R : Z)
  (inputs contents : list Py.text) (k : nat) (w : world) : Prop :=
  workers (master w) = ws
  /\ map_tasks (master w) = inputs
  /\ num_reduce_tasks (master w) = R
  /\ completed_maps (master w) = Z.of_nat k
  /\ completed_reduces (master w) = 0
  /\ denied (disk w) = ∅
  /\ (forall j f c, (k <= j)%nat -> inputs !! j = Some f -> contents !! j = Some c ->
        files (disk w) !! f = Some c)
  /\ (forall r q, q ∈ default [] (intermediate_files (master w) !! r) ->
        exists i r', 0 <= i < Z.of_nat k /\ 0 <= r' < R
                     /\ q = partition_filename (Py.repr_int i) (Py.repr_int r'))
  /\ (forall r, 0 <= r < R ->
        collect (file_pairs (disk w))
                (default [] (intermediate_files (master w) !! r))
        = Ok (routed_to sec R r
                (flat_map WordCountExample.map_function
                   (map Py.universal_newlines (take k contents))))).

(** The state of a word-count job whose map tasks emitted the pairs [all],
    after its first [j] reduce tasks have completed: the later reducers
    still read the pairs routed to them, and the output files of the first
    [j] reducers hold what these reducers computed. *)
Definition reduce_phase_state (sec : PyHash.secret) (ws : list worker_info) (R : Z)
  (all : list (Py.text * Z)) (j : nat) (w : world) : Prop :=
  workers (master w) = ws
  /\ num_reduce_tasks (master w) = R
  /\ completed_reduces (master w) = Z.of_nat j
  /\ denied (disk w) = ∅
  /\ (forall r q, q ∈ default [] (intermediate_files (master w) !! r) ->
        exists tn rn, q = partition_filename tn rn)
  /\ (forall r, Z.of_nat j <= r < R ->
        collect (file_pairs (disk w))
                (default [] (intermediate_files (master w) !! r))
        = Ok (routed_to sec R r all))
  /\ (forall r, 0 <= r < Z.of_nat j ->
        exists t, files (disk w) !! output_filename (Py.repr_int r) = Some t
                  /\ parse_records t = Some (reduced (routed_to sec R r all))).

(** The merged result of a word-count job whose map tasks emitted [all]:
    the outputs of the reducers 0 .. R-1 one after the other, sorted. *)
Definition merged_outputs (sec : PyHash.secret) (R : Z) (all : list (Py.text * Z))
  : list (Py.text * Z) :=
  sort_desc (concat (map (fun r => reduced (routed_to sec R r all)) (Py.range R))).

(** An input that no map task of a job can read: the operating system
    refuses to open it, or it does not exist and it is not named like a
    partition file, so that no map task creates it. *)
Definition unreadable (f : Py.text) (fs : filesystem) : Prop :=
  f ∈ denied fs
  \/ (files fs !! f = None /\ forall tn rn, f <> partition_filename tn rn).

(** A world at the start of the reduce phase of the demo job in which the
    output file of reducer 2 cannot be opened. *)
Definition world_output_refused : world :=
  {| master := {| workers := workers Demo.master0;
                  map_tasks := [Demo.chunk 0; Demo.chunk 1];
                  intermediate_files := ∅; num_reduce_tasks := 4;
                  completed_maps := 2; completed_reduces := 0 |};
     disk := {| files := ∅; denied := {[ output_filename (Py.txt "2") ]} |};
     merged := None |}.

(** * Properties *)

(** ** The model of the built-ins against the interpreter

    What CPython 3.11 prints for the same inputs; the hash values are those
    under PYTHONHASHSEED=0..3. *)

Example lines_universal_newlines :
  Py.lines (Py.universal_newlines
              (Py.txt "a" ++ [Py.CR; Py.LF] ++ Py.txt "b" ++ [Py.CR] ++ Py.txt "c"
               ++ [Py.LF; Py.LF] ++ Py.txt "d"))
  = [Py.txt "a" ++ [Py.LF]; Py.txt "b" ++ [Py.LF]; Py.txt "c" ++ [Py.LF];
     [Py.LF]; Py.txt "d"].
Proof. reflexivity. Qed.

Example int_literals :
  map Py.int [Py.txt " +1_2 "; Py.txt "-0"; Py.txt "007"; Py.txt "1__2";
              Py.txt "_1"; Py.txt "1_"; Py.txt "+ 1"; Py.txt "1.5"; Py.txt ""]
  = [Some 12; Some 0; Some 7; None; None; None; None; None; None].
Proof. reflexivity. Qed.

Example parse_line_samples :
  map parse_line
    [Py.txt " a " ++ [Py.TAB] ++ Py.txt " 1_0 " ++ [Py.LF];
     [Py.TAB] ++ Py.txt "a" ++ [Py.TAB] ++ Py.txt "1" ++ [Py.LF];
     Py.txt "a" ++ [Py.TAB] ++ Py.txt "b" ++ [Py.TAB] ++ Py.txt "1" ++ [Py.LF];
     Py.txt "  " ++ [Py.LF];
     Py.txt "a" ++ [Py.TAB; ascii_of_nat 28] ++ Py.txt "5" ++ [Py.LF]]
  = [Some (Some (Py.txt "a ", 10)); Some (Some (Py.txt "a", 1)); None;
     Some None; None].
Proof. reflexivity. Qed.

Example word_count_map :
  map fst (WordCount.map_func (Py.txt "Hello, World! HELLO... ;;; a.b"))
  = [Py.txt "hello"; Py.txt "world"; Py.txt "hello"; Py.txt "a.b"].
Proof. reflexivity. Qed.

Example sort_is_stable :
  sort_desc [(Py.txt "a", 1); (Py.txt "b", 2); (Py.txt "c", 1); (Py.txt "d", 2);
             (Py.txt "e", 3)]
  = [(Py.txt "e", 3); (Py.txt "b", 2); (Py.txt "d", 2); (Py.txt "a", 1);
     (Py.txt "c", 1)].
Proof. reflexivity. Qed.

Example hash_the_seed0 :
  PyHash.hash (PyHash.secret_of_seed 0) (Py.txt "the") = -30821151497585103.
Proof. vm_compute. reflexivity. Qed.

Example hash_the_seed1 :
  PyHash.hash (PyHash.secret_of_seed 1) (Py.txt "the") = -1950760680708857445.
Proof. vm_compute. reflexivity. Qed.

Example hash_nine_bytes_seed2 :
  PyHash.hash (PyHash.secret_of_seed 2) (Py.txt "abcdefghi") = -6132468511899114448.
Proof. vm_compute. reflexivity. Qed.

Example hash_eight_bytes_seed3 :
  PyHash.hash (PyHash.secret_of_seed 3) (Py.txt "abcdefgh") = 8740661242783219229.
Proof. vm_compute. reflexivity. Qed.

(** ** Decimal numerals *)

Section Numerals.
Import Py.

Lemma digit_char_spec d :
  0 <= d < 10 -> isdigit (digit_char d) = true /\ digit_value (digit_char d) = d.
Proof.
  intros H.
  assert (d = 0 \/ d = 1 \/ d = 2 \/ d = 3 \/ d = 4 \/ d = 5 \/ d = 6 \/ d = 7
          \/ d = 8 \/ d = 9) as Hd by lia.
  repeat (destruct Hd as [-> | Hd]; [split; reflexivity |]).
  subst d. split; reflexivity.
Qed.

Lemma isdigit_code c : isdigit c = true -> 48 <= code c <= 57.
Proof. unfold isdigit. intros H. apply andb_true_iff in H. lia. Qed.

Lemma digits_go_isdigit fuel n acc :
  0 <= n -> Forall (fun c => isdigit c = true) acc ->
  Forall (fun c => isdigit c = true) (digits_go fuel n acc).
Proof.
  revert n acc. induction fuel as [| fuel IH]; intros n acc Hn Hacc; simpl; [done |].
  assert (Forall (fun c => isdigit c = true) (digit_char (n mod 10) :: acc)) as H'.
  { constructor; [| done]. apply digit_char_spec. apply Z.mod_pos_bound. lia. }
  destruct (n <? 10); [done |].
  apply IH; [| done]. apply Z.div_pos; lia.
Qed.

Lemma digits_go_value fuel n acc :
  0 <= n < 2 ^ Z.of_nat fuel ->
  digits_value (digits_go fuel n acc) 0 = digits_value acc n.
Proof.
  revert n acc. induction fuel as [| fuel IH]; intros n acc Hn.
  - simpl in *. replace n with 0 by lia. done.
  - cbn [digits_go].
    assert (0 <= n mod 10 < 10) as Hm by (apply Z.mod_pos_bound; lia).
    destruct (Z.ltb_spec n 10) as [Hlt | Hge].
    + cbn [digits_value fold_left]. rewrite Z.mod_small by lia.
      destruct (digit_char_spec n) as [_ ->]; [lia |]. done.
    + rewrite IH.
      * unfold digits_value at 1. cbn [fold_left].
        destruct (digit_char_spec (n mod 10)) as [_ ->]; [lia |].
        fold (digits_value acc (10 * (n / 10) + n mod 10)).
        rewrite <- Z.div_mod by lia. done.
      * rewrite Nat2Z.inj_succ, Z.pow_succ_r in Hn by lia.
        split; [apply Z.div_pos; lia |].
        apply Z.div_lt_upper_bound; lia.
Qed.

Lemma digits_go_length fuel n acc c :
  0 <= n < 10 ^ Z.of_nat c -> (1 <= c)%nat ->
  (length (digits_go fuel n acc) <= length acc + c)%nat.
Proof.
  revert n acc c. induction fuel as [| fuel IH]; intros n acc c Hn Hc; simpl; [lia |].
  destruct (Z.ltb_spec n 10) as [Hlt | Hge]; simpl; [lia |].
  destruct c as [| [| c]]; [lia | simpl in Hn; lia |].
  specialize (IH (n / 10) (digit_char (n mod 10) :: acc) (S c)).
  simpl length in IH.
  assert (0 <= n / 10 < 10 ^ Z.of_nat (S c)) as H'.
  { split; [apply Z.div_pos; lia |].
    apply Z.div_lt_upper_bound; [lia |].
    rewrite <- Z.pow_succ_r by lia. rewrite <- Nat2Z.inj_succ. lia. }
  specialize (IH H'). lia.
Qed.

Lemma digits_go_nonempty fuel n acc : digits_go (S fuel) n acc <> [].
Proof.
  revert n acc. induction fuel as [| fuel IH]; intros n acc.
  - simpl. destruct (n <? 10); done.
  - change (digits_go (S (S fuel)) n acc)
      with (if n <? 10 then digit_char (n mod 10) :: acc
            else digits_go (S fuel) (n / 10) (digit_char (n mod 10) :: acc)).
    destruct (n <? 10); [done | apply IH].
Qed.

Lemma digits_isdigit n : 0 <= n -> Forall (fun c => isdigit c = true) (digits n).
Proof. intros. apply digits_go_isdigit; [done | constructor]. Qed.

Lemma digits_nonempty n : digits n <> [].
Proof. apply digits_go_nonempty. Qed.

Lemma digits_value_digits n : 0 <= n -> digits_value (digits n) 0 = n.
Proof.
  intros Hn. unfold digits. rewrite digits_go_value; [done |].
  split; [done |].
  destruct (Z.eq_dec n 0) as [-> | Hne]; [done |].
  rewrite Nat2Z.inj_succ, Z2Nat.id by apply Z.log2_nonneg.
  apply Z.log2_spec. lia.
Qed.

Lemma digits_length n c :
  0 <= n < 10 ^ Z.of_nat c -> (1 <= c)%nat -> (length (digits n) <= c)%nat.
Proof. intros. apply (digits_go_length _ n [] c); done. Qed.

(** Scanning a run of digits without underscores. *)
Lemma scan_digits_all s : forall a count prev,
  Forall (fun c => isdigit c = true) s -> s <> [] \/ prev = true ->
  scan_digits a count prev s = Some (digits_value s a, (count + length s)%nat).
Proof.
  induction s as [| c s IH]; intros a count prev Hs Hne.
  - destruct Hne as [? | ->]; [done |]. simpl. do 2 f_equal. lia.
  - inversion Hs as [| ? ? Hc Hs']; subst. simpl. rewrite Hc.
    rewrite IH by auto. simpl. do 2 f_equal. lia.
Qed.

(** What a successful scan returns is below ten to the number of digits. *)
Lemma scan_digits_bound s : forall a count prev v n,
  scan_digits a count prev s = Some (v, n) ->
  0 <= a < 10 ^ Z.of_nat count -> (prev = true -> (1 <= count)%nat) ->
  0 <= v < 10 ^ Z.of_nat n /\ (1 <= n)%nat.
Proof.
  induction s as [| c s IH]; intros a count prev v n H Ha Hp; simpl in H.
  - destruct prev; [| done]. inversion H; subst. auto.
  - destruct (isdigit c) eqn:Hc.
    + apply IH in H; [done | | lia].
      apply isdigit_code in Hc. unfold digit_value.
      rewrite Nat2Z.inj_succ, Z.pow_succ_r by lia. lia.
    + destruct (Ascii.eqb c "_"); [| done]. destruct prev; [| done].
      apply IH in H; [done | done | done].
Qed.

Lemma parse_digits_digits n :
  0 <= n -> (length (digits n) <= max_str_digits)%nat ->
  parse_digits (digits n) = Some n.
Proof.
  intros Hn Hlen. unfold parse_digits.
  rewrite scan_digits_all; [| by apply digits_isdigit | left; apply digits_nonempty].
  rewrite digits_value_digits by done. simpl Nat.add.
  apply Nat.leb_le in Hlen. by rewrite Hlen.
Qed.

Lemma parse_digits_bound s v :
  parse_digits s = Some v -> 0 <= v /\ (length (digits v) <= max_str_digits)%nat.
Proof.
  unfold parse_digits. destruct (scan_digits 0 0 false s) as [[v' n] |] eqn:H; [| done].
  destruct (Nat.leb_spec n max_str_digits) as [Hle | ?]; [| done].
  intros [= <-]. apply scan_digits_bound in H; [| simpl; lia | done].
  destruct H as [Hv Hn]. split; [lia |].
  etrans; [apply (digits_length v' n); done | done].
Qed.
End Numerals.

(** ** Stripping, splitting and lines *)

Section Text.
Import Py.

Lemma lstrip_with_head sp c s : sp c = false -> lstrip_with sp (c :: s) = c :: s.
Proof. intros H. simpl. by rewrite H. Qed.

Lemma lstrip_with_spaces sp ws s :
  Forall (fun c => sp c = true) ws -> lstrip_with sp (ws ++ s) = lstrip_with sp s.
Proof. induction 1 as [| c ws Hc _ IH]; simpl; [done |]. by rewrite Hc. Qed.

(** A text that starts and ends with characters outside [sp], followed by
    characters of [sp] only, is stripped to itself. *)
Lemma strip_with_core sp (c d : ascii) (s ws : text) :
  sp c = false -> sp d = false -> Forall (fun c => sp c = true) ws ->
  strip_with sp (c :: s ++ d :: ws) = c :: s ++ [d].
Proof.
  intros Hc Hd Hws. unfold strip_with.
  rewrite lstrip_with_head by done.
  change (c :: s ++ d :: ws) with ((c :: s) ++ d :: ws).
  rewrite rev_app_distr. cbn [rev]. rewrite <- !app_assoc.
  rewrite lstrip_with_spaces by (by apply Forall_rev).
  cbn [app]. rewrite lstrip_with_head by done.
  change (d :: rev s ++ [c]) with ([d] ++ rev (c :: s)).
  rewrite rev_app_distr, rev_involutive. done.
Qed.

Lemma strip_with_single sp (c : ascii) (ws : text) :
  sp c = false -> Forall (fun c => sp c = true) ws ->
  strip_with sp (c :: ws) = [c].
Proof.
  intros Hc Hws. unfold strip_with.
  rewrite lstrip_with_head by done. cbn [rev].
  rewrite lstrip_with_spaces by (by apply Forall_rev).
  rewrite lstrip_with_head by done. done.
Qed.

Lemma split_no_sep sep s :
  Forall (fun c => Ascii.eqb c sep = false) s -> split sep s = [s].
Proof. induction 1 as [| c s Hc _ IH]; simpl; [done |]. by rewrite Hc, IH. Qed.

Lemma split_at_sep sep s t :
  Forall (fun c => Ascii.eqb c sep = false) s ->
  split sep (s ++ sep :: t) = s :: split sep t.
Proof.
  induction 1 as [| c s Hc _ IH]; simpl.
  - by rewrite Ascii.eqb_refl.
  - by rewrite Hc, IH.
Qed.

(** No part of a split contains the separator. *)
Lemma split_parts_no_sep sep s :
  Forall (Forall (fun c => Ascii.eqb c sep = false)) (split sep s).
Proof.
  induction s as [| c s IH]; simpl.
  - repeat constructor.
  - destruct (Ascii.eqb c sep) eqn:Hc.
    + constructor; [constructor | done].
    + destruct (split sep s) as [| w ws]; [repeat constructor; done |].
      inversion IH; subst. constructor; [constructor; done | done].
Qed.

Lemma lines_line l rest :
  Forall (fun c => Ascii.eqb c LF = false) l ->
  lines (l ++ LF :: rest) = (l ++ [LF]) :: lines rest.
Proof.
  induction 1 as [| c l Hc _ IH]; simpl; [done |]. by rewrite Hc, IH.
Qed.

Lemma universal_newlines_id s :
  Forall (fun c => Ascii.eqb c CR = false) s -> universal_newlines s = s.
Proof. induction 1 as [| c s Hc _ IH]; simpl; [done |]. by rewrite Hc, IH. Qed.
End Text.

(** ** Integers through [str] and [int] *)

Section IntStr.
Import Py.

Lemma isdigit_plain c :
  isdigit c = true ->
  int_space c = false /\ isspace c = false /\ Ascii.eqb c "+" = false
  /\ Ascii.eqb c "-" = false /\ Ascii.eqb c TAB = false
  /\ Ascii.eqb c LF = false /\ Ascii.eqb c CR = false.
Proof.
  intros H. apply isdigit_code in H.
  assert (forall d, code d < 48 -> Ascii.eqb c d = false) as Hne.
  { intros d Hd. destruct (Ascii.eqb_spec c d) as [-> |]; [lia | done]. }
  unfold int_space, isspace.
  repeat match goal with
         | |- context [?a <=? ?b] => destruct (Z.leb_spec a b); try lia
         | |- context [?a =? ?b] => destruct (Z.eqb_spec a b); try lia
         end.
  repeat split; try reflexivity; apply Hne; vm_compute; reflexivity.
Qed.

Lemma strip_with_plain sp s :
  Forall (fun c => sp c = false) s -> strip_with sp s = s.
Proof.
  intros Hs. unfold strip_with.
  assert (forall t, Forall (fun c => sp c = false) t -> lstrip_with sp t = t) as Hl.
  { intros [| c t] Ht; [done |]. inversion Ht; subst. by apply lstrip_with_head. }
  rewrite (Hl s) by done. rewrite (Hl (rev s)) by (by apply Forall_rev).
  apply rev_involutive.
Qed.

Lemma repr_int_plain n :
  Forall (fun c => isspace c = false /\ int_space c = false
                   /\ Ascii.eqb c TAB = false /\ Ascii.eqb c LF = false
                   /\ Ascii.eqb c CR = false) (repr_int n).
Proof.
  assert (forall m, 0 <= m ->
            Forall (fun c => isspace c = false /\ int_space c = false
                   /\ Ascii.eqb c TAB = false /\ Ascii.eqb c LF = false
                   /\ Ascii.eqb c CR = false) (digits m)) as Hd.
  { intros m Hm. eapply Forall_impl; [by apply digits_isdigit |].
    intros c Hc. apply isdigit_plain in Hc. tauto. }
  unfold repr_int. destruct (Z.ltb_spec n 0).
  - constructor; [repeat split; reflexivity | apply Hd; lia].
  - by apply Hd.
Qed.

Lemma repr_int_last n : exists s d, repr_int n = s ++ [d] /\ isspace d = false.
Proof.
  destruct (exists_last (l := repr_int n)) as (s & d & Heq).
  { unfold repr_int. destruct (n <? 0); [done | apply digits_nonempty]. }
  exists s, d. split; [done |].
  pose proof (repr_int_plain n) as H. rewrite Heq in H.
  apply Forall_app in H as [_ H]. inversion H; subst. tauto.
Qed.

Lemma int_repr_int n :
  (length (digits (Z.abs n)) <= max_str_digits)%nat -> int (repr_int n) = Some n.
Proof.
  intros Hlen. unfold int.
  rewrite strip_with_plain
    by (eapply Forall_impl; [apply repr_int_plain | simpl; tauto]).
  unfold repr_int. destruct (Z.ltb_spec n 0) as [Hneg | Hpos].
  - change (Ascii.eqb "-" "+") with false. change (Ascii.eqb "-" "-") with true.
    cbv iota. rewrite Z.abs_neq in Hlen by lia.
    rewrite parse_digits_digits by (done || lia). simpl. f_equal. lia.
  - rewrite Z.abs_eq in Hlen by lia.
    destruct (digits n) as [| c ds] eqn:Hd; [by apply digits_nonempty in Hd |].
    pose proof (digits_isdigit n Hpos) as Hall. rewrite Hd in Hall.
    inversion Hall as [| ? ? Hc _]; subst.
    apply isdigit_plain in Hc as (_ & _ & -> & -> & _).
    rewrite <- Hd. apply parse_digits_digits; [done | by rewrite Hd].
Qed.

(** [int(str(n)) == n] whenever [str(n)] does not raise. *)
Lemma int_str_int n s : str_int n = Some s -> int s = Some n.
Proof.
  unfold str_int.
  destruct (Nat.leb_spec (length (digits (Z.abs n))) max_str_digits); [| done].
  intros [= <-]. by apply int_repr_int.
Qed.

Lemma str_int_abs n :
  (length (digits (Z.abs n)) <= max_str_digits)%nat ->
  str_int n = Some (repr_int n).
Proof. intros H. unfold str_int. apply Nat.leb_le in H. by rewrite H. Qed.

(** What [int] returned can be formatted again. *)
Lemma str_int_of_int s n : int s = Some n -> str_int n = Some (repr_int n).
Proof.
  unfold int. intros H. apply str_int_abs.
  destruct (strip_with int_space s) as [| c ds]; [done |].
  destruct (Ascii.eqb c "+").
  { apply parse_digits_bound in H as [? ?]. by rewrite Z.abs_eq. }
  destruct (Ascii.eqb c "-").
  { destruct (parse_digits ds) as [v |] eqn:Hv; [| done].
    simpl in H. injection H as <-.
    apply parse_digits_bound in Hv as [? ?]. by rewrite Z.abs_opp, Z.abs_eq. }
  apply parse_digits_bound in H as [? ?]. by rewrite Z.abs_eq.
Qed.
End IntStr.

(** ** Records: one line per pair *)

Section Records.
Import Py.

Lemma key_ok_spec k :
  key_ok k = true ->
  exists c k', k = c :: k' /\ isspace c = false
    /\ Forall (fun c => Ascii.eqb c TAB = false /\ Ascii.eqb c LF = false
                        /\ Ascii.eqb c CR = false) k.
Proof.
  unfold key_ok. intros H. apply andb_true_iff in H as [Hh Hall].
  destruct k as [| c k']; [done |]. exists c, k'.
  split; [done |]. split; [by apply negb_true_iff |].
  rewrite forallb_forall in Hall. apply List.Forall_forall. intros x Hx.
  specialize (Hall x Hx). apply negb_true_iff in Hall.
  apply orb_false_iff in Hall as [Hall ?]. apply orb_false_iff in Hall as [? ?].
  done.
Qed.

(** The line written for a pair parses back to the pair. *)
Lemma parse_line_record k n s :
  key_ok k = true -> str_int n = Some s ->
  parse_line (k ++ [TAB] ++ s ++ [LF]) = Some (Some (k, n)).
Proof.
  intros Hk Hs. pose proof (int_str_int _ _ Hs) as Hint.
  assert (s = repr_int n) as Hrepr.
  { unfold str_int in Hs. destruct (_ <=? _)%nat; congruence. }
  destruct (key_ok_spec k Hk) as (c & k' & -> & Hc & Hall).
  destruct (repr_int_last n) as (s' & d & Hsd & Hd).
  pose proof (repr_int_plain n) as Hplain. rewrite <- Hrepr in *.
  unfold parse_line, strip.
  replace ((c :: k') ++ [TAB] ++ s ++ [LF])
    with (c :: (k' ++ TAB :: s') ++ d :: [LF])
    by (rewrite Hsd; simpl; by rewrite <- !app_assoc).
  rewrite strip_with_core by (done || by repeat constructor).
  replace (c :: (k' ++ TAB :: s') ++ [d]) with ((c :: k') ++ TAB :: s)
    by (rewrite Hsd; simpl; by rewrite <- !app_assoc).
  rewrite split_at_sep by (eapply Forall_impl; [exact Hall | simpl; tauto]).
  rewrite split_no_sep by (eapply Forall_impl; [exact Hplain | simpl; tauto]).
  simpl. by rewrite Hint.
Qed.

Lemma render_int_items_cons k n items t :
  render (int_items ((k, n) :: items)) = Some t ->
  exists s t', str_int n = Some s /\ render (int_items items) = Some t'
               /\ t = (k ++ [TAB] ++ s) ++ LF :: t'.
Proof.
  simpl. destruct (str_int n) as [s |]; [| done].
  destruct (render (int_items items)) as [t' |]; [| done].
  intros [= <-]. exists s, t'. by rewrite <- !app_assoc.
Qed.

Lemma str_int_plain n s :
  str_int n = Some s ->
  Forall (fun c => Ascii.eqb c LF = false /\ Ascii.eqb c CR = false) s.
Proof.
  unfold str_int. destruct (_ <=? _)%nat; [| done]. intros [= <-].
  eapply Forall_impl; [apply repr_int_plain | simpl; tauto].
Qed.

Lemma record_plain k n s :
  key_ok k = true -> str_int n = Some s ->
  Forall (fun c => Ascii.eqb c LF = false /\ Ascii.eqb c CR = false)
         (k ++ [TAB] ++ s).
Proof.
  intros Hk Hs. destruct (key_ok_spec k Hk) as (c & k' & Heq & _ & Hall).
  apply Forall_app. split; [eapply Forall_impl; [exact Hall | simpl; tauto] |].
  constructor; [by split | by eapply str_int_plain].
Qed.

Lemma render_no_cr items t :
  Forall (fun kv => key_ok (fst kv) = true) items ->
  render (int_items items) = Some t ->
  Forall (fun c => Ascii.eqb c CR = false) t.
Proof.
  intros Hk. revert t. induction Hk as [| [k n] items Hkn _ IH]; intros t Ht.
  - injection Ht as <-. constructor.
  - apply render_int_items_cons in Ht as (s & t' & Hs & Ht' & ->).
    apply Forall_app. split.
    + eapply Forall_impl; [by apply (record_plain k n s) | simpl; tauto].
    + constructor; [done | by apply IH].
Qed.

Lemma parse_lines_cons l ls :
  parse_lines (l :: ls)
  = match parse_line l, parse_lines ls with
    | Some (Some kv), Some r => Some (kv :: r)
    | Some None, Some r => Some r
    | _, _ => None
    end.
Proof. reflexivity. Qed.

Lemma parse_lines_render items t :
  Forall (fun kv => key_ok (fst kv) = true) items ->
  render (int_items items) = Some t ->
  parse_lines (lines t) = Some items.
Proof.
  intros Hk. revert t. induction Hk as [| [k n] items Hkn _ IH]; intros t Ht.
  - by injection Ht as <-.
  - apply render_int_items_cons in Ht as (s & t' & Hs & Ht' & ->).
    rewrite lines_line
      by (eapply Forall_impl; [by apply (record_plain k n s) | simpl; tauto]).
    rewrite parse_lines_cons, (IH _ Ht').
    replace ((k ++ [TAB] ++ s) ++ [LF]) with (k ++ [TAB] ++ s ++ [LF])
      by (by rewrite <- !app_assoc).
    by rewrite (parse_line_record k n s).
Qed.

(** Writing pairs and reading them back. *)
Lemma parse_records_render items t :
  Forall (fun kv => key_ok (fst kv) = true) items ->
  render (int_items items) = Some t ->
  parse_records t = Some items.
Proof.
  intros Hk Ht. unfold parse_records.
  rewrite universal_newlines_id by (by eapply render_no_cr).
  by apply parse_lines_render.
Qed.
End Records.

(** ** The file system monad *)

Section IO.
Import Py.

Lemma put_put path c1 c2 fs : put path c2 (put path c1 fs) = put path c2 fs.
Proof. unfold put. simpl. by rewrite insert_insert_eq. Qed.

Lemma put_same path content fs :
  files fs !! path = Some content -> put path content fs = fs.
Proof. intros H. destruct fs as [fl dn]. unfold put. simpl in *. by rewrite insert_id. Qed.

Lemma files_put path content fs : files (put path content fs) !! path = Some content.
Proof. simpl. apply lookup_insert_eq. Qed.

Lemma files_put_ne path path' content fs :
  path <> path' -> files (put path content fs) !! path' = files fs !! path'.
Proof. intros. simpl. by apply lookup_insert_ne. Qed.

Lemma open_w_ok path fs :
  path ∉ denied fs -> open_w path fs = (put path [] fs, Ok tt).
Proof. intros H. unfold open_w. by rewrite decide_False. Qed.

Lemma open_w_denied path fs :
  path ∈ denied fs -> open_w path fs = (fs, Raise (PermissionError path)).
Proof. intros H. unfold open_w. by rewrite decide_True. Qed.

Lemma read_file_ok path content fs :
  path ∉ denied fs -> files fs !! path = Some content ->
  read_file path fs = (fs, Ok (universal_newlines content)).
Proof. intros H1 H2. unfold read_file. by rewrite decide_False, H2. Qed.

Lemma read_file_missing path fs :
  path ∉ denied fs -> files fs !! path = None ->
  read_file path fs = (fs, Raise (FileNotFoundError path)).
Proof. intros H1 H2. unfold read_file. by rewrite decide_False, H2. Qed.

Lemma read_file_denied path fs :
  path ∈ denied fs -> read_file path fs = (fs, Raise (PermissionError path)).
Proof. intros H. unfold read_file. by rewrite decide_True. Qed.

(** Reading never changes the disk. *)
Lemma read_file_disk path fs : (read_file path fs).1 = fs.
Proof.
  unfold read_file. destruct (decide _); [done |]. by destruct (files fs !! path).
Qed.

Lemma write_at path content s fs :
  files fs !! path = Some content ->
  write path s fs = (put path (content ++ s) fs, Ok tt).
Proof. intros H. unfold write, put. by rewrite H. Qed.

Lemma format_value_render v s fs :
  render_value v = Some s -> format_value v fs = (fs, Ok s).
Proof. destruct v; simpl; [| by intros [= ->]]. unfold of_option. by intros ->. Qed.

Lemma format_value_fails v fs :
  render_value v = None -> format_value v fs = (fs, Raise ValueError).
Proof. destruct v; simpl; [| done]. unfold of_option. by intros ->. Qed.

Lemma format_int_ok n s fs : str_int n = Some s -> format_int n fs = (fs, Ok s).
Proof. unfold format_int, of_option. by intros ->. Qed.

(** Writing records appends their rendering to the open file. *)
Lemma write_records_render path items : forall t content fs,
  render items = Some t -> files fs !! path = Some content ->
  write_records path items fs = (put path (content ++ t) fs, Ok tt).
Proof.
  induction items as [| [k v] items IH]; intros t content fs Ht Hc.
  - injection Ht as <-. rewrite app_nil_r, put_same by done. done.
  - simpl in Ht. destruct (render_value v) as [s |] eqn:Hv; [| done].
    destruct (render items) as [t' |] eqn:Ht'; [| done]. injection Ht as <-.
    unfold write_records in *. cbn [for_each]. unfold bind at 1.
    unfold write_record at 1. unfold bind at 1. cbn [fst snd].
    rewrite (format_value_render _ _ _ Hv).
    rewrite (write_at _ _ _ _ Hc).
    rewrite (IH t' (content ++ k ++ [TAB] ++ s ++ [LF])) by (done || apply files_put).
    rewrite put_put. do 2 f_equal. by rewrite <- !app_assoc.
Qed.

(** A value that cannot be formatted makes the writing loop raise. *)
Lemma write_records_fails path items fs :
  render items = None -> (write_records path items fs).2 = Raise ValueError.
Proof.
  revert fs. induction items as [| [k v] items IH]; intros fs Ht; [done |].
  simpl in Ht. unfold write_records in *. cbn [for_each]. unfold bind at 1.
  unfold write_record at 1. unfold bind at 1. cbn [fst snd].
  destruct (render_value v) as [s |] eqn:Hv.
  - rewrite (format_value_render _ _ _ Hv).
    destruct (write _ _ fs) as [fs' [[] | e]] eqn:Hw; [| by inversion Hw].
    apply IH. by destruct (render items).
  - by rewrite (format_value_fails _ _ Hv).
Qed.

(** The merger's loop over the lines of one file. *)
Lemma merge_lines ls : forall acc fs,
  for_fold ls merge_line acc fs
  = (fs, match parse_lines ls with
         | Some l => Ok (acc ++ l)
         | None => Raise ValueError
         end).
Proof.
  induction ls as [| line ls IH]; intros acc fs.
  - simpl. by rewrite app_nil_r.
  - cbn [for_fold]. unfold bind. rewrite parse_lines_cons.
    unfold merge_line at 1.
    destruct (parse_line line) as [[kv |] |]; simpl; [| |done].
    + destruct kv as [word count]. simpl. rewrite IH.
      destruct (parse_lines ls); [| done]. by rewrite <- app_assoc.
    + rewrite IH. by destruct (parse_lines ls).
Qed.

(** The reduce executor's loop over the lines of one file. *)
Lemma group_lines ls : forall g fs,
  for_fold ls group_line g fs
  = (fs, match parse_lines ls with
         | Some l => Ok (group l g)
         | None => Raise ValueError
         end).
Proof.
  induction ls as [| line ls IH]; intros g fs; [done |].
  cbn [for_fold]. unfold bind. rewrite parse_lines_cons.
  unfold group_line at 1.
  destruct (parse_line line) as [[kv |] |]; simpl; [| |done].
  - destruct kv as [key n]. simpl. rewrite IH. by destruct (parse_lines ls).
  - rewrite IH. by destruct (parse_lines ls).
Qed.
End IO.

(** ** The partition function *)

(** C9: for every key and every reducer count R > 0, the reducer index the
    map step computes, hash(key) % R, exists and lies in [0, R), whatever the
    sign of the hash. *)
Theorem partition_in_range (sec : PyHash.secret) (key : Py.text) (R : Z) :
  0 < R -> exists r, partition sec key R = Some r /\ 0 <= r < R.
Proof.
  intros HR. unfold partition, Py.mod_.
  destruct (Z.eqb_spec R 0) as [-> | _]; [lia |].
  eexists. split; [reflexivity |]. apply Z.mod_pos_bound. lia.
Qed.

Lemma partition_in_range_witness :
  PyHash.hash (PyHash.secret_of_seed 0) (Py.txt "the") < 0
  /\ exists r, partition (PyHash.secret_of_seed 0) (Py.txt "the") 4 = Some r
               /\ 0 <= r < 4.
Proof.
  split; [vm_compute; reflexivity |].
  apply (partition_in_range (PyHash.secret_of_seed 0) (Py.txt "the") 4). lia.
Defined.

(** C1: the reducer index of a key is not the same in every process: the
    processes whose hash secrets are those of PYTHONHASHSEED=1 and
    PYTHONHASHSEED=4 send the key "the" to reducers 3 and 1 of 4. *)
Theorem partition_differs_between_processes :
  partition (PyHash.secret_of_seed 1) (Py.txt "the") 4 = Some 3
  /\ partition (PyHash.secret_of_seed 4) (Py.txt "the") 4 = Some 1.
Proof. split; vm_compute; reflexivity. Qed.

(** ** Map-completion reports *)

Section MapReports.
Implicit Types (m : Master) (reports : list (Py.text * list (Py.text * list Py.text))).

Lemma map_complete_tasks m task_id intermediate :
  map_tasks (map_complete m task_id intermediate).1.1 = map_tasks m.
Proof.
  unfold map_complete.
  destruct (store_intermediate _ _) as [manifest [[] | e]]; reflexivity.
Qed.

Lemma map_complete_count m task_id intermediate :
  let '(m', a, spawn) := map_complete m task_id intermediate in
  match a with
  | Acknowledged =>
      completed_maps m' = completed_maps m + 1
      /\ spawn = (completed_maps m' =? Z.of_nat (length (map_tasks m)))
  | InternalError _ => completed_maps m' = completed_maps m /\ spawn = false
  end.
Proof.
  unfold map_complete.
  destruct (store_intermediate _ _) as [manifest [[] | e]]; simpl; done.
Qed.

Lemma map_reports_cons m task_id intermediate reports :
  map_reports m ((task_id, intermediate) :: reports)
  = let '(m', a, spawn) := map_complete m task_id intermediate in
    ((map_reports m' reports).1, (a, spawn) :: (map_reports m' reports).2).
Proof.
  simpl. destruct (map_complete m task_id intermediate) as [[m' a] spawn].
  by destruct (map_reports m' reports).
Qed.

Lemma map_reports_counter reports : forall m,
  completed_maps (map_reports m reports).1
  = completed_maps m + acknowledged (map_reports m reports).2.
Proof.
  induction reports as [| [task_id intermediate] reports IH]; intros m.
  - simpl. unfold acknowledged. simpl. lia.
  - rewrite map_reports_cons.
    pose proof (map_complete_count m task_id intermediate) as H.
    destruct (map_complete m task_id intermediate) as [[m' a] spawn].
    cbn [fst snd]. rewrite IH. unfold acknowledged. cbn [List.filter fst].
    destruct a; destruct H as [-> _]; simpl length; lia.
Qed.

Lemma map_reports_tasks reports : forall m,
  map_tasks (map_reports m reports).1 = map_tasks m.
Proof.
  induction reports as [| [task_id intermediate] reports IH]; intros m; [done |].
  rewrite map_reports_cons.
  pose proof (map_complete_tasks m task_id intermediate) as H.
  destruct (map_complete m task_id intermediate) as [[m' a] spawn].
  cbn [fst snd] in *. by rewrite IH.
Qed.

(** Once the counter has reached the number of map tasks, no report starts
    the reduce phase. *)
Lemma map_reports_late reports : forall m,
  Z.of_nat (length (map_tasks m)) <= completed_maps m ->
  reduce_starts (map_reports m reports).2 = 0%nat.
Proof.
  induction reports as [| [task_id intermediate] reports IH]; intros m Hm; [done |].
  rewrite map_reports_cons.
  pose proof (map_complete_count m task_id intermediate) as H.
  pose proof (map_complete_tasks m task_id intermediate) as Ht.
  destruct (map_complete m task_id intermediate) as [[m' a] spawn].
  cbn [fst snd] in *. unfold reduce_starts in *. cbn [List.filter snd].
  assert (spawn = false) as ->.
  { destruct a; destruct H as [H ->]; [| done]. apply Z.eqb_neq. lia. }
  apply IH. rewrite Ht. destruct a; destruct H as [-> _]; lia.
Qed.

Lemma map_reports_starts reports : forall m,
  (reduce_starts (map_reports m reports).2 <= 1)%nat.
Proof.
  induction reports as [| [task_id intermediate] reports IH]; intros m.
  - simpl. unfold reduce_starts. simpl. lia.
  - rewrite map_reports_cons.
    pose proof (map_complete_count m task_id intermediate) as H.
    pose proof (map_complete_tasks m task_id intermediate) as Ht.
    destruct (map_complete m task_id intermediate) as [[m' a] spawn].
    cbn [fst snd] in *. unfold reduce_starts in *. cbn [List.filter snd].
    destruct spawn; [| apply IH].
    destruct a; destruct H as [H Hs]; [| done].
    symmetry in Hs. apply Z.eqb_eq in Hs.
    pose proof (map_reports_late reports m') as Hl.
    unfold reduce_starts in Hl. simpl length. rewrite Hl; [lia |].
    rewrite Ht. lia.
Qed.

(** The report that brings the counter to the number of map tasks starts
    the reduce phase. *)
Lemma map_reports_reached reports : forall m,
  completed_maps m < Z.of_nat (length (map_tasks m)) ->
  Z.of_nat (length (map_tasks m))
    <= completed_maps m + acknowledged (map_reports m reports).2 ->
  reduce_starts (map_reports m reports).2 = 1%nat.
Proof.
  induction reports as [| [task_id intermediate] reports IH]; intros m Hlt Hge.
  - simpl in Hge. unfold acknowledged in Hge. simpl in Hge. lia.
  - rewrite map_reports_cons in *.
    pose proof (map_complete_count m task_id intermediate) as H.
    pose proof (map_complete_tasks m task_id intermediate) as Ht.
    destruct (map_complete m task_id intermediate) as [[m' a] spawn].
    cbn [fst snd] in *. unfold reduce_starts, acknowledged in *.
    cbn [List.filter fst snd] in *.
    destruct a; destruct H as [H ->].
    + destruct (Z.eqb_spec (completed_maps m') (Z.of_nat (length (map_tasks m))))
        as [Heq | Hne].
      * pose proof (map_reports_late reports m') as Hl.
        unfold reduce_starts in Hl. simpl length. rewrite Hl; [lia |].
        rewrite Ht. lia.
      * apply IH; [rewrite Ht; lia |]. simpl length in Hge. rewrite Ht. lia.
    + apply IH; [rewrite Ht; lia |]. rewrite Ht. lia.
Qed.
(** Wherever the reduce phase is started, it is at an acknowledged report
    that brings the counter to the number of map tasks. *)
Lemma map_reports_start_at reports : forall m pre a post,
  (map_reports m reports).2 = pre ++ (a, true) :: post ->
  a = Acknowledged
  /\ completed_maps m + acknowledged pre + 1 = Z.of_nat (length (map_tasks m)).
Proof.
  induction reports as [| [task_id intermediate] reports IH]; intros m pre a post Hlog.
  - simpl in Hlog. by destruct pre.
  - rewrite map_reports_cons in Hlog.
    pose proof (map_complete_count m task_id intermediate) as Hc.
    pose proof (map_complete_tasks m task_id intermediate) as Ht.
    destruct (map_complete m task_id intermediate) as [[m' a0] spawn0].
    cbn [fst snd] in *.
    destruct pre as [| e pre].
    + simpl in Hlog. injection Hlog as -> -> _.
      destruct a as [| e]; [| by destruct Hc].
      split; [done |]. destruct Hc as [Hm Hs]. unfold acknowledged. simpl.
      symmetry in Hs. apply Z.eqb_eq in Hs. lia.
    + simpl in Hlog. injection Hlog as <- Hlog.
      destruct (IH m' pre a post Hlog) as [-> Hcount]. split; [done |].
      rewrite Ht in Hcount. unfold acknowledged in *. cbn [List.filter fst].
      destruct a0 as [| e]; destruct Hc as [Hm _]; simpl length; lia.
Qed.
End MapReports.

(** X21: the handler counts reports, not tasks.  The completed-map counter
    goes up by one for every acknowledged report, whatever task ids the
    reports carry, and in any sequence of reports the reduce phase is started
    at most once: exactly once when the counter starts below the number of
    map tasks and ends at or above it, and wherever it is started, it is at
    an acknowledged report that brings the counter to that number. *)
Theorem map_reports_count_every_report (m : Master)
  (reports : list (Py.text * list (Py.text * list Py.text))) :
  let '(m', log) := map_reports m reports in
  completed_maps m' = completed_maps m + acknowledged log
  /\ map_tasks m' = map_tasks m
  /\ (reduce_starts log <= 1)%nat
  /\ (completed_maps m < Z.of_nat (length (map_tasks m)) <= completed_maps m'
      -> reduce_starts log = 1%nat)
  /\ (forall pre a post, log = pre ++ (a, true) :: post ->
        a = Acknowledged
        /\ completed_maps m + acknowledged pre + 1
           = Z.of_nat (length (map_tasks m))).
Proof.
  pose proof (map_reports_counter reports m) as Hc.
  pose proof (map_reports_tasks reports m).
  pose proof (map_reports_starts reports m).
  pose proof (map_reports_reached reports m) as Hr.
  pose proof (map_reports_start_at reports m) as Hat.
  destruct (map_reports m reports) as [m' log]. cbn [fst snd] in *.
  split; [done |]. split; [done |]. split; [done |]. split; [| exact Hat].
  intros [? ?]. apply Hr; lia.
Qed.

Lemma map_reports_count_every_report_witness :
  let log := (map_reports Demo.master_dispatching [Demo.report0; Demo.report0]).2 in
  acknowledged log = 2 /\ (reduce_starts log <= 1)%nat /\ reduce_starts log = 1%nat.
Proof.
  pose proof (map_reports_count_every_report Demo.master_dispatching
                [Demo.report0; Demo.report0]) as H.
  destruct (map_reports Demo.master_dispatching [Demo.report0; Demo.report0])
    as [m' log] eqn:E.
  assert (completed_maps m' = 2 /\ map_tasks Demo.master_dispatching
                                   = [Demo.chunk 0; Demo.chunk 1]) as [Hm Ht].
  { replace m' with (map_reports Demo.master_dispatching
                       [Demo.report0; Demo.report0]).1 by (by rewrite E).
    split; vm_compute; reflexivity. }
  destruct H as (Hc & _ & Hle & Hone & _). cbn [snd].
  split; [| split; [exact Hle |]].
  - rewrite Hm in Hc. simpl in Hc. lia.
  - apply Hone. rewrite Hm, Ht. simpl. lia.
Defined.

(** C2: a job of two map tasks in which the report of task "map-0" arrives
    twice and task "map-1" has not reported.  The one task id is counted
    twice, which brings the counter to the number of map tasks: the second
    report starts the reduce phase although a map task is missing, and the
    file of "map-0" is listed twice for reducer 0. *)
Lemma duplicate_report_counted_twice :
  let reports := [Demo.report0; Demo.report0] in
  let '(m', log) := map_reports Demo.master_dispatching reports in
  length (remove_dups (map fst reports)) = 1%nat
  /\ completed_maps m' = 2
  /\ log = [(Acknowledged, false); (Acknowledged, true)]
  /\ intermediate_files m' !! 0
     = Some [Py.txt "data/intermediate/map-0-reduce-0.txt";
             Py.txt "data/intermediate/map-0-reduce-0.txt"].
Proof. vm_compute. repeat split; reflexivity. Qed.

(** ** The read loops, denotationally *)

Section Loops.
Import Py.

Lemma group_app l r g : group (l ++ r) g = group r (group l g).
Proof. unfold group. apply fold_left_app. Qed.

(** The reduce executor's loop over its input files. *)
Lemma reduce_read_loop paths : forall g fs,
  for_fold paths group_file g fs
  = (fs, match collect (file_pairs fs) paths with
         | Ok l => Ok (group l g)
         | Raise e => Raise e
         end).
Proof.
  induction paths as [| path paths IH]; intros g fs; [done |].
  cbn [for_fold collect]. unfold bind at 1. unfold group_file at 1.
  unfold bind at 1. unfold file_pairs at 1.
  pose proof (read_file_disk path fs) as Hd.
  destruct (read_file path fs) as [fs1 [content | e]]; simpl in Hd; subst fs1; [| done].
  rewrite group_lines.
  destruct (parse_lines (lines content)) as [l |]; [| done].
  rewrite IH. destruct (collect (file_pairs fs) paths); [| done].
  by rewrite group_app.
Qed.

Lemma merge_file_spec acc i fs :
  merge_file acc i fs
  = (fs, match reducer_output fs i with
         | Ok l => Ok (acc ++ l)
         | Raise e => Raise e
         end).
Proof.
  unfold merge_file, reducer_output, bind, format_int, of_option.
  destruct (str_int i) as [name |]; [| done]. simpl.
  unfold file_pairs.
  pose proof (read_file_disk (output_filename name) fs) as Hd.
  destruct (read_file (output_filename name) fs) as [fs1 [content | e]];
    simpl in Hd; subst fs1.
  - rewrite merge_lines. by destruct (parse_lines (lines content)).
  - destruct e; try done. by rewrite app_nil_r.
Qed.

(** The merger's loop over the reducers. *)
Lemma merge_loop ids : forall acc fs,
  for_fold ids merge_file acc fs
  = (fs, match collect (reducer_output fs) ids with
         | Ok l => Ok (acc ++ l)
         | Raise e => Raise e
         end).
Proof.
  induction ids as [| i ids IH]; intros acc fs.
  - simpl. by rewrite app_nil_r.
  - cbn [for_fold collect]. unfold bind. rewrite merge_file_spec.
    destruct (reducer_output fs i) as [l | e]; [| done].
    rewrite IH. destruct (collect (reducer_output fs) ids); [| done].
    by rewrite app_assoc.
Qed.

Lemma merge_results_spec m fs :
  merge_results m fs
  = match collect (reducer_output fs) (range (num_reduce_tasks m)) with
    | Ok l =>
        (open_w final_results_file ;;;
         write_records final_results_file (int_items (sort_desc l)) ;;;
         ret (sort_desc l)) fs
    | Raise e => (fs, Raise e)
    end.
Proof.
  unfold merge_results. unfold bind at 1. rewrite merge_loop.
  by destruct (collect _ _).
Qed.

Lemma collect_raises {A B} (f : A -> result (list B)) xs x e :
  In x xs -> f x = Raise e -> exists e', collect f xs = Raise e'.
Proof.
  induction xs as [| y xs IH]; intros Hin Hx; [done |].
  simpl. destruct Hin as [-> | Hin].
  - rewrite Hx. eauto.
  - destruct (f y); [| eauto]. destruct (IH Hin Hx) as [e' ->]. eauto.
Qed.

Lemma collect_ok {A B} (f : A -> result (list B)) xs :
  (forall x, In x xs -> exists l, f x = Ok l) -> exists l, collect f xs = Ok l.
Proof.
  induction xs as [| y xs IH]; intros H; [by eexists |].
  simpl. destruct (H y) as [l ->]; [by left |].
  destruct IH as [r ->]; [intros; apply H; by right |]. eauto.
Qed.

Lemma in_range i n : In i (range n) <-> 0 <= i < n.
Proof.
  unfold range. rewrite in_map_iff. split.
  - intros (k & <- & Hk). apply in_seq in Hk. lia.
  - intros H. exists (Z.to_nat i). split; [lia |]. apply in_seq. lia.
Qed.
End Loops.

(** ** Lines that do not parse *)

Section BadLines.
Import Py.

Lemma value_not_int_parse line : value_not_int line -> parse_line line = None.
Proof.
  intros (key & v & Hne & Hsplit & Hint). unfold parse_line.
  destruct (strip line) as [| c s] eqn:Hs; [done |]. by rewrite Hsplit, Hint.
Qed.

Lemma parse_lines_bad ls line :
  In line ls -> parse_line line = None -> parse_lines ls = None.
Proof.
  induction ls as [| l ls IH]; intros Hin Hbad; [done |].
  rewrite parse_lines_cons. destruct Hin as [-> | Hin].
  - by rewrite Hbad.
  - rewrite (IH Hin Hbad). by destruct (parse_line l) as [[|]|].
Qed.

(** A file that exists and has a line that does not parse raises, and not
    [FileNotFoundError]. *)
Lemma file_pairs_bad fs path content line :
  files fs !! path = Some content ->
  In line (lines (universal_newlines content)) -> parse_line line = None ->
  file_pairs fs path = Raise ValueError
  \/ file_pairs fs path = Raise (PermissionError path).
Proof.
  intros Hf Hin Hbad. unfold file_pairs, read_file.
  destruct (decide (path ∈ denied fs)); [by right |]. left.
  rewrite Hf. by rewrite (parse_lines_bad _ _ Hin Hbad).
Qed.

Lemma reduce_body_raises p up data fs e :
  collect (file_pairs fs) (input_files data) = Raise e ->
  execute_reduce p up data fs = (fs, Failed e, []).
Proof.
  intros H. unfold execute_reduce, reduce_body. unfold bind at 1.
  by rewrite reduce_read_loop, H.
Qed.

Lemma merge_results_raises m fs e :
  collect (reducer_output fs) (range (num_reduce_tasks m)) = Raise e ->
  merge_results m fs = (fs, Raise e).
Proof. intros H. by rewrite merge_results_spec, H. Qed.
End BadLines.

(** C10: a line whose value field is not an integer numeral makes the parse
    raise; a reduce task that has such a line in one of its input files
    fails, having reported nothing, and a merge that meets such a line in a
    reducer's output raises, leaving no final result. *)
Theorem non_integer_value_fails (line content path : Py.text) (fs : filesystem)
  (p : process) (up : bool) (data : reduce_request) (m : Master) (i : Z)
  (name : Py.text) :
  value_not_int line ->
  In line (Py.lines (Py.universal_newlines content)) ->
  parse_line line = None
  /\ (In path (input_files data) -> files fs !! path = Some content ->
      exists e, execute_reduce p up data fs = (fs, Failed e, []))
  /\ (0 <= i < num_reduce_tasks m -> Py.str_int i = Some name ->
      files fs !! output_filename name = Some content ->
      exists e, merge_results m fs = (fs, Raise e)).
Proof.
  intros Hbad Hin. pose proof (value_not_int_parse _ Hbad) as Hparse.
  split; [done |]. split.
  - intros Hpath Hf.
    assert (exists e, file_pairs fs path = Raise e) as [e He].
    { destruct (file_pairs_bad _ _ _ _ Hf Hin Hparse) as [-> | ->]; eauto. }
    destruct (collect_raises (file_pairs fs) _ _ _ Hpath He) as [e' He'].
    exists e'. by apply reduce_body_raises.
  - intros Hi Hname Hf.
    assert (exists e, reducer_output fs i = Raise e) as [e He].
    { unfold reducer_output. rewrite Hname.
      destruct (file_pairs_bad _ _ _ _ Hf Hin Hparse) as [-> | ->]; eauto. }
    assert (In i (Py.range (num_reduce_tasks m))) as Hr by (by apply in_range).
    destruct (collect_raises (reducer_output fs) _ _ _ Hr He) as [e' He'].
    exists e'. by apply merge_results_raises.
Qed.

Lemma non_integer_value_fails_witness :
  let line := Py.txt "pi" ++ [Py.TAB] ++ Py.txt "3.14" ++ [Py.LF] in
  let path := output_filename (Py.txt "0") in
  let data := {| reduce_task_id := Py.txt "reduce-0"; reducer_id := 0;
                 input_files := [path] |} in
  parse_line line = None
  /\ (exists e, execute_reduce (Demo.proc (fun _ => 0) 0) true data
                  Demo.disk_non_integer = (Demo.disk_non_integer, Failed e, []))
  /\ (exists e, merge_results (init 4) Demo.disk_non_integer
                = (Demo.disk_non_integer, Raise e)).
Proof.
  intros line path data.
  destruct (non_integer_value_fails line line path Demo.disk_non_integer
              (Demo.proc (fun _ => 0) 0) true data (init 4) 0 (Py.txt "0"))
    as (H1 & H2 & H3).
  - exists (Py.txt "pi"), (Py.txt "3.14"). vm_compute. repeat split; done.
  - vm_compute. by left.
  - split; [exact H1 |]. split.
    + apply H2; [by left | vm_compute; reflexivity].
    + apply H3; [simpl; lia | reflexivity | vm_compute; reflexivity].
Defined.

(** ** Sorting by count *)

Section Sorting.
Lemma insert_desc_perm x l : insert_desc x l ≡ₚ x :: l.
Proof.
  induction l as [| y l IH]; simpl; [done |].
  destruct (x.2 <? y.2); [| done]. rewrite IH. apply perm_swap.
Qed.

Lemma sort_desc_perm l : sort_desc l ≡ₚ l.
Proof.
  induction l as [| x l IH]; simpl; [done |].
  rewrite insert_desc_perm. by constructor.
Qed.

Lemma insert_desc_sorted x l : sorted_desc l -> sorted_desc (insert_desc x l).
Proof.
  induction l as [| y l IH]; intros Hs; simpl; [by split |].
  destruct Hs as [Hy Hl].
  destruct (Z.ltb_spec x.2 y.2) as [Hlt | Hge]; simpl.
  - split; [| by apply IH].
    eapply Permutation_Forall; [symmetry; apply insert_desc_perm |].
    constructor; [lia | done].
  - split; [| done]. constructor; [lia |].
    eapply Forall_impl; [exact Hy |]. simpl. intros z ?. lia.
Qed.

Lemma sort_desc_sorted l : sorted_desc (sort_desc l).
Proof. induction l as [| x l IH]; simpl; [done | by apply insert_desc_sorted]. Qed.

Lemma sort_desc_length l : length (sort_desc l) = length l.
Proof. apply Permutation_length, sort_desc_perm. Qed.
End Sorting.

(** ** The merger on files that parse *)

Section Merge.
Import Py.

Lemma parse_line_value line k n :
  parse_line line = Some (Some (k, n)) -> str_int n = Some (repr_int n).
Proof.
  unfold parse_line. destruct (strip line) as [| c s]; [done |].
  destruct (split TAB (c :: s)) as [| key [| v [| ? ?]]]; try done.
  destruct (int v) as [n' |] eqn:Hv; [| done]. intros [= _ <-].
  by eapply str_int_of_int.
Qed.

Lemma parse_lines_values ls : forall l,
  parse_lines ls = Some l ->
  Forall (fun kv => str_int kv.2 = Some (repr_int kv.2)) l.
Proof.
  induction ls as [| line ls IH]; intros l H.
  - injection H as <-. constructor.
  - rewrite parse_lines_cons in H.
    destruct (parse_line line) as [[[k n] |] |] eqn:Hl; [| |done];
      destruct (parse_lines ls) as [r |]; try done; injection H as <-.
    + constructor; [by eapply parse_line_value | by apply IH].
    + by apply IH.
Qed.

Lemma file_pairs_values fs path l :
  file_pairs fs path = Ok l ->
  Forall (fun kv => str_int kv.2 = Some (repr_int kv.2)) l.
Proof.
  unfold file_pairs. destruct (read_file path fs) as [fs' [content | e]]; [| done].
  destruct (parse_lines (lines content)) as [l' |] eqn:Hl; [| done].
  intros [= <-]. by eapply parse_lines_values.
Qed.

Lemma reducer_output_values fs i l :
  reducer_output fs i = Ok l ->
  Forall (fun kv => str_int kv.2 = Some (repr_int kv.2)) l.
Proof.
  unfold reducer_output. destruct (str_int i) as [name |]; [| done].
  destruct (file_pairs fs (output_filename name)) as [l' | e] eqn:Hf.
  - intros [= <-]. by eapply file_pairs_values.
  - destruct e; try done. intros [= <-]. constructor.
Qed.

Lemma collect_Forall {A B} (f : A -> result (list B)) (P : B -> Prop) xs :
  (forall x l, f x = Ok l -> Forall P l) ->
  forall l, collect f xs = Ok l -> Forall P l.
Proof.
  intros Hf. induction xs as [| x xs IH]; intros l H; simpl in H.
  - injection H as <-. constructor.
  - destruct (f x) as [lx |] eqn:Hx; [| done].
    destruct (collect f xs) as [r |]; [| done]. injection H as <-.
    apply Forall_app. split; [by eapply Hf | by apply IH].
Qed.

Lemma collect_map {A B} (f : A -> result (list B)) (g : A -> list B) xs :
  (forall x, In x xs -> f x = Ok (g x)) ->
  collect f xs = Ok (concat (map g xs)).
Proof.
  induction xs as [| x xs IH]; intros H; [done |].
  simpl. rewrite H by (by left). rewrite IH; [done |].
  intros y Hy. apply H. by right.
Qed.

Lemma render_int_items_total l :
  Forall (fun kv => str_int kv.2 = Some (repr_int kv.2)) l ->
  exists t, render (int_items l) = Some t.
Proof.
  induction 1 as [| [k n] l Hn _ [t IH]]; [by eexists |].
  simpl in *. rewrite Hn, IH. by eexists.
Qed.

(** When every reducer's file could be read, the merge sorts what it read,
    writes it and returns it. *)
Lemma merge_results_ok m fs l :
  collect (reducer_output fs) (range (num_reduce_tasks m)) = Ok l ->
  final_results_file ∉ denied fs ->
  exists t, render (int_items (sort_desc l)) = Some t
            /\ merge_results m fs = (put final_results_file t fs, Ok (sort_desc l)).
Proof.
  intros Hl Hw.
  assert (Forall (fun kv => str_int kv.2 = Some (repr_int kv.2)) (sort_desc l)) as Hv.
  { eapply Permutation_Forall; [symmetry; apply sort_desc_perm |].
    eapply collect_Forall; [| exact Hl]. apply reducer_output_values. }
  destruct (render_int_items_total _ Hv) as [t Ht]. exists t. split; [done |].
  rewrite merge_results_spec, Hl. unfold bind.
  rewrite open_w_ok by done.
  rewrite (write_records_render _ _ t []) by (done || apply files_put).
  by rewrite put_put.
Qed.

Lemma str_int_small i :
  0 <= i < 10 ^ Z.of_nat max_str_digits -> str_int i = Some (repr_int i).
Proof.
  intros Hi. apply str_int_abs. rewrite Z.abs_eq by lia.
  apply digits_length; [done |]. unfold max_str_digits. lia.
Qed.

Lemma reducer_output_present fs i :
  str_int i = Some (repr_int i) ->
  output_filename (repr_int i) ∉ denied fs ->
  match files fs !! output_filename (repr_int i) with
  | Some content => is_Some (parse_records content)
  | None => True
  end ->
  reducer_output fs i = Ok (present_pairs fs i).
Proof.
  intros Hi Hd Hf. unfold reducer_output, present_pairs, file_pairs. rewrite Hi.
  destruct (files fs !! output_filename (repr_int i)) as [content |] eqn:Hc.
  - rewrite (read_file_ok _ _ _ Hd Hc). destruct Hf as [l Hl].
    unfold parse_records in *. by rewrite Hl.
  - by rewrite (read_file_missing _ _ Hd Hc).
Qed.
End Merge.

(** C4, as the code has it: missing reducer files are skipped and contribute
    nothing; when every file that exists is readable and has only blank or
    well-formed lines, the merge completes with the sorted concatenation of
    the files that exist.  (Only [FileNotFoundError] is caught.) *)
Theorem merge_tolerates_missing_files (m : Master) (fs : filesystem) :
  num_reduce_tasks m <= 10 ^ Z.of_nat Py.max_str_digits ->
  final_results_file ∉ denied fs ->
  (forall i, 0 <= i < num_reduce_tasks m ->
     (output_filename (Py.repr_int i) ∉ denied fs)
     /\ match files fs !! output_filename (Py.repr_int i) with
        | Some content => is_Some (parse_records content)
        | None => True
        end) ->
  let final :=
    sort_desc (concat (map (present_pairs fs) (Py.range (num_reduce_tasks m)))) in
  exists t, render (int_items final) = Some t
            /\ merge_results m fs = (put final_results_file t fs, Ok final).
Proof.
  intros HR Hw Hfiles final. apply merge_results_ok; [| done].
  apply collect_map. intros i Hi. apply in_range in Hi.
  destruct (Hfiles i Hi) as [Hd Hf].
  apply reducer_output_present; [apply str_int_small; lia | done | done].
Qed.

Lemma merge_tolerates_missing_files_witness :
  let fs := Demo.disk_one_output in
  let final := sort_desc (concat (map (present_pairs fs) (Py.range 4))) in
  final = [(Py.txt "the", 2)]
  /\ exists t, render (int_items final) = Some t
               /\ merge_results (init 4) fs = (put final_results_file t fs, Ok final).
Proof.
  split; [vm_compute; reflexivity |].
  apply (merge_tolerates_missing_files (init 4) Demo.disk_one_output).
  - vm_compute. discriminate.
  - apply not_elem_of_empty.
  - intros i Hi. split; [apply not_elem_of_empty |].
    simpl in Hi.
    assert (i = 0 \/ i = 1 \/ i = 2 \/ i = 3) as [-> | [-> | [-> | ->]]] by lia;
      vm_compute; first [exact I | eexists; reflexivity].
Defined.

(** C4, as stated, fails: with a reducer file that has a line without a TAB
    the merge raises [ValueError], nothing is written, and the handler that
    ran the merge answers with an error. *)
Lemma malformed_output_aborts_merge :
  merge_results (init 2) Demo.disk_malformed = (Demo.disk_malformed, Raise ValueError)
  /\ (reduce_complete
        {| workers := []; map_tasks := []; intermediate_files := ∅;
           num_reduce_tasks := 2; completed_maps := 0; completed_reduces := 1 |}
        (Py.txt "reduce-1") (output_filename (Py.txt "1")) Demo.disk_malformed).1.2
     = InternalError ValueError.
Proof. split; vm_compute; reflexivity. Qed.

(** ** Writing a partition file and reading it back *)

Section RoundTrip.
Import Py.

Lemma parse_line_key_no_tab line k n :
  parse_line line = Some (Some (k, n)) ->
  Forall (fun c => Ascii.eqb c TAB = false) k.
Proof.
  unfold parse_line. destruct (strip line) as [| c s]; [done |].
  pose proof (split_parts_no_sep TAB (c :: s)) as Hparts.
  destruct (split TAB (c :: s)) as [| key [| v [| ? ?]]]; try done.
  destruct (int v); [| done]. intros [= <- _]. by inversion Hparts.
Qed.

Lemma write_records_succeeds path items fs fs' :
  (write_records path items fs) = (fs', Ok tt) -> is_Some (render items).
Proof.
  intros H. destruct (render items) eqn:Hr; [done |].
  pose proof (write_records_fails path items fs Hr) as Hf.
  rewrite H in Hf. done.
Qed.

Lemma write_partition path items fs fs' :
  (open_w path ;;; write_records path items) fs = (fs', Ok tt) ->
  exists t, render items = Some t /\ (path ∉ denied fs) /\ fs' = put path t fs.
Proof.
  unfold bind. destruct (decide (path ∈ denied fs)) as [Hd | Hd].
  - by rewrite open_w_denied.
  - rewrite open_w_ok by done. intros H.
    destruct (write_records_succeeds _ _ _ _ H) as [t Ht]. exists t.
    rewrite (write_records_render _ _ t []) in H by (done || apply files_put).
    rewrite put_put in H. by injection H as <-.
Qed.
End RoundTrip.

(** C8, as the code has it: when the keys are not empty, do not start with
    white space and contain no TAB, line feed or carriage return, and the
    values are integers that could be written, the file holds a text that
    parses to exactly the written pairs, and the reduce executor's loops over
    the file add exactly these pairs to its grouping; a key that contains a
    TAB is never what the parse of its line returns. *)
Theorem record_round_trip (path : Py.text) (fs fs' : filesystem)
  (items : list (Py.text * Z)) (grouped_data : list (Py.text * list Z))
  (key v : Py.text) (n : Z) :
  Forall (fun kv => key_ok kv.1 = true) items ->
  (open_w path ;;; write_records path (int_items items)) fs = (fs', Ok tt) ->
  (exists t, files fs' !! path = Some t /\ parse_records t = Some items)
  /\ group_file grouped_data path fs' = (fs', Ok (group items grouped_data))
  /\ (In Py.TAB key ->
      parse_line (key ++ [Py.TAB] ++ v ++ [Py.LF]) <> Some (Some (key, n))).
Proof.
  intros Hk Hw. apply write_partition in Hw as (t & Ht & Hd & ->).
  pose proof (parse_records_render items t Hk Ht) as Hp.
  split; [| split].
  - exists t. split; [apply files_put | done].
  - unfold group_file, bind. rewrite (read_file_ok path t) by (done || apply files_put).
    rewrite group_lines. unfold parse_records in Hp. by rewrite Hp.
  - intros Hin Hparse. apply parse_line_key_no_tab in Hparse.
    rewrite List.Forall_forall in Hparse. specialize (Hparse _ Hin).
    by rewrite Ascii.eqb_refl in Hparse.
Qed.

Lemma record_round_trip_witness :
  let path := partition_filename (Py.txt "0") (Py.txt "1") in
  let items := [(Py.txt "the", 1); (Py.txt "cat", 1); (Py.txt "the", 1)] in
  let fs := {| files := ∅; denied := ∅ |} in
  let fs' := put path (Py.txt "the" ++ [Py.TAB] ++ Py.txt "1" ++ [Py.LF]
                       ++ Py.txt "cat" ++ [Py.TAB] ++ Py.txt "1" ++ [Py.LF]
                       ++ Py.txt "the" ++ [Py.TAB] ++ Py.txt "1" ++ [Py.LF]) fs in
  (exists t, files fs' !! path = Some t /\ parse_records t = Some items)
  /\ group_file [] path fs' = (fs', Ok (group items []))
  /\ (In Py.TAB (Py.txt "a" ++ [Py.TAB] ++ Py.txt "b") ->
      parse_line ((Py.txt "a" ++ [Py.TAB] ++ Py.txt "b") ++ [Py.TAB] ++ Py.txt "1" ++ [Py.LF])
      <> Some (Some (Py.txt "a" ++ [Py.TAB] ++ Py.txt "b", 1))).
Proof.
  intros path items fs fs'.
  apply (record_round_trip path fs fs' items []).
  - repeat constructor.
  - vm_compute. reflexivity.
Defined.

(** C8, as stated, fails: a key without TAB or newline but with a leading
    space comes back without the space, and an empty key makes the parse of
    its line raise. *)
Lemma leading_space_key_not_recovered :
  let path := partition_filename (Py.txt "0") (Py.txt "1") in
  let fs := {| files := ∅; denied := ∅ |} in
  let read := (content <- read_file path ;;
               for_fold (Py.lines content) merge_line []) in
  let written items := (open_w path ;;; write_records path (int_items items)) fs in
  forallb (fun c => negb (Ascii.eqb c Py.TAB || Ascii.eqb c Py.LF)) (Py.txt " a") = true
  /\ (written [(Py.txt " a", 1)]).2 = Ok tt
  /\ (read (written [(Py.txt " a", 1)]).1).2 = Ok [(Py.txt "a", 1)]
  /\ (written [([], 1)]).2 = Ok tt
  /\ (read (written [([], 1)]).1).2 = Raise ValueError.
Proof. vm_compute. repeat split; reflexivity. Qed.

(** ** Errors in the map step *)

Section MapErrors.
Import Py.

Lemma map_partition_loop p data mapped : forall parts fs,
  for_fold mapped (route p data) parts fs
  = (fs, match partitions_from (hash_secret p) (num_reducers data) mapped parts with
         | Some ps => Ok ps
         | None => Raise ZeroDivisionError
         end).
Proof.
  induction mapped as [| [key v] mapped IH]; intros parts fs; [done |].
  cbn [for_fold partitions_from]. unfold bind at 1. unfold route at 1.
  unfold bind at 1. cbn [fst].
  destruct (partition _ key _) as [r |]; simpl; [| done]. apply IH.
Qed.

Lemma write_denied path s fs : denied (write path s fs).1 = denied fs.
Proof. done. Qed.

Lemma write_records_denied path items : forall fs,
  denied (write_records path items fs).1 = denied fs.
Proof.
  induction items as [| [k v] items IH]; intros fs; [done |].
  unfold write_records in *. cbn [for_each]. unfold bind at 1.
  unfold write_record at 1. unfold bind at 1. cbn [fst snd].
  destruct (format_value v fs) as [fs1 [s |]] eqn:Hv.
  - assert (fs1 = fs) as -> by (destruct v; simpl in Hv; unfold of_option in Hv;
      try destruct (str_int n); by inversion Hv).
    simpl. by rewrite IH.
  - assert (fs1 = fs) as -> by (destruct v; simpl in Hv; unfold of_option in Hv;
      try destruct (str_int n); by inversion Hv).
    done.
Qed.

(** The loop that writes the partition files raises when one of the files
    cannot be opened. *)
Lemma map_write_loop_raises data tn parts : forall names fs rid items rs,
  str_int (task_num data) = Some tn ->
  In (rid, items) parts -> str_int rid = Some rs ->
  partition_filename tn rs ∈ denied fs ->
  exists fs' e,
    for_fold parts (write_partition_file data) names fs = (fs', Raise e).
Proof.
  intros names fs rid items rs Htn. revert names fs.
  induction parts as [| [r0 items0] parts IH]; intros names fs Hin Hrs Hden; [done |].
  cbn [for_fold]. unfold bind at 1. unfold write_partition_file at 1.
  cbn [fst snd]. unfold bind at 1. rewrite (format_int_ok _ _ _ Htn).
  unfold bind at 1. unfold format_int at 1, of_option.
  destruct (str_int r0) as [rs0 |] eqn:Hr0; [| by eexists _, _].
  simpl. unfold bind at 1.
  destruct (decide (partition_filename tn rs0 ∈ denied fs)) as [Hd0 | Hd0].
  { rewrite open_w_denied by done. by eexists _, _. }
  rewrite open_w_ok by done. unfold bind at 1.
  pose proof (write_records_denied (partition_filename tn rs0) items0
                (put (partition_filename tn rs0) [] fs)) as Hwd.
  destruct (write_records _ items0 _) as [fs1 [[] | e]]; [| by eexists _, _].
  simpl in Hwd. simpl.
  destruct Hin as [Heq | Hin].
  - injection Heq as -> ->. congruence.
  - apply IH; [done | done | by rewrite Hwd].
Qed.

Lemma execute_map_read_error p up data fs :
  map_read_error data fs ->
  exists fs' e, execute_map p up data fs = (fs', Failed e, []).
Proof.
  intros [e He]. unfold execute_map, map_body. unfold bind at 1.
  destruct (read_file (input_file data) fs) as [fs1 [text |]]; [done |].
  by eexists _, _.
Qed.

Lemma execute_map_write_error p up data fs :
  map_write_error p data fs ->
  exists fs' e, execute_map p up data fs = (fs', Failed e, []).
Proof.
  intros (text & parts & rid & items & tn & rs & Hread & Hparts & Hin & Htn
          & Hrs & Hden).
  unfold execute_map, map_body. unfold bind at 1. rewrite Hread.
  unfold bind at 1. rewrite map_partition_loop, Hparts.
  unfold bind at 1.
  destruct (map_write_loop_raises data tn parts [] fs rid items rs)
    as (fs' & e & ->); try done.
  by eexists _, _.
Qed.
End MapErrors.

(** C6: when the input of a map task cannot be read, or one of its partition
    files cannot be opened for writing, the worker answers with the failed
    status and posts no completion report; the master, which only logs the
    answer, is left as it was: the task stays incomplete and is not
    dispatched again. *)
Theorem map_errors_are_reported (p : process) (up : bool) (data : map_request)
  (fs : filesystem) :
  map_read_error data fs \/ map_write_error p data fs ->
  (exists fs' e, execute_map p up data fs = (fs', Failed e, []))
  /\ (forall (cl : cluster) (w : world) (worker : worker_info),
        cl !! address worker = Some p -> disk w = fs ->
        num_reduce_tasks (master w) = num_reducers data ->
        master (assign_map_task cl w worker (map_task_id data) (input_file data)
                  (task_num data)) = master w).
Proof.
  intros Herr.
  assert (forall up, exists fs' e, execute_map p up data fs = (fs', Failed e, [])) as H.
  { intros up'. destruct Herr;
      [by apply execute_map_read_error | by apply execute_map_write_error]. }
  split; [apply H |].
  intros cl w worker Hp Hfs HR. unfold assign_map_task. rewrite Hp, HR, Hfs.
  destruct (H true) as (fs' & e & He). destruct data. simpl in *. by rewrite He.
Qed.

Lemma map_errors_are_reported_witness :
  (exists fs' e, execute_map (Demo.proc (fun _ => 0) 0) true Demo.map_request0
                   {| files := ∅; denied := ∅ |} = (fs', Failed e, []))
  /\ (exists fs' e, execute_map (Demo.proc (fun _ => 0) 0) true Demo.map_request0
                      Demo.disk_no_intermediate = (fs', Failed e, [])).
Proof.
  split.
  - apply (map_errors_are_reported (Demo.proc (fun _ => 0) 0) true Demo.map_request0
             {| files := ∅; denied := ∅ |}).
    left. exists (FileNotFoundError (Demo.chunk 0)). vm_compute. reflexivity.
  - apply (map_errors_are_reported (Demo.proc (fun _ => 0) 0) true Demo.map_request0
             Demo.disk_no_intermediate).
    right.
    exists (Py.txt "the cat sat"),
      [(1, [(Py.txt "the", VInt 1)]); (3, [(Py.txt "cat", VInt 1)]);
       (2, [(Py.txt "sat", VInt 1)])],
      1, [(Py.txt "the", VInt 1)], (Py.txt "0"), (Py.txt "1").
    repeat split; try (vm_compute; reflexivity). by left.
Defined.

(** ** Keys that come out of the parser *)

Section ParsedKeys.
Import Py.

Lemma lstrip_with_suffix sp s : exists pre, s = pre ++ lstrip_with sp s.
Proof.
  induction s as [| c s [pre IH]]; [by exists [] |]. simpl.
  destruct (sp c); [| by exists []]. exists (c :: pre). simpl. by f_equal.
Qed.

Lemma lstrip_with_nonspace sp s c r : lstrip_with sp s = c :: r -> sp c = false.
Proof.
  induction s as [| d s IH]; simpl; [done |].
  destruct (sp d) eqn:Hd; [done |]. by intros [= <- _].
Qed.

Lemma strip_with_Forall sp (P : ascii -> Prop) s :
  Forall P s -> Forall P (strip_with sp s).
Proof.
  intros H. unfold strip_with.
  assert (forall t, Forall P t -> Forall P (lstrip_with sp t)) as Hl.
  { intros t Ht. destruct (lstrip_with_suffix sp t) as [pre Hpre].
    rewrite Hpre in Ht. by apply Forall_app in Ht as [_ ?]. }
  apply Forall_rev, Hl, Forall_rev, Hl, H.
Qed.

Lemma strip_with_head sp s c r : strip_with sp s = c :: r -> sp c = false.
Proof.
  unfold strip_with. intros H.
  destruct (lstrip_with_suffix sp (rev (lstrip_with sp s))) as [pre Hpre].
  apply (f_equal (@rev ascii)) in Hpre.
  rewrite rev_involutive, rev_app_distr, H in Hpre.
  simpl in Hpre. by eapply lstrip_with_nonspace.
Qed.

Lemma lstrip_with_app sp s ws :
  Forall (fun c => sp c = true) ws ->
  lstrip_with sp (s ++ ws)
  = match lstrip_with sp s with [] => [] | t => t ++ ws end.
Proof.
  intros Hws. induction s as [| c s IH]; simpl.
  - rewrite <- (app_nil_r ws). rewrite lstrip_with_spaces by done. done.
  - destruct (sp c); [done |]. done.
Qed.

(** White space at the end of a text does not change what it strips to. *)
Lemma strip_with_trailing sp s ws :
  Forall (fun c => sp c = true) ws -> strip_with sp (s ++ ws) = strip_with sp s.
Proof.
  intros Hws. unfold strip_with. rewrite lstrip_with_app by done.
  destruct (lstrip_with sp s) as [| c t]; [done |].
  rewrite rev_app_distr. by rewrite lstrip_with_spaces by (by apply Forall_rev).
Qed.

Lemma split_Forall sep (P : ascii -> Prop) s :
  Forall P s -> Forall (Forall P) (split sep s).
Proof.
  induction 1 as [| c s Hc _ IH]; simpl; [repeat constructor |].
  destruct (Ascii.eqb c sep); [by repeat constructor |].
  destruct (split sep s) as [| w ws]; [by repeat constructor |].
  inversion IH; subst. by repeat constructor.
Qed.

Lemma split_head sep c s :
  Ascii.eqb c sep = false ->
  exists w ws, split sep (c :: s) = (c :: w) :: ws.
Proof. intros H. simpl. rewrite H. destruct (split sep s); by eexists _, _. Qed.

Lemma universal_newlines_no_cr s :
  Forall (fun c => Ascii.eqb c CR = false) (universal_newlines s).
Proof.
  remember (length s) as n eqn:Hn. revert s Hn.
  induction n as [n IH] using lt_wf_ind. intros s ->.
  destruct s as [| c s]; [constructor |]. simpl.
  destruct (Ascii.eqb c CR) eqn:Hc.
  - constructor; [done |].
    destruct s as [| d s]; [constructor |].
    destruct (Ascii.eqb d LF).
    + apply (IH (length s)); [simpl; lia | done].
    + apply (IH (length (d :: s))); [simpl; lia | done].
  - constructor; [done |]. apply (IH (length s)); [simpl; lia | done].
Qed.

(** A line is a run without line feed, followed by at most one line feed. *)
Lemma lines_shape (P : ascii -> Prop) s :
  Forall P s ->
  Forall (fun l => exists body,
              Forall (fun c => P c /\ Ascii.eqb c LF = false) body
              /\ (l = body ++ [LF] \/ l = body)) (lines s).
Proof.
  induction 1 as [| c s Hc _ IH]; simpl; [constructor |].
  destruct (Ascii.eqb c LF) eqn:Hlf.
  - constructor; [| done]. exists []. split; [constructor | by left].
  - destruct (lines s) as [| l ls].
    + repeat constructor. exists [c]. split; [by repeat constructor | by right].
    + inversion IH as [| ? ? (body & Hb & Hl) Hls]; subst.
      constructor; [| done]. exists (c :: body).
      split; [by constructor |]. destruct Hl as [-> | ->]; [by left | by right].
Qed.

Lemma isspace_TAB_LF : isspace TAB = true /\ isspace LF = true.
Proof. split; reflexivity. Qed.

(** The key of a line read from a file is a key that survives the record
    format. *)
Lemma parse_line_key_ok body line k n :
  Forall (fun c => Ascii.eqb c CR = false /\ Ascii.eqb c LF = false) body ->
  line = body ++ [LF] \/ line = body ->
  parse_line line = Some (Some (k, n)) -> key_ok k = true.
Proof.
  intros Hbody Hline. unfold parse_line, strip.
  assert (strip_with isspace line = strip_with isspace body) as ->.
  { destruct Hline as [-> | ->]; [| done].
    apply strip_with_trailing. by repeat constructor. }
  pose proof (strip_with_Forall isspace _ _ Hbody) as Hs.
  destruct (strip_with isspace body) as [| c s] eqn:Hstrip; [done |].
  pose proof (strip_with_head _ _ _ _ Hstrip) as Hc.
  assert (Ascii.eqb c TAB = false) as Hct.
  { destruct (Ascii.eqb_spec c TAB) as [-> |]; [| done].
    by rewrite (proj1 isspace_TAB_LF) in Hc. }
  pose proof (split_Forall TAB _ _ Hs) as Hparts.
  pose proof (split_parts_no_sep TAB (c :: s)) as Hnotab.
  destruct (split_head TAB c s Hct) as (w & ws & Hsplit).
  rewrite Hsplit in *. destruct ws as [| v [| ? ?]]; try done.
  destruct (int v); [| done]. intros [= <- _].
  unfold key_ok. rewrite Hc. simpl negb. rewrite andb_true_l.
  apply forallb_forall. intros x Hx.
  inversion Hparts as [| ? ? Hk _]; subst. inversion Hnotab as [| ? ? Hk' _]; subst.
  rewrite List.Forall_forall in Hk, Hk'.
  destruct (Hk x Hx) as [-> ->]. by rewrite (Hk' x Hx).
Qed.

Lemma parse_lines_keys_ok ls : forall l,
  Forall (fun line => exists body,
             Forall (fun c => Ascii.eqb c CR = false /\ Ascii.eqb c LF = false) body
             /\ (line = body ++ [LF] \/ line = body)) ls ->
  parse_lines ls = Some l -> Forall (fun kv => key_ok kv.1 = true) l.
Proof.
  induction ls as [| line ls IH]; intros l Hls H.
  - injection H as <-. constructor.
  - inversion Hls as [| ? ? (body & Hb & Hl) Hls']; subst.
    rewrite parse_lines_cons in H.
    destruct (parse_line line) as [[[k n] |] |] eqn:Hline; [| |done];
      destruct (parse_lines ls) as [r |]; try done; injection H as <-.
    + constructor; [by eapply parse_line_key_ok | by apply IH].
    + by apply IH.
Qed.

Lemma file_pairs_keys_ok fs path l :
  file_pairs fs path = Ok l -> Forall (fun kv => key_ok kv.1 = true) l.
Proof.
  unfold file_pairs, read_file. destruct (decide _); [done |].
  destruct (files fs !! path) as [content |]; [| done].
  destruct (parse_lines _) as [l' |] eqn:Hl; [| done]. intros [= <-].
  eapply parse_lines_keys_ok; [| exact Hl].
  apply lines_shape, universal_newlines_no_cr.
Qed.
End ParsedKeys.

(** ** The grouping dictionary *)

Section Grouping.
Context {K V : Type} `{EqDecision K}.
Implicit Types (d : list (K * list V)).

Lemma dict_append_keys k v d :
  dict_keys (dict_append k v d)
  = if decide (k ∈ dict_keys d) then dict_keys d else dict_keys d ++ [k].
Proof.
  induction d as [| [k' vs] d IH].
  - done.
  - cbn [dict_append]. destruct (decide (k = k')) as [-> | Hne].
    + cbn [dict_keys map fst].
      destruct (decide (k' ∈ k' :: map fst d)) as [_ | Hin]; [done |].
      exfalso. apply Hin. apply elem_of_cons. by left.
    + change (dict_keys ((k', vs) :: dict_append k v d))
        with (k' :: dict_keys (dict_append k v d)).
      change (dict_keys ((k', vs) :: d)) with (k' :: dict_keys d).
      rewrite IH.
      destruct (decide (k ∈ dict_keys d)) as [Hin | Hin];
        destruct (decide (k ∈ k' :: dict_keys d)) as [Hin' | Hin']; try done.
      * exfalso. apply Hin', elem_of_cons. by right.
      * exfalso. apply elem_of_cons in Hin' as [? | ?]; done.
Qed.

Lemma dict_append_NoDup k v d :
  NoDup (dict_keys d) -> NoDup (dict_keys (dict_append k v d)).
Proof.
  intros Hd. rewrite dict_append_keys. destruct (decide _) as [? | Hin]; [done |].
  apply NoDup_app. split; [done |]. split; [| apply NoDup_singleton].
  intros x Hx Hx'. apply list_elem_of_singleton in Hx' as ->. done.
Qed.

Lemma dict_append_Forall (P : K -> Prop) k v d :
  P k -> Forall P (dict_keys d) -> Forall P (dict_keys (dict_append k v d)).
Proof.
  intros Hk Hd. rewrite dict_append_keys. destruct (decide _); [done |].
  apply Forall_app. split; [done | by constructor].
Qed.
End Grouping.

Section GroupKeys.
Lemma group_NoDup pairs : forall g,
  NoDup (dict_keys g) -> NoDup (dict_keys (group pairs g)).
Proof.
  induction pairs as [| [k n] pairs IH]; intros g Hg; [done |].
  simpl. apply IH. by apply dict_append_NoDup.
Qed.

Lemma group_Forall (P : Py.text -> Prop) pairs : forall g,
  Forall (fun kv => P kv.1) pairs -> Forall P (dict_keys g) ->
  Forall P (dict_keys (group pairs g)).
Proof.
  induction pairs as [| [k n] pairs IH]; intros g Hp Hg; [done |].
  inversion Hp; subst. simpl. apply IH; [done |]. by apply dict_append_Forall.
Qed.

Lemma remove_dups_NoDup {A} `{EqDecision A} (l : list A) :
  NoDup l -> remove_dups l = l.
Proof.
  induction 1 as [| x l Hx _ IH]; simpl; [done |].
  destruct (decide_rel elem_of x l); [done | by rewrite IH].
Qed.
End GroupKeys.

(** ** The reduce step when it completes *)

Section ReduceCompleted.
Import Py.

Lemma str_int_repr n s : str_int n = Some s -> s = repr_int n.
Proof. unfold str_int. destruct (_ <=? _)%nat; congruence. Qed.

Lemma collect_Forall_keys fs paths l :
  collect (file_pairs fs) paths = Ok l -> Forall (fun kv => key_ok kv.1 = true) l.
Proof. apply collect_Forall. apply file_pairs_keys_ok. Qed.

(** What a completed reduce task has done. *)
Lemma execute_reduce_completed p up data fs0 fs1 sent :
  execute_reduce p up data fs0 = (fs1, Completed, sent) ->
  exists l t,
    collect (file_pairs fs0) (input_files data) = Ok l
    /\ str_int (reducer_id data) = Some (repr_int (reducer_id data))
    /\ render (map (fun kvs => reduce_func (self p) kvs.1 kvs.2) (group l []))
       = Some t
    /\ fs1 = put (output_filename (repr_int (reducer_id data))) t fs0
    /\ up = true
    /\ sent = [ReduceComplete (reduce_task_id data)
                 (output_filename (repr_int (reducer_id data)))].
Proof.
  unfold execute_reduce, reduce_body. unfold bind at 1. rewrite reduce_read_loop.
  destruct (collect (file_pairs fs0) (input_files data)) as [l | e]; [| done].
  unfold bind at 1, format_int at 1, of_option.
  destruct (str_int (reducer_id data)) as [rid |] eqn:Hrid; [| done].
  pose proof (str_int_repr _ _ Hrid) as ->. simpl.
  unfold bind at 1.
  destruct (decide (output_filename (repr_int (reducer_id data)) ∈ denied fs0)).
  { by rewrite open_w_denied. }
  rewrite open_w_ok by done. unfold bind at 1.
  destruct (render (map (fun kvs => reduce_func (self p) kvs.1 kvs.2) (group l [])))
    as [t |] eqn:Ht.
  - rewrite (write_records_render _ _ t []) by (done || apply files_put).
    rewrite put_put. unfold post. destruct up; [| done]. simpl.
    intros [= <- <-]. by exists l, t.
  - pose proof (write_records_fails
                  (output_filename (repr_int (reducer_id data))) _
                  (put (output_filename (repr_int (reducer_id data))) [] fs0) Ht) as Hf.
    destruct (write_records _ _ _) as [fs' [[] | e]]; done.
Qed.

(** The converse: a reduce task whose inputs parse and whose output can be
    written completes. *)
Lemma execute_reduce_ok p data fs l t :
  collect (file_pairs fs) (input_files data) = Ok l ->
  str_int (reducer_id data) = Some (repr_int (reducer_id data)) ->
  output_filename (repr_int (reducer_id data)) ∉ denied fs ->
  render (map (fun kvs => reduce_func (self p) kvs.1 kvs.2) (group l [])) = Some t ->
  execute_reduce p true data fs
  = (put (output_filename (repr_int (reducer_id data))) t fs, Completed,
     [ReduceComplete (reduce_task_id data)
        (output_filename (repr_int (reducer_id data)))]).
Proof.
  intros Hl Hrid Hd Ht.
  unfold execute_reduce, reduce_body. unfold bind at 1. rewrite reduce_read_loop, Hl.
  unfold bind at 1. rewrite (format_int_ok _ _ _ Hrid).
  unfold bind at 1. rewrite open_w_ok by done. unfold bind at 1.
  rewrite (write_records_render _ _ t []) by (done || apply files_put).
  by rewrite put_put.
Qed.

(** The output of a completed word-count reduce task parses back to one
    pair per key, the keys being distinct. *)
Lemma reduce_output_parses fs i :
  written_by_reduce_task fs i ->
  exists content items,
    files fs !! output_filename (repr_int i) = Some content
    /\ parse_records content = Some items
    /\ NoDup (map fst items)
    /\ str_int i = Some (repr_int i).
Proof.
  intros (p & up & data & fs0 & fs1 & sent & <- & Hrf & Hex & Hfile & Hd).
  apply execute_reduce_completed in Hex as (l & t & Hl & Hrid & Ht & -> & _ & _).
  rewrite files_put in Hfile. rewrite Hrf in Ht.
  set (items := map (fun kvs : text * list Z => (kvs.1, WordCount.sum kvs.2))
                    (group l [])).
  assert (map (fun kvs : text * list Z => WordCount.reduce_func kvs.1 kvs.2)
              (group l []) = int_items items) as Hitems.
  { unfold items, int_items. rewrite map_map. done. }
  rewrite Hitems in Ht.
  assert (map fst items = dict_keys (group l [])) as Hkeys.
  { unfold items, dict_keys. rewrite map_map. done. }
  exists t, items. split; [done |]. split; [| split; [| done]].
  - apply parse_records_render; [| done].
    assert (Forall (fun k => key_ok k = true) (map fst items)) as Hk.
    { rewrite Hkeys. apply group_Forall; [| constructor].
      by eapply collect_Forall_keys. }
    by apply Forall_map in Hk.
  - rewrite Hkeys. apply group_NoDup. constructor.
Qed.
End ReduceCompleted.

(** ** The merged result of a completed job *)

(** X22: when every reducer's output file is as a completed reduce task
    wrote it, the merge returns a list sorted non-increasing by count whose
    number of entries, the number printed as "Total unique words", is the sum
    over the reducer files of their numbers of distinct keys; it is the
    number of unique keys of the result when no key is in two of the files. *)
Theorem merged_result_sorted_and_counted (m : Master) (fs : filesystem) :
  num_reduce_tasks m <= 10 ^ Z.of_nat Py.max_str_digits ->
  final_results_file ∉ denied fs ->
  (forall i, 0 <= i < num_reduce_tasks m -> written_by_reduce_task fs i) ->
  exists final fs',
    merge_results m fs = (fs', Ok final)
    /\ sorted_desc final
    /\ length final
       = list_sum (map (distinct_keys fs) (Py.range (num_reduce_tasks m)))
    /\ (NoDup (map fst (concat (map (present_pairs fs)
                                    (Py.range (num_reduce_tasks m))))) ->
        length (remove_dups (map fst final)) = length final).
Proof.
  intros HR Hw Hfiles.
  assert (forall i, In i (Py.range (num_reduce_tasks m)) ->
            reducer_output fs i = Ok (present_pairs fs i)
            /\ length (present_pairs fs i) = distinct_keys fs i) as Hi.
  { intros i Hi. apply in_range in Hi.
    pose proof (Hfiles i Hi) as Hwritten.
    destruct (reduce_output_parses fs i Hwritten) as (content & items & Hc & Hp & Hnd & Hs).
    destruct Hwritten as (_ & _ & _ & _ & _ & _ & _ & _ & _ & _ & Hd).
    split.
    - apply reducer_output_present; [done | done |]. rewrite Hc. by eexists.
    - unfold distinct_keys, present_pairs. rewrite Hc, Hp. simpl.
      rewrite remove_dups_NoDup by done. by rewrite length_map. }
  destruct (merge_results_ok m fs
              (concat (map (present_pairs fs) (Py.range (num_reduce_tasks m)))))
    as (t & _ & Hmerge); [| done |].
  { apply collect_map. intros i Hin. by apply Hi. }
  eexists _, _. split; [exact Hmerge |]. split; [apply sort_desc_sorted |].
  split.
  - rewrite sort_desc_length, length_concat, map_map. f_equal.
    apply map_ext_in. intros i Hin. by apply Hi.
  - intros Hnd. rewrite remove_dups_NoDup; [by rewrite length_map |].
    by rewrite sort_desc_perm.
Qed.

Lemma merged_result_sorted_and_counted_witness :
  let fs := disk (Demo.run (fun _ => 0)) in
  exists final fs',
    merge_results (init 4) fs = (fs', Ok final)
    /\ sorted_desc final
    /\ length final = list_sum (map (distinct_keys fs) (Py.range 4))
    /\ length (remove_dups (map fst final)) = length final.
Proof.
  intros fs.
  destruct (merged_result_sorted_and_counted (init 4) fs)
    as (final & fs' & Hm & Hs & Hl & Hu).
  - vm_compute. discriminate.
  - vm_compute. set_solver.
  - intros i Hi. simpl in Hi.
    exists (Demo.proc (fun _ => 0) 0), true,
      (Demo.reduce_request_of (Demo.run (fun _ => 0)) i), fs,
      (execute_reduce (Demo.proc (fun _ => 0) 0) true
         (Demo.reduce_request_of (Demo.run (fun _ => 0)) i) fs).1.1,
      (execute_reduce (Demo.proc (fun _ => 0) 0) true
         (Demo.reduce_request_of (Demo.run (fun _ => 0)) i) fs).2.
    assert (i = 0 \/ i = 1 \/ i = 2 \/ i = 3) as [-> | [-> | [-> | ->]]] by lia;
      (repeat split; [vm_compute; reflexivity .. | vm_compute; set_solver]).
  - exists final, fs'. split; [done |]. split; [done |]. split; [done |].
    apply Hu.
    assert (map fst (concat (map (present_pairs fs)
                                 (Py.range (num_reduce_tasks (init 4)))))
            = [Py.txt "the"; Py.txt "sat"; Py.txt "dog"; Py.txt "cat"]) as ->
      by (vm_compute; reflexivity).
    apply NoDup_ListNoDup. repeat constructor; simpl; intuition discriminate.
Defined.

(** C5: the job of two inputs on workers with the hash secrets of
    PYTHONHASHSEED=1, 4 and 7 completes and its merged result is sorted, but
    the key "the" is in two reducer files: the result has 5 entries, as many
    as the distinct keys summed across the reducer files, and only 4 unique
    keys. *)
Theorem merged_result_miscounts_split_key :
  let w := Demo.run (fun n => 1 + 3 * n) in
  exists final,
    done w = true
    /\ merged w = Some final
    /\ sorted_desc final
    /\ length final = 5%nat
    /\ list_sum (map (distinct_keys (disk w))
                     (Py.range (num_reduce_tasks (master w)))) = 5%nat
    /\ length (remove_dups (map fst final)) = 4%nat.
Proof.
  exists [(Py.txt "sat", 2); (Py.txt "dog", 1); (Py.txt "cat", 1);
          (Py.txt "the", 1); (Py.txt "the", 1)].
  split; [vm_compute; reflexivity |].
  split; [vm_compute; reflexivity |].
  split; [simpl; repeat (split || constructor); simpl; lia |].
  split; [reflexivity |]. split; vm_compute; reflexivity.
Qed.

(** ** File names *)

Section FileNames.
Import Py.


Lemma output_filename_inj a b : output_filename a = output_filename b -> a = b.
Proof.
  unfold output_filename. intros H.
  apply app_inv_head in H. by apply app_inv_tail in H.
Qed.

Lemma repr_int_inj i j :
  str_int i = Some (repr_int i) -> str_int j = Some (repr_int j) ->
  repr_int i = repr_int j -> i = j.
Proof.
  intros Hi Hj Heq. apply int_str_int in Hi, Hj. rewrite Heq in Hi. congruence.
Qed.

Lemma write_records_other path items q : forall fs,
  q <> path -> files (write_records path items fs).1 !! q = files fs !! q.
Proof.
  induction items as [| [k v] items IH]; intros fs Hq; [done |].
  unfold write_records in *. cbn [for_each]. unfold bind at 1.
  unfold write_record at 1. unfold bind at 1. cbn [fst snd].
  destruct (format_value v fs) as [fs1 [s |]] eqn:Hv.
  - assert (fs1 = fs) as -> by (destruct v; simpl in Hv; unfold of_option in Hv;
      try destruct (str_int n); by inversion Hv).
    simpl. rewrite IH by done. simpl. by rewrite lookup_insert_ne.
  - assert (fs1 = fs) as -> by (destruct v; simpl in Hv; unfold of_option in Hv;
      try destruct (str_int n); by inversion Hv).
    done.
Qed.

End FileNames.

(** ** A reduce task without input *)



(** ** A job on workers with different hash secrets *)

(** With one hash secret for all workers every key of the demo job ends in
    one reducer's file, and the merged counts are the word counts. *)
Example job_with_one_secret :
  let w := Demo.run (fun _ => 0) in
  map (present_pairs (disk w)) (Py.range 4)
  = [[]; [(Py.txt "the", 2)]; [(Py.txt "sat", 2); (Py.txt "dog", 1)];
     [(Py.txt "cat", 1)]]
  /\ merged w = Some [(Py.txt "the", 2); (Py.txt "sat", 2); (Py.txt "dog", 1);
                      (Py.txt "cat", 1)].
Proof. vm_compute. split; reflexivity. Qed.

(** C3: on the inputs "the cat sat" and "the dog sat", with three workers
    whose hash secrets are those of PYTHONHASHSEED=1, 4 and 7, the job
    completes and the key "the" is in the output files of reducers 1 and 3:
    its two occurrences are never added up, and the merged result lists it
    twice. *)
Theorem key_split_across_reducers :
  let w := Demo.run (fun n => 1 + 3 * n) in
  done w = true
  /\ completed_maps (master w) = 2 /\ completed_reduces (master w) = 4
  /\ map (present_pairs (disk w)) (Py.range 4)
     = [[(Py.txt "dog", 1)]; [(Py.txt "cat", 1); (Py.txt "the", 1)];
        [(Py.txt "sat", 2)]; [(Py.txt "the", 1)]]
  /\ merged w = Some [(Py.txt "sat", 2); (Py.txt "dog", 1); (Py.txt "cat", 1);
                      (Py.txt "the", 1); (Py.txt "the", 1)].
Proof. vm_compute. repeat split; reflexivity. Qed.

(** ** Grouping values by key *)

Section DictGet.
Context {K V : Type} `{EqDecision K}.
Implicit Types (d : list (K * list V)).

Lemma dict_get_append k k' (v : V) d :
  dict_get k (dict_append k' v d)
  = if decide (k = k') then Some (default [] (dict_get k d) ++ [v])
    else dict_get k d.
Proof.
  induction d as [| [k0 vs] d IH].
  - simpl. by destruct (decide (k = k')).
  - cbn [dict_append]. destruct (decide (k' = k0)) as [-> | Hne].
    + cbn [dict_get]. by destruct (decide (k = k0)).
    + cbn [dict_get]. destruct (decide (k = k0)) as [-> | Hne'].
      * by rewrite decide_False by done.
      * apply IH.
Qed.

Lemma dict_get_keys k d : k ∉ dict_keys d -> dict_get k d = None.
Proof.
  induction d as [| [k0 vs] d IH]; [done |].
  cbn [dict_keys map fst dict_get]. intros Hk.
  apply not_elem_of_cons in Hk as [Hne Hk]. rewrite decide_False by done.
  by apply IH.
Qed.

(** A dictionary with distinct keys is the list of its keys with what [get]
    returns for each. *)
Lemma dict_by_keys d :
  NoDup (dict_keys d) ->
  d = map (fun k => (k, default [] (dict_get k d))) (dict_keys d).
Proof.
  induction d as [| [k0 vs] d IH]; [done |].
  cbn [dict_keys map fst]. intros Hnd. apply NoDup_cons in Hnd as [Hk0 Hnd].
  cbn [dict_get]. rewrite decide_True by done. simpl. f_equal.
  rewrite (IH Hnd) at 1. apply map_ext_in. intros k Hk.
  apply list_elem_of_In in Hk.
  rewrite decide_False; [done |]. intros ->. done.
Qed.
End DictGet.

Section Collect.
Context {A K V : Type} `{EqDecision K}.
Variable kf : A -> K.
Variable vf : A -> V.

Local Abbreviation collected xs :=
  (fold_left (fun d x => dict_append (kf x) (vf x) d) xs []).

Lemma elem_of_rev (l : list K) k : k ∈ rev l <-> k ∈ l.
Proof. rewrite !list_elem_of_In. symmetry. apply in_rev. Qed.

Lemma first_occurrences_snoc (l : list K) k :
  first_occurrences (l ++ [k])
  = if decide (k ∈ l) then first_occurrences l else first_occurrences l ++ [k].
Proof.
  unfold first_occurrences. rewrite rev_app_distr. simpl.
  destruct (decide_rel elem_of k (rev l)) as [Hin | Hin];
    destruct (decide (k ∈ l)) as [Hin' | Hin']; try done.
  - exfalso. apply Hin'. by apply elem_of_rev.
  - exfalso. apply Hin. by apply elem_of_rev.
Qed.

Lemma elem_of_first_occurrences (l : list K) k : k ∈ first_occurrences l <-> k ∈ l.
Proof.
  unfold first_occurrences. by rewrite elem_of_rev, elem_of_remove_dups, elem_of_rev.
Qed.

Lemma NoDup_first_occurrences (l : list K) : NoDup (first_occurrences l).
Proof.
  unfold first_occurrences. apply NoDup_ListNoDup, List.NoDup_rev, NoDup_ListNoDup.
  apply NoDup_remove_dups.
Qed.

Lemma collected_keys xs : dict_keys (collected xs) = first_occurrences (map kf xs).
Proof.
  induction xs as [| x xs IH] using rev_ind; [done |].
  rewrite fold_left_app. cbn [fold_left].
  rewrite dict_append_keys, map_app. cbn [map]. rewrite first_occurrences_snoc, IH.
  destruct (decide (kf x ∈ first_occurrences (map kf xs))) as [Hin | Hin];
    destruct (decide (kf x ∈ map kf xs)) as [Hin' | Hin']; try done.
  - exfalso. by apply Hin', elem_of_first_occurrences.
  - exfalso. by apply Hin, elem_of_first_occurrences.
Qed.

Lemma collected_get xs k :
  dict_get k (collected xs)
  = match map vf (List.filter (fun x => bool_decide (kf x = k)) xs) with
    | [] => None
    | vs => Some vs
    end.
Proof.
  induction xs as [| x xs IH] using rev_ind; [done |].
  rewrite fold_left_app. cbn [fold_left].
  rewrite dict_get_append, IH, List.filter_app, map_app. cbn [List.filter].
  destruct (decide (k = kf x)) as [-> | Hne].
  - rewrite bool_decide_eq_true_2 by done. simpl.
    destruct (map vf (List.filter _ xs)); done.
  - rewrite bool_decide_eq_false_2 by done. simpl. by rewrite app_nil_r.
Qed.

(** The grouping, in closed form. *)
Lemma collected_closed xs :
  collected xs
  = map (fun k => (k, map vf (List.filter (fun x => bool_decide (kf x = k)) xs)))
        (first_occurrences (map kf xs)).
Proof.
  rewrite (dict_by_keys (collected xs))
    by (rewrite collected_keys; apply NoDup_first_occurrences).
  rewrite collected_keys. apply map_ext. intros k.
  rewrite collected_get. by destruct (map vf _).
Qed.
End Collect.

Section GroupClosed.
Lemma group_fold pairs : forall g,
  group pairs g = fold_left (fun d kv => dict_append (fst kv) (snd kv) d) pairs g.
Proof. induction pairs as [| [k n] pairs IH]; intros g; [done | apply IH]. Qed.

Lemma group_closed pairs :
  group pairs [] = map (fun k => (k, values_of k pairs)) (first_occurrences (map fst pairs)).
Proof. rewrite group_fold. apply (collected_closed fst snd). Qed.

Lemma shuffle_closed {V} (mapped : list (Py.text * V)) :
  MapReduce.shuffle mapped
  = map (fun k => (k, values_of k mapped)) (first_occurrences (map fst mapped)).
Proof. apply (collected_closed fst snd). Qed.
End GroupClosed.

(** X1: the grouping the reduce executor builds from the parsed pairs has
    one entry per distinct key, in the order in which the keys first occur,
    and the entry of a key holds the values of all pairs with that key, in
    order. *)
Theorem reduce_grouping_by_key (pairs : list (Py.text * Z)) :
  let grouped_data := group pairs [] in
  dict_keys grouped_data = first_occurrences (map fst pairs)
  /\ NoDup (dict_keys grouped_data)
  /\ (forall key, dict_get key grouped_data
                  = match values_of key pairs with
                    | [] => None
                    | values => Some values
                    end).
Proof.
  simpl. rewrite group_fold. split; [apply (collected_keys fst snd) |].
  split; [rewrite (collected_keys fst snd); apply NoDup_first_occurrences |].
  intros key. apply (collected_get fst snd).
Qed.

(** X2: the single-machine run returns one result per distinct key emitted
    by the map function, in the order in which the keys are first emitted,
    each result being the reduce function applied to the key and to all the
    values emitted with it, in order. *)
Theorem run_reduces_every_key {V R} (map_func : Py.text -> list (Py.text * V))
  (reduce_func : Py.text -> list V -> R) (input_data : list Py.text) :
  let mapped_data := flat_map map_func input_data in
  MapReduce.run map_func reduce_func input_data
  = map (fun key => reduce_func key (values_of key mapped_data))
        (first_occurrences (map fst mapped_data)).
Proof.
  simpl. unfold MapReduce.run. rewrite shuffle_closed, map_map. done.
Qed.

(** ** The word-count map function *)

Section Words.
Import Py.

Lemma split_ws_go_words s : forall cur,
  Forall (fun c => isspace c = false) cur ->
  Forall (fun w => w <> [] /\ Forall (fun c => isspace c = false) w)
         (split_ws_go cur s).
Proof.
  induction s as [| c s IH]; intros cur Hcur; simpl.
  - destruct cur as [| d cur]; [constructor |].
    repeat constructor; [| by apply Forall_rev].
    intros H. apply (f_equal (@length ascii)) in H.
    rewrite length_rev in H. done.
  - destruct (isspace c) eqn:Hc.
    + destruct cur as [| d cur]; [by apply IH |].
      constructor; [| by apply IH].
      split; [| by apply Forall_rev].
      intros H. apply (f_equal (@length ascii)) in H.
      rewrite length_rev in H. done.
    + apply IH. by constructor.
Qed.

Lemma split_ws_words s :
  Forall (fun w => w <> [] /\ Forall (fun c => isspace c = false) w) (split_ws s).
Proof. apply split_ws_go_words. constructor. Qed.

Lemma strip_with_last sp s c r : strip_with sp s = r ++ [c] -> sp c = false.
Proof.
  unfold strip_with. intros H. apply (f_equal (@rev ascii)) in H.
  rewrite rev_involutive, rev_app_distr in H. simpl in H.
  by eapply lstrip_with_nonspace.
Qed.

Lemma nonspace_key_ok k :
  k <> [] -> Forall (fun c => isspace c = false) k -> key_ok k = true.
Proof.
  intros Hne Hk. destruct k as [| c k]; [done |]. unfold key_ok.
  inversion Hk as [| ? ? Hc _]; subst. rewrite Hc. simpl negb. rewrite andb_true_l.
  apply forallb_forall. intros x Hx. rewrite List.Forall_forall in Hk.
  specialize (Hk x Hx). apply negb_true_iff.
  destruct (Ascii.eqb_spec x TAB) as [-> |]; [done |].
  destruct (Ascii.eqb_spec x LF) as [-> |]; [done |].
  destruct (Ascii.eqb_spec x CR) as [-> |]; done.
Qed.

Lemma lower_char_idem c : lower_char (lower_char c) = lower_char c.
Proof.
  destruct c as [[] [] [] [] [] [] [] []]; vm_compute; reflexivity.
Qed.

Lemma lower_idem s : lower (lower s) = lower s.
Proof.
  unfold lower. rewrite map_map. apply map_ext. apply lower_char_idem.
Qed.

(** What the word-count map functions emit for one word. *)
Lemma stripped_word_ok word w :
  Forall (fun c => isspace c = false) word ->
  strip_chars WordCount.punctuation word = w -> w <> [] ->
  key_ok w = true
  /\ Forall (fun c => isspace c = false) w
  /\ (forall c r, w = c :: r -> mem_char c WordCount.punctuation = false)
  /\ (forall c r, w = r ++ [c] -> mem_char c WordCount.punctuation = false).
Proof.
  intros Hword Hw Hne.
  assert (Forall (fun c => isspace c = false) w) as Hws.
  { rewrite <- Hw. by apply strip_with_Forall. }
  split; [by apply nonspace_key_ok |]. split; [done |]. split.
  - intros c r ->. by apply (strip_with_head _ _ _ _ Hw).
  - intros c r ->. by apply (strip_with_last _ _ _ _ Hw).
Qed.

Lemma map_func_pairs text :
  WordCount.map_func text = int_items (WordCountExample.map_function text).
Proof.
  unfold WordCount.map_func, WordCountExample.map_function, int_items.
  induction (split_ws (lower text)) as [| word words IH]; [done |].
  simpl. rewrite map_app, IH. f_equal.
  by destruct (strip_chars WordCount.punctuation word).
Qed.

Lemma map_function_ok text :
  Forall (fun kv =>
            kv.2 = 1
            /\ key_ok kv.1 = true
            /\ Forall (fun c => isspace c = false) kv.1
            /\ (forall c r, kv.1 = c :: r -> mem_char c WordCount.punctuation = false)
            /\ (forall c r, kv.1 = r ++ [c] -> mem_char c WordCount.punctuation = false))
         (WordCountExample.map_function text).
Proof.
  unfold WordCountExample.map_function.
  pose proof (split_ws_words (lower text)) as Hwords.
  induction Hwords as [| word words [_ Hword] _ IH]; [constructor |].
  simpl. apply Forall_app. split; [| exact IH].
  destruct (strip_chars WordCount.punctuation word) as [| c w] eqn:Hw; [constructor |].
  constructor; [| constructor]. split; [done |].
  by apply (stripped_word_ok word (c :: w)).
Qed.
End Words.

(** X3: every pair the word-count map function emits has the count 1 and a
    key that is not empty, has no white space (so that it survives the
    TAB-separated record format) and neither starts nor ends with one of the
    punctuation marks that are stripped; and the function does not
    distinguish upper from lower case. *)
Theorem map_func_emits_clean_words (text : Py.text) :
  Forall (fun kv =>
            kv.2 = VInt 1
            /\ key_ok kv.1 = true
            /\ Forall (fun c => Py.isspace c = false) kv.1
            /\ (forall c r, kv.1 = c :: r -> Py.mem_char c WordCount.punctuation = false)
            /\ (forall c r, kv.1 = r ++ [c] -> Py.mem_char c WordCount.punctuation = false))
         (WordCount.map_func text)
  /\ WordCount.map_func (Py.lower text) = WordCount.map_func text.
Proof.
  split.
  - rewrite map_func_pairs. unfold int_items. apply Forall_map.
    eapply Forall_impl; [apply map_function_ok |].
    intros [k n]. simpl. intros (-> & H). done.
  - unfold WordCount.map_func. by rewrite lower_idem.
Qed.

(** ** The single-machine word count *)

Section SingleMachineCount.
Lemma sum_from counts : forall a, fold_left Z.add counts a = a + WordCount.sum counts.
Proof.
  unfold WordCount.sum. induction counts as [| c counts IH]; intros a; simpl; [lia |].
  rewrite (IH (a + c)). pose proof (IH (0 + c)) as IH0. simpl in IH0.
  rewrite IH0. lia.
Qed.

Lemma sum_cons c counts : WordCount.sum (c :: counts) = c + WordCount.sum counts.
Proof. unfold WordCount.sum at 1. simpl. apply sum_from. Qed.

(** Values that are all 1 add up to the number of occurrences of the key. *)
Lemma values_of_ones key (mapped : list (Py.text * Z)) :
  Forall (fun kv => kv.2 = 1) mapped ->
  WordCount.sum (values_of key mapped) = occurrences key (map fst mapped).
Proof.
  unfold values_of, occurrences.
  induction 1 as [| [k n] mapped Hn _ IH]; [done |].
  simpl in *. subst n. destruct (bool_decide (k = key)); simpl.
  - rewrite sum_cons, IH. lia.
  - exact IH.
Qed.

Lemma flat_map_Forall {A B} (P : B -> Prop) (f : A -> list B) xs :
  (forall x, Forall P (f x)) -> Forall P (flat_map f xs).
Proof.
  intros Hf. induction xs as [| x xs IH]; simpl; [constructor |].
  apply Forall_app. by split.
Qed.
End SingleMachineCount.

(** X4: the single-machine word count returns, for every distinct word the
    map function emits and in the order in which the words first occur, the
    word with the number of times it was emitted. *)
Theorem run_counts_words (input_data : list Py.text) :
  let words := map fst (flat_map WordCountExample.map_function input_data) in
  MapReduce.run WordCountExample.map_function WordCountExample.reduce_function
    input_data
  = map (fun word => (word, occurrences word words)) (first_occurrences words).
Proof.
  simpl. unfold MapReduce.run. rewrite shuffle_closed, map_map.
  apply map_ext. intros word. unfold WordCountExample.reduce_function. simpl.
  f_equal. apply values_of_ones. apply flat_map_Forall. intros text.
  eapply Forall_impl; [apply map_function_ok |]. simpl. tauto.
Qed.

(** ** Chunks of lines *)

Section Chunks.
Import Py.

Lemma split_join group :
  group <> [] -> Forall (Forall (fun c => Ascii.eqb c LF = false)) group ->
  split LF (join [LF] group) = group.
Proof.
  induction group as [| p rest IH]; intros Hne Hall; [done |].
  inversion Hall as [| ? ? Hp Hrest]; subst.
  destruct rest as [| q rest].
  - simpl. by apply split_no_sep.
  - change (join [LF] (p :: q :: rest)) with (p ++ LF :: join [LF] (q :: rest)).
    rewrite split_at_sep by done. f_equal. by apply IH.
Qed.

Lemma stripped_lines_no_lf content :
  Forall (Forall (fun c => Ascii.eqb c LF = false)) (stripped_lines content).
Proof.
  unfold stripped_lines. apply Forall_map.
  pose proof (lines_shape (fun _ => True) (universal_newlines content)) as H.
  eapply Forall_impl; [apply H; by apply Forall_forall |].
  intros line (body & Hbody & Hline). unfold strip.
  assert (strip_with isspace line = strip_with isspace body) as ->.
  { destruct Hline as [-> | ->]; [| done].
    apply strip_with_trailing. by repeat constructor. }
  apply strip_with_Forall. eapply Forall_impl; [exact Hbody | simpl; tauto].
Qed.

(** The loop closes a chunk exactly when it is full, and at the end when it
    is not empty. *)
Lemma chunk_loop_groups chunk_size lines : forall chunk chunks,
  Z.of_nat (length chunk) < lines_per_chunk chunk_size ->
  exists groups,
    MapReduce.chunk_loop chunk_size lines chunk chunks
    = chunks ++ map (join [LF]) groups
    /\ concat groups = chunk ++ map strip lines
    /\ Forall (fun g => g <> []) groups
    /\ (forall i g, groups !! i = Some g -> (S i < length groups)%nat ->
          Z.of_nat (length g) = lines_per_chunk chunk_size)
    /\ Forall (fun g => Z.of_nat (length g) <= lines_per_chunk chunk_size) groups.
Proof.
  unfold lines_per_chunk.
  induction lines as [| line lines IH]; intros chunk chunks Hlen.
  - destruct chunk as [| l chunk].
    + exists []. simpl. rewrite app_nil_r. repeat split; try done; constructor.
    + exists [l :: chunk]. cbn [MapReduce.chunk_loop map concat].
      rewrite !app_nil_r. repeat split; try done.
      * by repeat constructor.
      * intros [| i] g Hi Hlt; simpl in *; lia.
      * repeat constructor. lia.
  - cbn [MapReduce.chunk_loop].
    assert (length (chunk ++ [strip line]) = S (length chunk)) as Hl
      by (rewrite length_app; simpl; lia).
    destruct (Z.leb_spec chunk_size (Z.of_nat (length (chunk ++ [strip line]))))
      as [Hfull | Hnot].
    + destruct (IH [] (chunks ++ [join [LF] (chunk ++ [strip line])]))
        as (groups & Heq & Hcat & Hne & Hfullg & Hle); [simpl; lia |].
      exists ((chunk ++ [strip line]) :: groups).
      rewrite Heq. cbn [map concat]. rewrite <- !app_assoc. simpl.
      split; [done |]. split; [by rewrite Hcat |].
      split; [constructor; [by destruct chunk | done] |]. split.
      * intros [| i] g Hi Hlt; simpl in Hi.
        -- injection Hi as <-. rewrite Hl in *. lia.
        -- apply (Hfullg i g Hi). simpl in Hlt. lia.
      * constructor; [rewrite Hl in *; lia | done].
    + destruct (IH (chunk ++ [strip line]) chunks)
        as (groups & Heq & Hcat & Hne & Hfullg & Hle); [rewrite Hl in *; lia |].
      exists groups. rewrite Heq, Hcat, <- app_assoc. done.
Qed.
End Chunks.

(** X5: [read_file_chunks] raises [FileNotFoundError] for a file that does
    not exist; for a readable file it returns the stripped lines of the file,
    in order, in groups joined by line feeds: no group is empty, every group
    but the last has max(1, chunk_size) lines and the last has at most as
    many, and splitting a chunk at the line feeds gives its lines back. *)
Theorem read_file_chunks_groups_lines (fs : filesystem) (filename : Py.text)
  (chunk_size : Z) :
  filename ∉ denied fs ->
  match files fs !! filename with
  | None =>
      MapReduce.read_file_chunks filename chunk_size fs
      = (fs, Raise (FileNotFoundError filename))
  | Some content =>
      exists groups,
        MapReduce.read_file_chunks filename chunk_size fs
        = (fs, Ok (map (join [Py.LF]) groups))
        /\ concat groups = stripped_lines content
        /\ map (Py.split Py.LF) (map (join [Py.LF]) groups) = groups
        /\ Forall (fun g => 1 <= Z.of_nat (length g) <= lines_per_chunk chunk_size)
                  groups
        /\ (forall i g, groups !! i = Some g -> (S i < length groups)%nat ->
              Z.of_nat (length g) = lines_per_chunk chunk_size)
  end.
Proof.
  intros Hd. unfold MapReduce.read_file_chunks, bind.
  destruct (files fs !! filename) as [content |] eqn:Hf.
  - rewrite (read_file_ok _ _ _ Hd Hf).
    destruct (chunk_loop_groups chunk_size
                (Py.lines (Py.universal_newlines content)) [] [])
      as (groups & Heq & Hcat & Hne & Hfull & Hle);
      [unfold lines_per_chunk; simpl; lia |].
    exists groups. unfold ret. rewrite Heq. simpl in *.
    split; [done |]. split; [done |].
    assert (Forall (Forall (Forall (fun c => Ascii.eqb c Py.LF = false))) groups) as Hlf.
    { pose proof (stripped_lines_no_lf content) as H.
      unfold stripped_lines in H. rewrite <- Hcat in H.
      clear -H. induction groups as [| g groups IH]; [constructor |].
      simpl in H. apply Forall_app in H as [? ?]. constructor; [done | by apply IH]. }
    split; [| split; [| done]].
    + rewrite map_map. rewrite <- (map_id groups) at 2. apply map_ext_Forall.
      clear -Hne Hlf. induction groups as [| g groups IH]; [constructor |].
      inversion Hne; inversion Hlf; subst.
      constructor; [by apply split_join | by apply IH].
    + clear -Hne Hle. induction groups as [| g groups IH]; [constructor |].
      inversion Hne; inversion Hle; subst.
      constructor; [| by apply IH]. destruct g; [done | simpl in *; lia].
  - by rewrite (read_file_missing _ _ Hd Hf).
Qed.

Lemma read_file_chunks_groups_lines_witness :
  exists groups,
    MapReduce.read_file_chunks Sample.input 2 Sample.disk
    = (Sample.disk, Ok (map (join [Py.LF]) groups))
    /\ groups = [[Py.txt "The fox."; Py.txt "the DOG"]; [Py.txt "Fox!"]].
Proof.
  pose proof (read_file_chunks_groups_lines Sample.disk Sample.input 2) as H.
  destruct H as (groups & Heq & _ & Hsplit & _); [apply not_elem_of_empty |].
  exists groups. split; [exact Heq |].
  assert (MapReduce.read_file_chunks Sample.input 2 Sample.disk
          = (Sample.disk,
             Ok (map (join [Py.LF])
                   [[Py.txt "The fox."; Py.txt "the DOG"]; [Py.txt "Fox!"]]))) as Hc
    by (vm_compute; reflexivity).
  rewrite Heq in Hc. injection Hc as Hc.
  rewrite <- Hsplit, Hc. vm_compute. reflexivity.
Defined.

(** ** Words of a text and of its chunks *)

Section WordsOfChunks.
Import Py.

Lemma isspace_lower c : isspace (lower_char c) = isspace c.
Proof. destruct c as [[] [] [] [] [] [] [] []]; vm_compute; reflexivity. Qed.

Lemma lower_char_LF c : Ascii.eqb (lower_char c) LF = Ascii.eqb c LF.
Proof. destruct c as [[] [] [] [] [] [] [] []]; vm_compute; reflexivity. Qed.

Lemma lower_app a b : lower (a ++ b) = lower a ++ lower b.
Proof. apply map_app. Qed.

Lemma lines_nil s : lines s = [] -> s = [].
Proof.
  destruct s as [| c s]; [done |]. simpl.
  destruct (Ascii.eqb c LF); [done |]. by destruct (lines s).
Qed.

Lemma lines_lower s : lines (lower s) = map lower (lines s).
Proof.
  induction s as [| c s IH]; [done |].
  cbn [lower map lines]. fold (lower s). rewrite lower_char_LF, IH.
  destruct (Ascii.eqb c LF) eqn:Hc.
  - reflexivity.
  - by destruct (lines s).
Qed.

Lemma split_ws_go_nil cur :
  split_ws_go cur [] = match cur with [] => [] | _ => [rev cur] end.
Proof. done. Qed.

(** The words of a text are the words of its lines. *)
Lemma split_ws_go_lines s : forall cur,
  split_ws_go cur s
  = match lines s with
    | [] => split_ws_go cur []
    | l :: ls => split_ws_go cur l ++ flat_map split_ws ls
    end.
Proof.
  induction s as [| c s IH]; intros cur; [done |].
  assert (split_ws_go [] s = flat_map split_ws (lines s)) as Hall.
  { rewrite (IH []). by destruct (lines s). }
  cbn [lines split_ws_go].
  destruct (Ascii.eqb_spec c LF) as [-> | Hne].
  - change (isspace LF) with true. cbv iota. cbn [split_ws_go].
    change (isspace LF) with true. cbv iota.
    rewrite Hall. by destruct cur.
  - destruct (lines s) as [| l ls] eqn:Hl.
    + apply lines_nil in Hl as ->. cbn [split_ws_go]. by rewrite app_nil_r.
    + cbn [split_ws_go]. destruct (isspace c).
      * rewrite (IH []). unfold split_ws. by destruct cur.
      * apply IH.
Qed.

Lemma split_ws_lines s : split_ws s = flat_map split_ws (lines s).
Proof. unfold split_ws at 1. rewrite split_ws_go_lines. by destruct (lines s). Qed.

Lemma split_ws_go_leading ws s cur :
  Forall (fun c => isspace c = true) ws -> ws <> [] ->
  split_ws_go cur (ws ++ s)
  = match cur with [] => split_ws s | _ => rev cur :: split_ws s end.
Proof.
  intros Hws. revert cur. induction Hws as [| c ws Hc Hws IH]; intros cur Hne; [done |].
  cbn [app split_ws_go]. rewrite Hc.
  destruct ws as [| d ws].
  - simpl. by destruct cur.
  - rewrite (IH []) by done. by destruct cur.
Qed.

Lemma split_ws_leading ws s :
  Forall (fun c => isspace c = true) ws -> split_ws (ws ++ s) = split_ws s.
Proof.
  intros Hws. destruct ws as [| c ws]; [done |].
  unfold split_ws at 1. by rewrite split_ws_go_leading.
Qed.

Lemma split_ws_go_trailing s ws : forall cur,
  Forall (fun c => isspace c = true) ws ->
  split_ws_go cur (s ++ ws) = split_ws_go cur s.
Proof.
  induction s as [| c s IH]; intros cur Hws.
  - destruct ws as [| d ws]; [done |].
    rewrite app_nil_l, <- (app_nil_r (d :: ws)).
    rewrite split_ws_go_leading by done. by destruct cur.
  - cbn [app split_ws_go]. destruct (isspace c).
    + rewrite (IH []) by done. by destruct cur.
    + by apply IH.
Qed.

Lemma lstrip_with_split sp s :
  exists pre, s = pre ++ lstrip_with sp s /\ Forall (fun c => sp c = true) pre.
Proof.
  induction s as [| c s (pre & IH & Hpre)]; [by exists [] |]. simpl.
  destruct (sp c) eqn:Hc; [| by exists []].
  exists (c :: pre). split; [simpl; by f_equal | by constructor].
Qed.

(** A text is what it strips to, between the characters that are removed. *)
Lemma strip_with_split sp s :
  exists pre post,
    s = pre ++ strip_with sp s ++ post
    /\ Forall (fun c => sp c = true) pre /\ Forall (fun c => sp c = true) post.
Proof.
  unfold strip_with.
  destruct (lstrip_with_split sp s) as (pre & Hs & Hpre).
  destruct (lstrip_with_split sp (rev (lstrip_with sp s))) as (tsop & Hr & Hpost).
  exists pre, (rev tsop). split; [| split; [done | by apply Forall_rev]].
  rewrite Hs at 1. f_equal.
  apply (f_equal (@rev ascii)) in Hr. rewrite rev_involutive, rev_app_distr in Hr.
  done.
Qed.

Lemma lower_spaces ws :
  Forall (fun c => isspace c = true) ws -> Forall (fun c => isspace c = true) (lower ws).
Proof.
  intros H. unfold lower. apply Forall_map. eapply Forall_impl; [exact H |].
  simpl. intros c Hc. by rewrite isspace_lower.
Qed.

Lemma words_of_strip s : words_of (strip s) = words_of s.
Proof.
  unfold words_of, strip.
  destruct (strip_with_split isspace s) as (pre & post & Hs & Hpre & Hpost).
  rewrite Hs at 2. rewrite !lower_app.
  rewrite split_ws_leading by (by apply lower_spaces).
  unfold split_ws. by rewrite split_ws_go_trailing by (by apply lower_spaces).
Qed.

Lemma words_of_lines s : words_of s = flat_map words_of (lines s).
Proof.
  unfold words_of. rewrite split_ws_lines, lines_lower.
  rewrite !flat_map_concat_map, map_map. done.
Qed.

Lemma split_ws_go_app_space a c b : forall cur,
  isspace c = true ->
  split_ws_go cur (a ++ c :: b) = split_ws_go cur a ++ split_ws b.
Proof.
  induction a as [| d a IH]; intros cur Hc.
  - cbn [app split_ws_go]. rewrite Hc. by destruct cur.
  - cbn [app split_ws_go]. destruct (isspace d).
    + rewrite (IH []) by done. by destruct cur.
    + by apply IH.
Qed.

Lemma words_of_join group : words_of (join [LF] group) = flat_map words_of group.
Proof.
  induction group as [| p rest IH]; [done |].
  destruct rest as [| q rest].
  - simpl. by rewrite app_nil_r.
  - change (join [LF] (p :: q :: rest)) with (p ++ LF :: join [LF] (q :: rest)).
    unfold words_of in *. rewrite lower_app. cbn [lower map].
    unfold split_ws at 1. rewrite split_ws_go_app_space by reflexivity.
    fold (lower (join [LF] (q :: rest))). rewrite IH. done.
Qed.

Lemma map_function_words s :
  WordCountExample.map_function s
  = flat_map (fun word => match strip_chars WordCount.punctuation word with
                          | [] => []
                          | w => [(w, 1)]
                          end) (words_of s).
Proof. done. Qed.

Lemma flat_map_flat_map {A B C} (f : A -> list B) (g : B -> list C) xs :
  flat_map g (flat_map f xs) = flat_map (fun x => flat_map g (f x)) xs.
Proof.
  induction xs as [| x xs IH]; [done |]. simpl. by rewrite flat_map_app, IH.
Qed.

(** The pairs emitted for the chunks are the pairs emitted for the text. *)
Lemma map_function_chunks groups content :
  concat groups = stripped_lines content ->
  flat_map WordCountExample.map_function (map (join [LF]) groups)
  = WordCountExample.map_function (universal_newlines content).
Proof.
  intros Hcat.
  set (emit := fun word : text =>
                 match strip_chars WordCount.punctuation word with
                 | [] => []
                 | w => [(w, 1)]
                 end).
  assert (forall s, WordCountExample.map_function s = flat_map emit (words_of s))
    as Hmf by done.
  rewrite Hmf, words_of_lines.
  transitivity (flat_map emit (flat_map words_of (concat groups))).
  - clear Hcat. induction groups as [| g groups IH]; [done |].
    cbn [map flat_map concat]. rewrite IH, Hmf, words_of_join.
    by rewrite !flat_map_app.
  - rewrite Hcat. unfold stripped_lines. f_equal.
    rewrite !flat_map_concat_map, map_map. f_equal. apply map_ext.
    apply words_of_strip.
Qed.
End WordsOfChunks.

(** X6: the chunk size has no influence on the word count: whatever the
    chunk size, the single-machine run over the chunks of a file returns what
    it returns for the whole text of the file as one input. *)
Theorem word_count_independent_of_chunking (fs : filesystem)
  (filename content : Py.text) (chunk_size : Z) :
  filename ∉ denied fs -> files fs !! filename = Some content ->
  exists chunks,
    MapReduce.read_file_chunks filename chunk_size fs = (fs, Ok chunks)
    /\ MapReduce.run WordCountExample.map_function
         WordCountExample.reduce_function chunks
       = MapReduce.run WordCountExample.map_function
           WordCountExample.reduce_function [Py.universal_newlines content].
Proof.
  intros Hd Hf.
  pose proof (chunk_loop_groups chunk_size
                (Py.lines (Py.universal_newlines content)) [] []) as H.
  destruct H as (groups & Heq & Hcat & _); [unfold lines_per_chunk; simpl; lia |].
  exists (map (join [Py.LF]) groups). split.
  - unfold MapReduce.read_file_chunks, bind. rewrite (read_file_ok _ _ _ Hd Hf).
    unfold ret. by rewrite Heq.
  - unfold MapReduce.run. rewrite (map_function_chunks groups content) by done.
    simpl. by rewrite app_nil_r.
Qed.

Lemma word_count_independent_of_chunking_witness :
  exists chunks,
    MapReduce.read_file_chunks Sample.input 2 Sample.disk = (Sample.disk, Ok chunks)
    /\ MapReduce.run WordCountExample.map_function
         WordCountExample.reduce_function chunks
       = [(Py.txt "the", 2); (Py.txt "fox", 2); (Py.txt "dog", 1)].
Proof.
  destruct (word_count_independent_of_chunking Sample.disk Sample.input
              (Py.txt "The fox." ++ [Py.LF] ++ Py.txt "  the DOG" ++ [Py.CR; Py.LF]
               ++ Py.txt "Fox!") 2) as (chunks & Hread & Hrun).
  - apply not_elem_of_empty.
  - vm_compute. reflexivity.
  - exists chunks. split; [exact Hread |]. rewrite Hrun. vm_compute. reflexivity.
Defined.

(** ** The word-count program *)

Section WordCountMain.
Import Py.

Lemma read_file_chunks_ok fs filename content chunk_size :
  filename ∉ denied fs -> files fs !! filename = Some content ->
  exists groups,
    MapReduce.read_file_chunks filename chunk_size fs
    = (fs, Ok (map (join [LF]) groups))
    /\ concat groups = stripped_lines content.
Proof.
  intros Hd Hf.
  destruct (chunk_loop_groups chunk_size (lines (universal_newlines content)) [] [])
    as (groups & Heq & Hcat & _); [unfold lines_per_chunk; simpl; lia |].
  exists groups. split; [| done].
  unfold MapReduce.read_file_chunks, bind. rewrite (read_file_ok _ _ _ Hd Hf).
  unfold ret. by rewrite Heq.
Qed.

Lemma read_file_chunks_returns fs fs' filename chunk_size chunks :
  MapReduce.read_file_chunks filename chunk_size fs = (fs', Ok chunks) ->
  (filename ∉ denied fs) /\ exists content, files fs !! filename = Some content.
Proof.
  unfold MapReduce.read_file_chunks, bind, read_file.
  destruct (decide (filename ∈ denied fs)); [done |].
  destruct (files fs !! filename) as [content |]; [| done]. eauto.
Qed.

Lemma write_then_ret {A} path items (x : A) fs :
  (open_w path ;;; write_records path items ;;; ret x) fs
  = match (open_w path ;;; write_records path items) fs with
    | (fs', Ok _) => (fs', Ok x)
    | (fs', Raise e) => (fs', Raise e)
    end.
Proof.
  unfold bind. destruct (open_w path fs) as [fs1 [[] | e]]; [| done].
  by destruct (write_records path items fs1) as [fs2 [[] | e]].
Qed.

Lemma run_word_count_keys input_data :
  Forall (fun kv => key_ok kv.1 = true)
    (MapReduce.run WordCountExample.map_function WordCountExample.reduce_function
       input_data)
  /\ NoDup (map fst (MapReduce.run WordCountExample.map_function
                       WordCountExample.reduce_function input_data)).
Proof.
  unfold MapReduce.run. rewrite shuffle_closed, map_map.
  set (mapped := flat_map WordCountExample.map_function input_data).
  split.
  - apply Forall_map. apply Forall_forall. intros k Hk. simpl.
    rewrite elem_of_first_occurrences, list_elem_of_In, in_map_iff in Hk.
    destruct Hk as ([k' n] & <- & Hin). apply list_elem_of_In in Hin.
    assert (Forall (fun kv : text * Z => key_ok kv.1 = true) mapped) as Hok.
    { apply flat_map_Forall. intros t.
      eapply Forall_impl; [apply map_function_ok |]. simpl. tauto. }
    rewrite Forall_forall in Hok. by apply (Hok (k', n)).
  - rewrite map_map. simpl. rewrite map_id. apply NoDup_first_occurrences.
Qed.
End WordCountMain.

(** X7: when the word-count program returns, its results are the distinct
    words of the input file with their numbers of occurrences, sorted
    non-increasing by count, each word once, and the results file it has
    written parses back to exactly these results. *)
Theorem main_counts_sorts_and_writes (input_file : Py.text) (fs fs' : filesystem)
  (results : list (Py.text * Z)) :
  WordCountExample.main input_file fs = (fs', Ok results) ->
  exists content t,
    files fs !! input_file = Some content
    /\ (let words := map fst (WordCountExample.map_function
                                (Py.universal_newlines content)) in
        results = sort_desc (map (fun word => (word, occurrences word words))
                                 (first_occurrences words)))
    /\ sorted_desc results
    /\ NoDup (map fst results)
    /\ fs' = put WordCountExample.results_file t fs
    /\ parse_records t = Some results.
Proof.
  unfold WordCountExample.main. unfold bind at 1. intros H.
  destruct (MapReduce.read_file_chunks input_file 500 fs) as [fs1 [chunks | e]] eqn:Hread;
    [| done].
  destruct (read_file_chunks_returns _ _ _ _ _ Hread) as (Hd & content & Hf).
  destruct (read_file_chunks_ok fs input_file content 500 Hd Hf)
    as (groups & Hread' & Hcat).
  rewrite Hread' in Hread. injection Hread as <- <-.
  set (run := MapReduce.run WordCountExample.map_function
                WordCountExample.reduce_function (map (join [Py.LF]) groups)) in *.
  rewrite write_then_ret in H.
  destruct ((open_w WordCountExample.results_file ;;;
             write_records WordCountExample.results_file (int_items (sort_desc run)))
              fs) as [fs2 [[] | e]] eqn:Hw; [| done].
  injection H as <- <-.
  apply write_partition in Hw as (t & Ht & _ & ->).
  exists content, t. split; [done |].
  destruct (run_word_count_keys (map (join [Py.LF]) groups)) as [Hkeys Hnd].
  fold run in Hkeys, Hnd.
  split; [| split; [apply sort_desc_sorted |]; split; [| split; [done |]]].
  - simpl. f_equal. unfold run, MapReduce.run.
    rewrite (map_function_chunks groups content Hcat).
    rewrite shuffle_closed, map_map. apply map_ext. intros word.
    unfold WordCountExample.reduce_function. simpl. f_equal.
    apply values_of_ones.
    eapply Forall_impl; [apply map_function_ok |]. simpl. tauto.
  - apply NoDup_ListNoDup.
    eapply (Permutation_NoDup (l := map fst run)); [| apply NoDup_ListNoDup, Hnd].
    apply Permutation_map. symmetry. apply sort_desc_perm.
  - apply parse_records_render; [| done].
    eapply Permutation_Forall; [symmetry; apply sort_desc_perm | done].
Qed.

Lemma main_counts_sorts_and_writes_witness :
  let results := [(Py.txt "the", 2); (Py.txt "fox", 2); (Py.txt "dog", 1)] in
  exists content t,
    files Sample.disk !! Sample.input = Some content
    /\ (let words := map fst (WordCountExample.map_function
                                (Py.universal_newlines content)) in
        results = sort_desc (map (fun word => (word, occurrences word words))
                                 (first_occurrences words)))
    /\ sorted_desc results
    /\ NoDup (map fst results)
    /\ (WordCountExample.main Sample.input Sample.disk).1
       = put WordCountExample.results_file t Sample.disk
    /\ parse_records t = Some results.
Proof.
  intros results.
  apply (main_counts_sorts_and_writes Sample.input Sample.disk
           (WordCountExample.main Sample.input Sample.disk).1 results).
  vm_compute. reflexivity.
Defined.

(** ** The partitions of a map task *)

Section Partitions.
Context {K V : Type} `{EqDecision K}.

Lemma dict_append_concat k (v : V) (d : list (K * list V)) :
  concat (map snd (dict_append k v d)) ≡ₚ v :: concat (map snd d).
Proof.
  induction d as [| [k' vs] d IH]; [done |].
  cbn [dict_append]. destruct (decide (k = k')) as [-> | Hne]; cbn [map snd concat].
  - rewrite <- app_assoc. simpl. symmetry. apply Permutation_middle.
  - rewrite IH. symmetry. apply Permutation_middle.
Qed.

Lemma dict_append_fresh k (v : V) (d : list (K * list V)) :
  k ∉ dict_keys d -> dict_append k v d = d ++ [(k, [v])].
Proof.
  induction d as [| [k' vs] d IH]; [done |].
  cbn [dict_keys map fst]. intros Hk. apply not_elem_of_cons in Hk as [Hne Hk].
  cbn [dict_append]. rewrite decide_False by done. simpl. f_equal. by apply IH.
Qed.
End Partitions.

Section PartitionsFrom.
Lemma partitions_from_fold sec R mapped : forall parts,
  R <> 0 ->
  partitions_from sec R mapped parts
  = Some (fold_left (fun d kv => dict_append (reducer_of sec R kv) kv d) mapped parts).
Proof.
  induction mapped as [| [key v] mapped IH]; intros parts HR; [done |].
  cbn [partitions_from fold_left]. unfold partition, Py.mod_.
  destruct (Z.eqb_spec R 0); [done |]. by apply IH.
Qed.

Lemma collected_concat {A K} `{EqDecision K} (kf : A -> K) (xs : list A) :
  concat (map snd (fold_left (fun d x => dict_append (kf x) x d) xs [])) ≡ₚ xs.
Proof.
  induction xs as [| x xs IH] using rev_ind; [done |].
  rewrite fold_left_app. cbn [fold_left]. rewrite dict_append_concat, IH.
  apply Permutation_cons_append.
Qed.
End PartitionsFrom.

(** X8: for a reducer count that is not 0 the map step distributes the
    mapped pairs over partitions without losing or duplicating any: there is
    one partition per reducer that receives a pair, the partition of a
    reducer holds exactly the pairs whose key hashes to it, in the order in
    which they were mapped, and all partitions together are a permutation of
    the mapped pairs.  With 0 reducers and at least one pair there are no
    partitions: the step raises ZeroDivisionError. *)
Theorem partitions_keep_every_pair (sec : PyHash.secret) (R : Z)
  (mapped : list (Py.text * value)) :
  (R <> 0 ->
   exists parts,
     partitions_from sec R mapped [] = Some parts
     /\ NoDup (dict_keys parts)
     /\ dict_keys parts = first_occurrences (map (reducer_of sec R) mapped)
     /\ (forall r, dict_get r parts
                   = match List.filter (fun kv => bool_decide (reducer_of sec R kv = r))
                                       mapped with
                     | [] => None
                     | items => Some items
                     end)
     /\ concat (map snd parts) ≡ₚ mapped)
  /\ (R = 0 -> mapped <> [] -> partitions_from sec R mapped [] = None).
Proof.
  split.
  - intros HR.
    pose proof (collected_keys (reducer_of sec R) (fun kv => kv) mapped) as Hkeys.
    pose proof (collected_get (reducer_of sec R) (fun kv => kv) mapped) as Hget.
    cbv beta in Hkeys, Hget.
    eexists. split; [by apply partitions_from_fold |].
    split; [rewrite Hkeys; apply NoDup_first_occurrences |].
    split; [exact Hkeys |].
    split; [| apply collected_concat].
    intros r. rewrite Hget. by rewrite map_id.
  - intros -> Hne. destruct mapped as [| [key v] mapped]; [done |]. done.
Qed.

Lemma partitions_keep_every_pair_witness :
  exists parts,
    partitions_from (PyHash.secret_of_seed 0) 4
      (WordCount.map_func (Py.txt "the cat sat the")) [] = Some parts
    /\ dict_keys parts = [1; 3; 2]
    /\ dict_get 1 parts = Some [(Py.txt "the", VInt 1); (Py.txt "the", VInt 1)].
Proof.
  destruct (partitions_keep_every_pair (PyHash.secret_of_seed 0) 4
              (WordCount.map_func (Py.txt "the cat sat the")))
    as [H _].
  destruct H as (parts & Hp & _ & Hkeys & Hget & _); [lia |].
  exists parts. split; [exact Hp |]. split.
  - rewrite Hkeys. vm_compute. reflexivity.
  - rewrite Hget. vm_compute. reflexivity.
Defined.

(** ** Names of the partition files *)

Section PartitionNames.
Import Py.

(** Two texts without the letter r that are followed by "-r" and are equal
    with what follows are equal. *)
Lemma app_dash_r_inj (s s' u u' : text) :
  Forall (fun c => Ascii.eqb c "r" = false) s ->
  Forall (fun c => Ascii.eqb c "r" = false) s' ->
  s ++ "-"%char :: "r"%char :: u = s' ++ "-"%char :: "r"%char :: u' ->
  s = s' /\ u = u'.
Proof.
  intros Hs. revert s'. induction Hs as [| c s Hc Hs IH]; intros s' Hs' Heq.
  - destruct s' as [| c' s']; [by injection Heq as -> |].
    simpl in Heq. injection Heq as <- Heq.
    destruct s' as [| d s'].
    + simpl in Heq. done.
    + simpl in Heq. injection Heq as <- _.
      inversion Hs' as [| ? ? _ Hs'']; subst. by inversion Hs''.
  - destruct s' as [| c' s'].
    + simpl in Heq. injection Heq as -> Heq.
      destruct s as [| d s].
      * simpl in Heq. done.
      * simpl in Heq. injection Heq as -> _. by inversion Hs.
    + simpl in Heq. injection Heq as <- Heq.
      inversion Hs'; subst. destruct (IH s') as [-> ->]; done.
Qed.

Lemma repr_int_no_r n : Forall (fun c => Ascii.eqb c "r" = false) (repr_int n).
Proof.
  assert (forall m, 0 <= m -> Forall (fun c => Ascii.eqb c "r" = false) (digits m)) as Hd.
  { intros m Hm. eapply Forall_impl; [by apply digits_isdigit |].
    intros c Hc. apply isdigit_code in Hc.
    destruct (Ascii.eqb_spec c "r") as [-> |]; [| done].
    assert (code "r" = 114) as Hr by reflexivity. lia. }
  unfold repr_int. destruct (Z.ltb_spec n 0); [| by apply Hd].
  constructor; [done | apply Hd; lia].
Qed.
End PartitionNames.

(** X9: the name of a partition file determines its map task and its
    reducer: two (task number, reducer index) pairs with the same file name
    are the same pair, so no two partitions are written to one file. *)
Theorem partition_filename_unique (task reducer task' reducer' : Z)
  (tn rn tn' rn' : Py.text) :
  Py.str_int task = Some tn -> Py.str_int reducer = Some rn ->
  Py.str_int task' = Some tn' -> Py.str_int reducer' = Some rn' ->
  partition_filename tn rn = partition_filename tn' rn' ->
  task = task' /\ reducer = reducer'.
Proof.
  intros Ht Hr Ht' Hr' Heq.
  pose proof (str_int_repr _ _ Ht) as ->. pose proof (str_int_repr _ _ Hr) as ->.
  pose proof (str_int_repr _ _ Ht') as ->. pose proof (str_int_repr _ _ Hr') as ->.
  unfold partition_filename in Heq. apply app_inv_head in Heq.
  change (Py.txt "-reduce-") with ("-"%char :: "r"%char :: Py.txt "educe-") in Heq.
  simpl app in Heq.
  apply app_dash_r_inj in Heq as [Htn Hrest]; [| apply repr_int_no_r ..].
  injection Hrest as Hrest. apply app_inv_tail in Hrest.
  split; eapply repr_int_inj; eauto.
Qed.

Lemma partition_filename_unique_witness :
  Py.str_int 12 = Some (Py.txt "12")
  /\ partition_filename (Py.txt "1") (Py.txt "12")
     = Py.txt "data/intermediate/map-1-reduce-12.txt"
  /\ (1 = 1 /\ 12 = 12).
Proof.
  split; [reflexivity |]. split; [reflexivity |].
  apply (partition_filename_unique 1 12 1 12 (Py.txt "1") (Py.txt "12")
           (Py.txt "1") (Py.txt "12")); reflexivity.
Defined.

(** ** The map step when it completes *)

Section MapCompleted.
Import Py.

Lemma denied_put path content fs : denied (put path content fs) = denied fs.
Proof. done. Qed.

Lemma write_parts_denied data parts : forall fs,
  denied (write_parts data parts fs) = denied fs.
Proof.
  unfold write_parts. induction parts as [| part parts IH]; intros fs; [done |].
  simpl. by rewrite IH.
Qed.

Lemma map_write_loop_ok (data : map_request) (D : gset text) parts : forall names fs,
  denied fs = D ->
  str_int (task_num data) = Some (repr_int (task_num data)) ->
  Forall (fun part => str_int part.1 = Some (repr_int part.1)
                      /\ (partition_path data part.1 ∉ D)
                      /\ is_Some (render part.2)) parts ->
  for_fold parts (write_partition_file data) names fs
  = (write_parts data parts fs,
     Ok (fold_left (fun d part => dict_append part.1 (partition_path data part.1) d)
                   parts names)).
Proof.
  intros names fs HD Htn Hparts. revert names fs HD.
  induction Hparts as [| [r items] parts (Hr & Hd & [t Ht]) _ IH]; intros names fs HD;
    [done |].
  cbn [fst snd] in Hr, Hd, Ht.
  cbn [for_fold]. unfold bind at 1. unfold write_partition_file at 1.
  cbn [fst snd]. unfold bind at 1. rewrite (format_int_ok _ _ _ Htn).
  unfold bind at 1. rewrite (format_int_ok _ _ _ Hr).
  fold (partition_path data r).
  unfold bind at 1. rewrite open_w_ok by (by rewrite HD).
  unfold bind at 1.
  rewrite (write_records_render _ _ t []) by (done || apply files_put).
  rewrite put_put. unfold ret at 1. cbv beta iota. cbn [fst snd app].
  fold (partition_path data r).
  rewrite IH by done. unfold write_parts. cbn [fold_left fst snd].
  by rewrite Ht.
Qed.

Lemma names_of_parts data (parts : list (Z * list (text * value))) : forall names,
  NoDup (dict_keys names ++ map fst parts) ->
  fold_left (fun d part => dict_append part.1 (partition_path data part.1) d)
            parts names
  = names ++ map (fun part => (part.1, [partition_path data part.1])) parts.
Proof.
  induction parts as [| [r items] parts IH]; intros names Hnd.
  - simpl. by rewrite app_nil_r.
  - cbn [fold_left map fst snd] in *.
    assert (r ∉ dict_keys names) as Hr.
    { apply NoDup_app in Hnd as (_ & Hdis & _). intros Hin.
      apply (Hdis r Hin). apply elem_of_cons. by left. }
    rewrite dict_append_fresh by done. rewrite IH.
    + by rewrite <- app_assoc.
    + unfold dict_keys in *. rewrite map_app. simpl. rewrite <- app_assoc. done.
Qed.

Lemma json_loop names : forall js fs,
  Forall (fun entry : Z * list text => str_int entry.1 = Some (repr_int entry.1)) names ->
  for_fold names json_entry js fs
  = (fs, Ok (js ++ map (fun entry => (repr_int entry.1, entry.2)) names)).
Proof.
  induction names as [| [r ns] names IH]; intros js fs Hn.
  - simpl. by rewrite app_nil_r.
  - inversion Hn as [| ? ? Hr Hn']; subst. cbn [for_fold]. unfold bind at 1.
    unfold json_entry at 1. unfold bind at 1. cbn [fst snd] in *.
    rewrite (format_int_ok _ _ _ Hr). unfold ret at 1. cbv beta iota.
    rewrite IH by done. by rewrite <- app_assoc.
Qed.

Lemma partition_path_inj data r r' :
  str_int r = Some (repr_int r) -> str_int r' = Some (repr_int r') ->
  partition_path data r = partition_path data r' -> r = r'.
Proof.
  intros Hr Hr' Heq. unfold partition_path, partition_filename in Heq.
  apply app_inv_head, app_inv_head, app_inv_head, app_inv_tail in Heq.
  by apply repr_int_inj.
Qed.

Lemma write_parts_other data parts q : forall fs,
  Forall (fun part : Z * list (text * value) => q <> partition_path data part.1) parts ->
  files (write_parts data parts fs) !! q = files fs !! q.
Proof.
  unfold write_parts. induction parts as [| part parts IH]; intros fs Hq; [done |].
  inversion Hq; subst. cbn [fold_left]. rewrite IH by done.
  by rewrite files_put_ne.
Qed.

Lemma write_parts_lookup data parts r items : forall fs,
  Forall (fun part : Z * list (text * value) =>
            str_int part.1 = Some (repr_int part.1)) parts ->
  NoDup (map fst parts) -> (r, items) ∈ parts ->
  files (write_parts data parts fs) !! partition_path data r
  = Some (default [] (render items)).
Proof.
  induction parts as [| [r0 items0] parts IH]; intros fs Hstr Hnd Hin.
  - by apply elem_of_nil in Hin.
  - inversion Hstr as [| ? ? Hr0 Hstr']; subst. cbn [map fst] in Hnd.
    apply NoDup_cons in Hnd as [Hr0' Hnd].
    unfold write_parts in *. cbn [fold_left fst snd].
    apply elem_of_cons in Hin as [[= -> ->] | Hin].
    + fold (write_parts data parts (put (partition_path data r0)
                                          (default [] (render items0)) fs)).
      rewrite write_parts_other; [apply files_put |].
      apply Forall_forall. intros [r' items'] Hin' Heq. simpl in *.
      rewrite Forall_forall in Hstr'.
      apply partition_path_inj in Heq; [| done | by apply (Hstr' (r', items'))].
      subst r'. apply Hr0'. apply list_elem_of_In, in_map_iff.
      exists (r0, items'). split; [done | by apply list_elem_of_In].
    + by apply IH.
Qed.

Lemma render_total items :
  Forall (fun kv : text * value => is_Some (render_value kv.2)) items ->
  is_Some (render items).
Proof.
  induction 1 as [| [k v] items [s Hs] _ [t IH]]; [by eexists |].
  simpl in *. rewrite Hs, IH. by eexists.
Qed.
End MapCompleted.

Section MapCompletedParts.
Import Py.

(** The partitions of a map task for a positive reducer count: distinct
    reducers in range, and every pair of every partition is a mapped pair. *)
Lemma partitions_from_facts sec R mapped :
  0 < R ->
  exists parts,
    partitions_from sec R mapped [] = Some parts
    /\ NoDup (map fst parts)
    /\ Forall (fun part : Z * list (text * value) =>
                 0 <= part.1 < R /\ Forall (fun kv => In kv mapped) part.2) parts.
Proof.
  intros HR.
  pose proof (collected_keys (reducer_of sec R) (fun kv => kv) mapped) as Hkeys.
  pose proof (collected_concat (reducer_of sec R) mapped) as Hcat.
  cbv beta in Hkeys.
  exists (fold_left (fun d kv => dict_append (reducer_of sec R kv) kv d) mapped []).
  split; [apply partitions_from_fold; lia |].
  set (parts := fold_left _ mapped []) in *.
  split; [unfold dict_keys in Hkeys; rewrite Hkeys; apply NoDup_first_occurrences |].
  apply Forall_forall. intros [r items] Hin. simpl. split.
  - assert (r ∈ dict_keys parts) as Hr.
    { apply list_elem_of_In, in_map_iff. exists (r, items).
      split; [done | by apply list_elem_of_In]. }
    rewrite Hkeys, elem_of_first_occurrences, list_elem_of_In, in_map_iff in Hr.
    destruct Hr as (kv & <- & _). unfold reducer_of. apply Z.mod_pos_bound. lia.
  - apply Forall_forall. intros kv Hkv. apply list_elem_of_In.
    rewrite <- Hcat. apply list_elem_of_In, in_concat. exists items.
    split; [| by apply list_elem_of_In].
    apply in_map_iff. exists (r, items). split; [done | by apply list_elem_of_In].
Qed.

(** A map task whose input can be read and whose partition files can be
    written completes, and what it writes and reports are its partitions. *)
Lemma execute_map_ok (p : process) (data : map_request) (fs : filesystem)
  (content : text) :
  input_file data ∉ denied fs ->
  files fs !! input_file data = Some content ->
  0 < num_reducers data <= 10 ^ Z.of_nat max_str_digits ->
  0 <= task_num data < 10 ^ Z.of_nat max_str_digits ->
  Forall (fun kv => is_Some (render_value kv.2))
         (map_func (self p) (universal_newlines content)) ->
  (forall r, 0 <= r < num_reducers data -> partition_path data r ∉ denied fs) ->
  let parts := partitions_of (hash_secret p) (num_reducers data)
                 (map_func (self p) (universal_newlines content)) in
  execute_map p true data fs
  = (write_parts data parts fs, Completed, [map_report data parts]).
Proof.
  intros Hd Hf HR Htask Hvalues Hpaths parts.
  set (mapped := map_func (self p) (universal_newlines content)) in *.
  destruct (partitions_from_facts (hash_secret p) (num_reducers data) mapped)
    as (parts' & Hparts & Hnd & Hfacts); [lia |].
  rewrite partitions_from_fold in Hparts by lia. injection Hparts as Hparts.
  fold (partitions_of (hash_secret p) (num_reducers data) mapped) in Hparts.
  fold parts in Hparts. subst parts'.
  assert (str_int (task_num data) = Some (repr_int (task_num data))) as Htn
    by (by apply str_int_small).
  assert (Forall (fun part : Z * list (text * value) =>
                    str_int part.1 = Some (repr_int part.1)) parts) as Hstr.
  { eapply Forall_impl; [exact Hfacts |]. intros [r items] [Hr _]. simpl in *.
    apply str_int_small. lia. }
  unfold execute_map, map_body. unfold bind at 1.
  rewrite (read_file_ok _ _ _ Hd Hf). fold mapped.
  unfold bind at 1. rewrite map_partition_loop, partitions_from_fold by lia.
  fold (partitions_of (hash_secret p) (num_reducers data) mapped). fold parts.
  unfold bind at 1.
  rewrite (map_write_loop_ok data (denied fs) parts [] fs eq_refl Htn).
  - rewrite (names_of_parts data parts []) by done. rewrite app_nil_l.
    unfold bind at 1. rewrite json_loop.
    + rewrite app_nil_l, map_map. done.
    + apply Forall_map. eapply Forall_impl; [exact Hstr |]. done.
  - apply Forall_forall. intros [r items] Hin. simpl.
    rewrite Forall_forall in Hstr, Hfacts.
    split; [by apply (Hstr (r, items)) |].
    split; [apply Hpaths; by apply (Hfacts (r, items)) |].
    destruct (Hfacts _ Hin) as [_ Hitems]. simpl in Hitems.
    apply render_total. rewrite Forall_forall in Hvalues.
    eapply Forall_impl; [exact Hitems |]. intros kv Hkv.
    apply Hvalues. by apply list_elem_of_In.
Qed.
End MapCompletedParts.

(** X10: a map task whose input can be read, whose mapped values can all be
    formatted and whose partition files can be opened completes: it writes,
    for every reducer that receives a pair, the file named after the task and
    the reducer with one line per pair of that reducer's partition, leaves
    every other file as it was, and posts one report that lists for each of
    these reducers exactly that file. *)
Theorem execute_map_writes_partitions (p : process) (data : map_request)
  (fs : filesystem) (content : Py.text) :
  input_file data ∉ denied fs ->
  files fs !! input_file data = Some content ->
  0 < num_reducers data <= 10 ^ Z.of_nat Py.max_str_digits ->
  0 <= task_num data < 10 ^ Z.of_nat Py.max_str_digits ->
  Forall (fun kv => is_Some (render_value kv.2))
         (map_func (self p) (Py.universal_newlines content)) ->
  (forall r, 0 <= r < num_reducers data -> partition_path data r ∉ denied fs) ->
  exists parts,
    partitions_from (hash_secret p) (num_reducers data)
      (map_func (self p) (Py.universal_newlines content)) [] = Some parts
    /\ execute_map p true data fs
       = (write_parts data parts fs, Completed, [map_report data parts])
    /\ (forall r items, (r, items) ∈ parts ->
          exists t, render items = Some t
                    /\ files (write_parts data parts fs) !! partition_path data r
                       = Some t)
    /\ (forall q, (forall r, 0 <= r < num_reducers data -> q <> partition_path data r) ->
          files (write_parts data parts fs) !! q = files fs !! q).
Proof.
  intros Hd Hf HR Htask Hvalues Hpaths.
  set (mapped := map_func (self p) (Py.universal_newlines content)) in *.
  destruct (partitions_from_facts (hash_secret p) (num_reducers data) mapped)
    as (parts & Hparts & Hnd & Hfacts); [lia |].
  assert (Py.str_int (task_num data) = Some (Py.repr_int (task_num data))) as Htn
    by (by apply str_int_small).
  assert (Forall (fun part : Z * list (Py.text * value) =>
                    Py.str_int part.1 = Some (Py.repr_int part.1)) parts) as Hstr.
  { eapply Forall_impl; [exact Hfacts |]. intros [r items] [Hr _]. simpl in *.
    apply str_int_small. lia. }
  assert (forall r items, (r, items) ∈ parts -> is_Some (render items)) as Hrender.
  { intros r items Hin. rewrite Forall_forall in Hfacts.
    destruct (Hfacts _ Hin) as [_ Hitems]. simpl in Hitems.
    apply render_total. rewrite Forall_forall in Hvalues.
    eapply Forall_impl; [exact Hitems |]. intros kv Hkv.
    apply Hvalues. by apply list_elem_of_In. }
  exists parts. split; [done |]. split; [| split].
  - pose proof (execute_map_ok p data fs content Hd Hf HR Htask Hvalues Hpaths) as Hex.
    cbv zeta in Hex. rewrite Hex. fold mapped.
    rewrite partitions_from_fold in Hparts by lia. injection Hparts as <-. done.
  - intros r items Hin. destruct (Hrender r items Hin) as [t Ht].
    exists t. split; [done |].
    rewrite (write_parts_lookup data parts r items) by done. by rewrite Ht.
  - intros q Hq. apply write_parts_other.
    apply Forall_forall. intros [r items] Hin. simpl.
    rewrite Forall_forall in Hfacts. apply Hq. by apply (Hfacts (r, items)).
Qed.

Lemma execute_map_writes_partitions_witness :
  exists parts,
    execute_map (Demo.proc (fun _ => 0) 0) true Demo.map_request0 Demo.disk0
    = (write_parts Demo.map_request0 parts Demo.disk0, Completed,
       [map_report Demo.map_request0 parts])
    /\ map fst parts = [1; 3; 2].
Proof.
  destruct (execute_map_writes_partitions (Demo.proc (fun _ => 0) 0)
              Demo.map_request0 Demo.disk0 (Py.txt "the cat sat"))
    as (parts & Hparts & Hex & _).
  - apply not_elem_of_empty.
  - vm_compute. reflexivity.
  - split; [simpl; lia | vm_compute; discriminate].
  - split; [simpl; lia | vm_compute; reflexivity].
  - repeat constructor; by eexists.
  - intros r _. apply not_elem_of_empty.
  - exists parts. split; [exact Hex |].
    assert (Some parts = Some [(1, [(Py.txt "the", VInt 1)]);
                               (3, [(Py.txt "cat", VInt 1)]);
                               (2, [(Py.txt "sat", VInt 1)])]) as Hp
      by (rewrite <- Hparts; vm_compute; reflexivity).
    injection Hp as ->. reflexivity.
Defined.

(** ** The reduce step of the word count *)

(** X11: a completed reduce task of the word count has written, for every
    distinct key of its input files and in the order in which the keys first
    occur, one line with the key and the sum of all values read for it; the
    file parses back to exactly these pairs, and the task has posted one
    report naming the file. *)
Theorem execute_reduce_sums_by_key (p : process) (up : bool)
  (data : reduce_request) (fs fs' : filesystem) (sent : list message) :
  reduce_func (self p) = WordCount.reduce_func ->
  execute_reduce p up data fs = (fs', Completed, sent) ->
  exists pairs t,
    collect (file_pairs fs) (input_files data) = Ok pairs
    /\ fs' = put (output_filename (Py.repr_int (reducer_id data))) t fs
    /\ parse_records t
       = Some (map (fun key => (key, WordCount.sum (values_of key pairs)))
                   (first_occurrences (map fst pairs)))
    /\ sent = [ReduceComplete (reduce_task_id data)
                 (output_filename (Py.repr_int (reducer_id data)))].
Proof.
  intros Hrf Hex.
  apply execute_reduce_completed in Hex as (l & t & Hl & _ & Ht & -> & _ & ->).
  exists l, t. split; [done |]. split; [done |]. split; [| done].
  rewrite Hrf, group_closed, map_map in Ht.
  set (items := map (fun key => (key, WordCount.sum (values_of key l)))
                    (first_occurrences (map fst l))).
  assert (map (fun key => WordCount.reduce_func (key, values_of key l).1
                            (key, values_of key l).2)
              (first_occurrences (map fst l)) = int_items items) as Hitems.
  { unfold items, int_items. by rewrite map_map. }
  rewrite Hitems in Ht. apply parse_records_render; [| done].
  unfold items. apply Forall_map. apply Forall_forall. intros key Hkey. simpl.
  rewrite elem_of_first_occurrences, list_elem_of_In, in_map_iff in Hkey.
  destruct Hkey as ([k n] & <- & Hin).
  pose proof (collect_Forall_keys _ _ _ Hl) as Hok.
  rewrite List.Forall_forall in Hok. by apply (Hok (k, n)).
Qed.

Lemma execute_reduce_sums_by_key_witness :
  let fs := disk (Demo.run (fun _ => 0)) in
  let data := Demo.reduce_request_of (Demo.run (fun _ => 0)) 2 in
  exists pairs t,
    collect (file_pairs fs) (input_files data) = Ok pairs
    /\ (execute_reduce (Demo.proc (fun _ => 0) 0) true data fs).1.1
       = put (output_filename (Py.repr_int (reducer_id data))) t fs
    /\ parse_records t
       = Some (map (fun key => (key, WordCount.sum (values_of key pairs)))
                   (first_occurrences (map fst pairs)))
    /\ (execute_reduce (Demo.proc (fun _ => 0) 0) true data fs).2
       = [ReduceComplete (reduce_task_id data)
            (output_filename (Py.repr_int (reducer_id data)))].
Proof.
  intros fs data.
  apply (execute_reduce_sums_by_key (Demo.proc (fun _ => 0) 0) true data fs).
  - reflexivity.
  - vm_compute. reflexivity.
Defined.

(** ** The manifest *)

Section Manifest.
Import Py.

Lemma store_intermediate_extends intermediate : forall manifest r,
  exists suffix,
    default [] ((store_intermediate intermediate manifest).1 !! r)
    = default [] (manifest !! r) ++ suffix.
Proof.
  induction intermediate as [| [rid names] intermediate IH]; intros manifest r.
  - exists []. simpl. by rewrite app_nil_r.
  - simpl. destruct (int rid) as [r0 |].
    + destruct (IH (<[r0:=default [] (manifest !! r0) ++ names]> manifest) r)
        as [suffix Hs].
      rewrite Hs. destruct (decide (r0 = r)) as [-> | Hne].
      * rewrite lookup_insert_eq. simpl. exists (names ++ suffix).
        by rewrite app_assoc.
      * rewrite lookup_insert_ne by done. by exists suffix.
    + exists []. simpl. by rewrite app_nil_r.
Qed.

Lemma store_report data (parts : list (Z * list (text * value))) : forall manifest,
  Forall (fun part => str_int part.1 = Some (repr_int part.1)) parts ->
  NoDup (map fst parts) ->
  exists manifest',
    store_intermediate
      (map (fun part => (repr_int part.1, [partition_path data part.1])) parts)
      manifest = (manifest', Ok tt)
    /\ forall r, default [] (manifest' !! r)
                 = default [] (manifest !! r)
                   ++ (if decide (r ∈ map fst parts)
                       then [partition_path data r] else []).
Proof.
  induction parts as [| [r0 items] parts IH]; intros manifest Hstr Hnd.
  - exists manifest. split; [done |]. intros r. simpl. by rewrite app_nil_r.
  - inversion Hstr as [| ? ? Hr0 Hstr']; subst. cbn [map fst snd] in *.
    apply NoDup_cons in Hnd as [Hr0' Hnd].
    cbn [store_intermediate]. rewrite (int_str_int _ _ Hr0).
    destruct (IH (<[r0:=default [] (manifest !! r0) ++ [partition_path data r0]]>
                    manifest) Hstr' Hnd) as (manifest' & Hstore & Hlook).
    exists manifest'. split; [done |]. intros r. rewrite Hlook.
    destruct (decide (r = r0)) as [-> | Hne].
    + rewrite lookup_insert_eq. simpl.
      rewrite decide_False by done.
      rewrite decide_True by (apply elem_of_cons; by left).
      by rewrite app_nil_r.
    + rewrite lookup_insert_ne by done.
      destruct (decide (r ∈ map fst parts)) as [Hin | Hin].
      * rewrite decide_True by (apply elem_of_cons; by right). done.
      * rewrite decide_False; [done |].
        intros Hin'. apply elem_of_cons in Hin' as [? | ?]; done.
Qed.
End Manifest.

(** X12: the manifest only grows: whatever a map-completion report holds,
    and whether the handler acknowledges it or raises, the list of files of
    every reducer after the request is the list before it followed by zero
    or more files; the number of map tasks and of reduce tasks and the
    registered workers are left as they were. *)
Theorem manifest_is_append_only (m : Master) (task_id : Py.text)
  (intermediate : list (Py.text * list Py.text)) :
  let m' := (map_complete m task_id intermediate).1.1 in
  (forall r, exists suffix,
     default [] (intermediate_files m' !! r)
     = default [] (intermediate_files m !! r) ++ suffix)
  /\ map_tasks m' = map_tasks m
  /\ num_reduce_tasks m' = num_reduce_tasks m
  /\ workers m' = workers m
  /\ completed_reduces m' = completed_reduces m.
Proof.
  simpl. unfold map_complete.
  pose proof (store_intermediate_extends intermediate (intermediate_files m)) as H.
  destruct (store_intermediate intermediate (intermediate_files m))
    as [manifest [[] | e]]; simpl in *; done.
Qed.

(** X13: the master records the report of a completed map task exactly: the
    reducer indexes, sent as decimal strings, are read back as the same
    integers; every reducer the report lists gets the one reported file
    appended to its list, every other list is unchanged, the request is
    acknowledged and the counter of completed maps goes up by one. *)
Theorem map_complete_records_report (m : Master) (data : map_request)
  (parts : list (Z * list (Py.text * value))) :
  Forall (fun part => Py.str_int part.1 = Some (Py.repr_int part.1)) parts ->
  NoDup (map fst parts) ->
  match map_report data parts with
  | MapComplete task_id intermediate =>
      exists m' spawn,
        map_complete m task_id intermediate = (m', Acknowledged, spawn)
        /\ completed_maps m' = completed_maps m + 1
        /\ forall r, default [] (intermediate_files m' !! r)
                     = default [] (intermediate_files m !! r)
                       ++ (if decide (r ∈ map fst parts)
                           then [partition_path data r] else [])
  | ReduceComplete _ _ => False
  end.
Proof.
  intros Hstr Hnd. unfold map_report, map_complete.
  destruct (store_report data parts (intermediate_files m) Hstr Hnd)
    as (manifest' & -> & Hlook).
  eexists _, _. split; [reflexivity |]. split; [done |]. exact Hlook.
Qed.

Lemma map_complete_records_report_witness :
  let parts := [(1, [(Py.txt "the", VInt 1)]); (3, [(Py.txt "cat", VInt 1)])] in
  exists m' spawn,
    map_complete Demo.master_dispatching (Py.txt "map-0")
      [(Py.txt "1", [partition_path Demo.map_request0 1]);
       (Py.txt "3", [partition_path Demo.map_request0 3])]
    = (m', Acknowledged, spawn)
    /\ completed_maps m' = completed_maps Demo.master_dispatching + 1
    /\ forall r, default [] (intermediate_files m' !! r)
                 = default [] (intermediate_files Demo.master_dispatching !! r)
                   ++ (if decide (r ∈ map fst parts)
                       then [partition_path Demo.map_request0 r] else []).
Proof.
  intros parts.
  apply (map_complete_records_report Demo.master_dispatching Demo.map_request0 parts).
  - repeat constructor.
  - apply NoDup_cons. split; [| apply NoDup_singleton].
    intros H. apply list_elem_of_singleton in H. discriminate.
Defined.

(** ** Reduce-completion reports *)

Section ReduceReports.
Implicit Types (m : Master) (fs : filesystem) (reports : list (Py.text * Py.text)).

Lemma reduce_complete_count m task_id output_file fs :
  let '(m', fs', a, final) := reduce_complete m task_id output_file fs in
  completed_reduces m' = completed_reduces m + 1
  /\ num_reduce_tasks m' = num_reduce_tasks m
  /\ (completed_reduces m + 1 <> num_reduce_tasks m ->
      fs' = fs /\ a = Acknowledged /\ final = None)
  /\ (a = Acknowledged /\ final = None \/ completed_reduces m + 1 = num_reduce_tasks m).
Proof.
  unfold reduce_complete. cbn [completed_reduces num_reduce_tasks].
  destruct (Z.eqb_spec (completed_reduces m + 1) (num_reduce_tasks m)) as [Heq | Hne].
  - destruct (merge_results _ fs) as [fs' [final | e]]; simpl; repeat split; auto; done.
  - simpl. repeat split; auto.
Qed.

Lemma reduce_reports_cons m fs task_id output_file reports :
  reduce_reports m fs ((task_id, output_file) :: reports)
  = let '(m', fs', a, final) := reduce_complete m task_id output_file fs in
    ((reduce_reports m' fs' reports).1,
     (a, final) :: (reduce_reports m' fs' reports).2).
Proof.
  simpl. destruct (reduce_complete m task_id output_file fs) as [[[m' fs'] a] final].
  by destruct (reduce_reports m' fs' reports) as [[? ?] ?].
Qed.

Lemma reduce_reports_counter reports : forall m fs,
  completed_reduces (reduce_reports m fs reports).1.1
  = completed_reduces m + Z.of_nat (length reports)
  /\ num_reduce_tasks (reduce_reports m fs reports).1.1 = num_reduce_tasks m
  /\ length (reduce_reports m fs reports).2 = length reports.
Proof.
  induction reports as [| [task_id output_file] reports IH]; intros m fs.
  - simpl. repeat split; lia.
  - rewrite reduce_reports_cons.
    pose proof (reduce_complete_count m task_id output_file fs) as H.
    destruct (reduce_complete m task_id output_file fs) as [[[m' fs'] a] final].
    destruct H as (Hc & HR & _). cbn [fst snd length].
    destruct (IH m' fs') as (-> & -> & ->). repeat split; lia.
Qed.

(** Past the number of reduce tasks no request runs the merge. *)
Lemma reduce_reports_late reports : forall m fs,
  num_reduce_tasks m <= completed_reduces m ->
  merge_runs (reduce_reports m fs reports).2 = 0%nat
  /\ (reduce_reports m fs reports).1.2 = fs.
Proof.
  induction reports as [| [task_id output_file] reports IH]; intros m fs Hm; [done |].
  rewrite reduce_reports_cons.
  pose proof (reduce_complete_count m task_id output_file fs) as H.
  destruct (reduce_complete m task_id output_file fs) as [[[m' fs'] a] final].
  destruct H as (Hc & HR & Hnot & _). cbn [fst snd].
  destruct Hnot as (-> & -> & ->); [lia |].
  unfold merge_runs in *. cbn [List.filter].
  destruct (IH m' fs) as [Hruns Hfs]; [lia |]. split; [exact Hruns | exact Hfs].
Qed.

Lemma reduce_reports_runs reports : forall m fs,
  (merge_runs (reduce_reports m fs reports).2 <= 1)%nat.
Proof.
  induction reports as [| [task_id output_file] reports IH]; intros m fs.
  - simpl. unfold merge_runs. simpl. lia.
  - rewrite reduce_reports_cons.
    pose proof (reduce_complete_count m task_id output_file fs) as H.
    destruct (reduce_complete m task_id output_file fs) as [[[m' fs'] a] final].
    destruct H as (Hc & HR & _ & Hcase). cbn [fst snd].
    destruct Hcase as [[-> ->] | Hlast].
    + unfold merge_runs in *. cbn [List.filter]. apply IH.
    + destruct (reduce_reports_late reports m' fs') as [Hl _]; [lia |].
      unfold merge_runs in *. cbn [List.filter].
      destruct a, final; simpl; rewrite ?Hl; lia.
Qed.
End ReduceReports.

(** X14: the master counts every reduce-completion report, whatever task it
    names, and in any sequence of reports the merge is run during at most
    one request; once the counter has passed the number of reduce tasks no
    request runs it or touches the disk. *)
Theorem reduce_reports_merge_at_most_once (m : Master) (fs : filesystem)
  (reports : list (Py.text * Py.text)) :
  let '(m', fs', log) := reduce_reports m fs reports in
  completed_reduces m' = completed_reduces m + Z.of_nat (length reports)
  /\ num_reduce_tasks m' = num_reduce_tasks m
  /\ (merge_runs log <= 1)%nat
  /\ (num_reduce_tasks m <= completed_reduces m ->
      merge_runs log = 0%nat /\ fs' = fs).
Proof.
  pose proof (reduce_reports_counter reports m fs) as (Hc & HR & _).
  pose proof (reduce_reports_runs reports m fs) as Hruns.
  pose proof (reduce_reports_late reports m fs) as Hlate.
  destruct (reduce_reports m fs reports) as [[m' fs'] log]. cbn [fst snd] in *.
  repeat split; try done; by apply Hlate.
Qed.

Lemma reduce_reports_merge_at_most_once_witness :
  let m := {| workers := []; map_tasks := []; intermediate_files := ∅;
              num_reduce_tasks := 2; completed_maps := 0; completed_reduces := 2 |} in
  let r := (Py.txt "reduce-0", output_filename (Py.txt "0")) in
  merge_runs (reduce_reports m Demo.disk_one_output [r; r]).2 = 0%nat
  /\ (reduce_reports m Demo.disk_one_output [r; r]).1.2 = Demo.disk_one_output.
Proof.
  intros m r.
  pose proof (reduce_reports_merge_at_most_once m Demo.disk_one_output [r; r]) as H.
  destruct (reduce_reports m Demo.disk_one_output [r; r]) as [[m' fs'] log].
  destruct H as (_ & _ & _ & H). cbn [fst snd]. apply H. simpl. lia.
Defined.

(** ** The final results file *)

Section MergeArtifact.
Import Py.

Lemma reducer_output_keys_ok fs i l :
  reducer_output fs i = Ok l -> Forall (fun kv => key_ok kv.1 = true) l.
Proof.
  unfold reducer_output. destruct (str_int i) as [name |]; [| done].
  destruct (file_pairs fs (output_filename name)) as [l' | e] eqn:Hf.
  - intros [= <-]. by eapply file_pairs_keys_ok.
  - destruct e; try done. intros [= <-]. constructor.
Qed.

Lemma merge_results_cases m fs :
  match collect (reducer_output fs) (range (num_reduce_tasks m)) with
  | Ok l =>
      if decide (final_results_file ∈ denied fs)
      then merge_results m fs = (fs, Raise (PermissionError final_results_file))
      else exists t,
             render (int_items (sort_desc l)) = Some t
             /\ parse_records t = Some (sort_desc l)
             /\ merge_results m fs = (put final_results_file t fs, Ok (sort_desc l))
  | Raise e => merge_results m fs = (fs, Raise e)
  end.
Proof.
  destruct (collect _ _) as [l | e] eqn:Hl; [| by apply merge_results_raises].
  destruct (decide _) as [Hd | Hd].
  - rewrite merge_results_spec, Hl. unfold bind. by rewrite open_w_denied.
  - destruct (merge_results_ok m fs l Hl Hd) as (t & Ht & Hm).
    exists t. split; [done |]. split; [| done].
    apply parse_records_render; [| done].
    eapply Permutation_Forall; [symmetry; apply sort_desc_perm |].
    eapply collect_Forall; [| exact Hl]. apply reducer_output_keys_ok.
Qed.
End MergeArtifact.

(** X15: a merge that returns has changed the disk in one place only: the
    final results file, which parses back, with the parser of the reducer
    files, to exactly the sorted list the merge returns; a merge that raises
    has written nothing. *)
Theorem merge_results_writes_what_it_returns (m : Master) (fs fs' : filesystem)
  (r : result (list (Py.text * Z))) :
  merge_results m fs = (fs', r) ->
  match r with
  | Ok final =>
      exists t, fs' = put final_results_file t fs
                /\ parse_records t = Some final
                /\ sorted_desc final
  | Raise _ => fs' = fs
  end.
Proof.
  intros H. pose proof (merge_results_cases m fs) as Hc.
  destruct (collect _ _) as [l | e].
  - destruct (decide _).
    + rewrite Hc in H. by injection H as <- <-.
    + destruct Hc as (t & _ & Hp & Hm). rewrite Hm in H. injection H as <- <-.
      exists t. split; [done |]. split; [done | apply sort_desc_sorted].
  - rewrite Hc in H. by injection H as <- <-.
Qed.

Lemma merge_results_writes_what_it_returns_witness :
  exists t,
    (merge_results (init 4) Demo.disk_one_output).1
    = put final_results_file t Demo.disk_one_output
    /\ parse_records t = Some [(Py.txt "the", 2)]
    /\ sorted_desc [(Py.txt "the", 2)].
Proof.
  apply (merge_results_writes_what_it_returns (init 4) Demo.disk_one_output
           (merge_results (init 4) Demo.disk_one_output).1 (Ok [(Py.txt "the", 2)])).
  vm_compute. reflexivity.
Defined.

(** ** Round-robin assignment *)

(** X16: with at least one registered worker, every task index, negative
    ones included, is assigned a registered worker, the one at the position
    of the index modulo the number of workers, so that indexes that differ by
    the number of workers get the same worker; with no worker registered no
    worker is found. *)
Theorem pick_worker_round_robin (ws : list worker_info) (i : Z) :
  match ws with
  | [] => pick_worker ws i = None
  | _ =>
      exists w, pick_worker ws i = Some w
                /\ ws !! Z.to_nat (i mod Z.of_nat (length ws)) = Some w
                /\ In w ws
                /\ pick_worker ws (i + Z.of_nat (length ws)) = Some w
  end.
Proof.
  destruct ws as [| w0 ws]; [done |].
  set (all := w0 :: ws). set (n := Z.of_nat (length all)).
  assert (0 < n) as Hn by (unfold n, all; simpl; lia).
  assert (0 <= i mod n < n) as Hi by (apply Z.mod_pos_bound; lia).
  destruct (lookup_lt_is_Some_2 all (Z.to_nat (i mod n))) as [w Hw];
    [unfold n in *; lia |].
  exists w. unfold pick_worker, Py.mod_. fold n.
  destruct (Z.eqb_spec n 0); [lia |].
  split; [done |]. split; [done |]. split.
  - apply list_elem_of_In. by eapply list_elem_of_lookup_2.
  - replace ((i + n) mod n) with (i mod n); [done |].
    rewrite <- (Z.mul_1_l n) at 2. by rewrite Z.mod_add by lia.
Qed.

(** ** The order of the final results *)

Section StableOrder.
Lemma with_count_insert c x l :
  with_count c (insert_desc x l) = with_count c (x :: l).
Proof.
  induction l as [| y l IH]; [done |]. simpl insert_desc.
  destruct (Z.ltb_spec x.2 y.2) as [Hlt | Hge]; [| done].
  unfold with_count in *. cbn [List.filter] in *. rewrite IH.
  destruct (Z.eqb_spec x.2 c), (Z.eqb_spec y.2 c); try done. lia.
Qed.

Lemma with_count_sort c l : with_count c (sort_desc l) = with_count c l.
Proof.
  induction l as [| x l IH]; [done |]. simpl sort_desc.
  rewrite with_count_insert. unfold with_count in *. cbn [List.filter].
  by rewrite IH.
Qed.
End StableOrder.

(** X17: the merged result holds exactly the pairs read from the reducer
    files: it is a permutation of them, and pairs with the same count keep
    the order in which they were read, reducer after reducer and line after
    line. *)
Theorem merge_results_keeps_order_of_ties (m : Master) (fs fs' : filesystem)
  (final : list (Py.text * Z)) :
  merge_results m fs = (fs', Ok final) ->
  exists l,
    collect (reducer_output fs) (Py.range (num_reduce_tasks m)) = Ok l
    /\ final ≡ₚ l
    /\ forall c, with_count c final = with_count c l.
Proof.
  intros H. pose proof (merge_results_cases m fs) as Hc.
  destruct (collect _ _) as [l | e].
  - destruct (decide _).
    + rewrite Hc in H. done.
    + destruct Hc as (t & _ & _ & Hm). rewrite Hm in H. injection H as _ <-.
      exists l. split; [done |]. split; [apply sort_desc_perm |].
      intros c. apply with_count_sort.
  - rewrite Hc in H. done.
Qed.

Lemma merge_results_keeps_order_of_ties_witness :
  let fs := disk (Demo.run (fun _ => 0)) in
  exists l,
    collect (reducer_output fs) (Py.range 4) = Ok l
    /\ [(Py.txt "the", 2); (Py.txt "sat", 2); (Py.txt "dog", 1); (Py.txt "cat", 1)]
       ≡ₚ l
    /\ forall c, with_count c [(Py.txt "the", 2); (Py.txt "sat", 2);
                               (Py.txt "dog", 1); (Py.txt "cat", 1)]
                 = with_count c l.
Proof.
  intros fs.
  apply (merge_results_keeps_order_of_ties (init 4) fs (merge_results (init 4) fs).1).
  vm_compute. reflexivity.
Defined.

(** ** The phases of a job *)

Section JobPure.
Import Py.

Lemma filter_map_comm {A B} (f : B -> bool) (g : A -> B) l :
  List.filter f (map g l) = map g (List.filter (fun a => f (g a)) l).
Proof.
  induction l as [| a l IH]; [done |]. simpl. destruct (f (g a)); simpl; by rewrite IH.
Qed.

(** The partitions of a word-count map task: one per reducer that receives
    a word, holding the pairs routed to it. *)
Lemma partitions_of_word_count sec R (s : text) :
  partitions_of sec R (WordCount.map_func s)
  = map (fun r => (r, int_items (routed_to sec R r (WordCountExample.map_function s))))
        (first_occurrences
           (map (fun kv => PyHash.hash sec kv.1 mod R)
                (WordCountExample.map_function s))).
Proof.
  rewrite map_func_pairs. unfold partitions_of.
  rewrite (collected_closed (reducer_of sec R) (fun kv => kv)).
  unfold int_items at 2. rewrite map_map.
  assert (forall l : list (text * Z),
            map (fun x => reducer_of sec R (let '(key, n) := x in (key, VInt n))) l
            = map (fun kv => PyHash.hash sec kv.1 mod R) l) as ->.
  { intros l. apply map_ext. by intros [k n]. }
  apply map_ext. intros r. f_equal. rewrite map_id.
  unfold int_items, routed_to. rewrite filter_map_comm. f_equal.
  apply filter_ext. by intros [k n].
Qed.

Lemma routed_to_app sec R r l l' :
  routed_to sec R r (l ++ l') = routed_to sec R r l ++ routed_to sec R r l'.
Proof. apply List.filter_app. Qed.

Lemma routed_to_keys_ok sec R r l :
  Forall (fun kv : text * Z => key_ok kv.1 = true) l ->
  Forall (fun kv : text * Z => key_ok kv.1 = true) (routed_to sec R r l).
Proof.
  intros H. apply Forall_forall. intros kv Hkv.
  apply list_elem_of_In, filter_In in Hkv as [Hkv _].
  rewrite Forall_forall in H. by apply H, list_elem_of_In.
Qed.

(** Reading back a file that holds rendered pairs. *)
Lemma file_pairs_rendered fs path l t :
  path ∉ denied fs -> files fs !! path = Some t ->
  Forall (fun kv : text * Z => key_ok kv.1 = true) l ->
  render (int_items l) = Some t ->
  file_pairs fs path = Ok l.
Proof.
  intros Hd Hf Hk Ht. unfold file_pairs. rewrite (read_file_ok _ _ _ Hd Hf).
  pose proof (parse_records_render l t Hk Ht) as Hp. unfold parse_records in Hp.
  by rewrite Hp.
Qed.

Lemma file_pairs_ext fs fs' path :
  denied fs = denied fs' -> files fs !! path = files fs' !! path ->
  file_pairs fs path = file_pairs fs' path.
Proof.
  intros Hd Hf. unfold file_pairs, read_file. rewrite Hd, Hf.
  destruct (decide _); [done |]. by destruct (files fs' !! path).
Qed.

Lemma collect_ext {A B} (f g : A -> result (list B)) xs :
  (forall x, In x xs -> f x = g x) -> collect f xs = collect g xs.
Proof.
  induction xs as [| x xs IH]; intros H; [done |].
  simpl. rewrite H by (by left). rewrite IH; [done |].
  intros y Hy. apply H. by right.
Qed.

Lemma collect_app {A B} (f : A -> result (list B)) xs ys l r :
  collect f xs = Ok l -> collect f ys = Ok r -> collect f (xs ++ ys) = Ok (l ++ r).
Proof.
  revert l. induction xs as [| x xs IH]; intros l Hl Hr.
  - simpl in Hl. injection Hl as <-. done.
  - simpl in *. destruct (f x) as [lx |]; [| done].
    destruct (collect f xs) as [l' |]; [| done]. injection Hl as <-.
    rewrite (IH l' eq_refl Hr). by rewrite app_assoc.
Qed.

Lemma output_not_partition name tn rn :
  output_filename name <> partition_filename tn rn.
Proof. unfold output_filename, partition_filename. simpl. discriminate. Qed.

Lemma partition_filename_inj i r i' r' :
  str_int i = Some (repr_int i) -> str_int r = Some (repr_int r) ->
  str_int i' = Some (repr_int i') -> str_int r' = Some (repr_int r') ->
  partition_filename (repr_int i) (repr_int r)
  = partition_filename (repr_int i') (repr_int r') ->
  i = i' /\ r = r'.
Proof.
  intros Hi Hr Hi' Hr' Heq.
  unfold partition_filename in Heq. apply app_inv_head in Heq.
  change (txt "-reduce-") with ("-"%char :: "r"%char :: txt "educe-") in Heq.
  simpl app in Heq.
  apply app_dash_r_inj in Heq as [Htn Hrest]; [| apply repr_int_no_r ..].
  injection Hrest as Hrest. apply app_inv_tail in Hrest.
  split; eapply repr_int_inj; eauto.
Qed.
Lemma filter_none {A B} `{EqDecision B} (f : A -> B) (b : B) l :
  b ∉ map f l -> List.filter (fun x => bool_decide (f x = b)) l = [].
Proof.
  induction l as [| a l IH]; [done |]. cbn [map List.filter]. intros Hb.
  apply not_elem_of_cons in Hb as [Hne Hb].
  rewrite bool_decide_eq_false_2 by done. by apply IH.
Qed.

Lemma word_count_values l :
  Forall (fun kv : text * Z => kv.2 = 1) l ->
  Forall (fun kv : text * value => is_Some (render_value kv.2)) (int_items l).
Proof.
  intros H. unfold int_items. apply Forall_map.
  eapply Forall_impl; [exact H |]. intros [k n] Hn. simpl in *. subst n. by eexists.
Qed.

Lemma map_function_ones s :
  Forall (fun kv : text * Z => kv.2 = 1) (WordCountExample.map_function s).
Proof. eapply Forall_impl; [apply map_function_ok |]. simpl. tauto. Qed.

Lemma map_function_keys s :
  Forall (fun kv : text * Z => key_ok kv.1 = true) (WordCountExample.map_function s).
Proof. eapply Forall_impl; [apply map_function_ok |]. simpl. tauto. Qed.

Lemma routed_to_Forall sec R (P : text * Z -> Prop) r l :
  Forall P l -> Forall P (routed_to sec R r l).
Proof.
  intros H. apply Forall_forall. intros kv Hkv.
  apply list_elem_of_In, filter_In in Hkv as [Hkv _].
  rewrite Forall_forall in H. by apply H, list_elem_of_In.
Qed.

Lemma render_ones l :
  Forall (fun kv : text * Z => kv.2 = 1) l -> is_Some (render (int_items l)).
Proof. intros H. apply render_total. by apply word_count_values. Qed.
Lemma reduced_closed l :
  reduced l
  = map (fun k => (k, WordCount.sum (values_of k l))) (first_occurrences (map fst l)).
Proof. unfold reduced. by rewrite group_closed, map_map. Qed.

Lemma reduced_values l :
  Forall (fun kv : text * Z => kv.2 = 1) l ->
  Z.of_nat (length l) < 10 ^ Z.of_nat max_str_digits ->
  Forall (fun kv : text * Z => str_int kv.2 = Some (repr_int kv.2)) (reduced l).
Proof.
  intros H1 Hlen. rewrite reduced_closed. apply Forall_map, Forall_forall.
  intros k _. simpl. rewrite values_of_ones by done. unfold occurrences.
  apply str_int_small. split; [lia |].
  pose proof (List.filter_length_le (fun x => bool_decide (x = k)) (map fst l)) as Hle.
  rewrite length_map in Hle. lia.
Qed.

Lemma reduced_keys l :
  Forall (fun kv : text * Z => key_ok kv.1 = true) l ->
  Forall (fun kv : text * Z => key_ok kv.1 = true) (reduced l).
Proof.
  intros Hk. rewrite reduced_closed. apply Forall_map, Forall_forall.
  intros k Hin. simpl.
  rewrite elem_of_first_occurrences, list_elem_of_In, in_map_iff in Hin.
  destruct Hin as (kv & <- & Hin). rewrite Forall_forall in Hk.
  by apply Hk, list_elem_of_In.
Qed.

Lemma routed_to_length sec R r l :
  (length (routed_to sec R r l) <= length l)%nat.
Proof. apply List.filter_length_le. Qed.

Lemma manifest_touch (manifest : gmap Z (list text)) j r :
  default [] (<[j := default [] (manifest !! j)]> manifest !! r)
  = default [] (manifest !! r).
Proof.
  destruct (decide (j = r)) as [-> | Hne].
  - by rewrite lookup_insert_eq.
  - by rewrite lookup_insert_ne.
Qed.
End JobPure.

Section MapPhase.
Import Py.
Variable cl : cluster.
Variable sec : PyHash.secret.
Variable ws : list worker_info.
Variable R : Z.
Variables inputs contents : list text.
Hypothesis Hcl :
  Forall (fun wk => exists p, cl !! address wk = Some p /\ word_count_process sec p) ws.
Hypothesis HR : 0 < R <= 10 ^ Z.of_nat max_str_digits.
Hypothesis HN : Z.of_nat (length inputs) <= 10 ^ Z.of_nat max_str_digits.
Hypothesis Hdisj : forall i r,
  0 <= i < Z.of_nat (length inputs) -> 0 <= r < R ->
  partition_filename (repr_int i) (repr_int r) ∉ inputs.

(** One map task of the job. *)
Lemma map_task_step (k : nat) (w : world) (wk : worker_info) (tid f c : text) :
  map_phase_state sec ws R inputs contents k w ->
  inputs !! k = Some f -> contents !! k = Some c -> wk ∈ ws ->
  exists w1,
    map_phase_state sec ws R inputs contents (S k) w1
    /\ assign_map_task cl w wk tid f (Z.of_nat k)
       = if Z.of_nat k + 1 =? Z.of_nat (length inputs)
         then start_reduce_phase cl w1 else w1.
Proof.
  intros (Hws & Htasks & HnR & Hmaps & Hreds & Hden & Hin & Hpaths & Hcol) Hf Hc Hwk.
  rewrite Forall_forall in Hcl. destruct (Hcl wk Hwk) as (p & Hp & Hsec & n & Hself).
  pose proof (lookup_lt_Some _ _ _ Hf) as Hklt.
  set (data := {| map_task_id := tid; input_file := f; num_reducers := R;
                  task_num := Z.of_nat k |}).
  set (text0 := universal_newlines c).
  set (pairs := WordCountExample.map_function text0).
  set (parts := partitions_of sec R (WordCount.map_func text0)).
  assert (execute_map p true data (disk w)
          = (write_parts data parts (disk w), Completed, [map_report data parts]))
    as Hex.
  { pose proof (execute_map_ok p data (disk w) c) as H.
    rewrite Hsec, Hself in H. cbn [map_func WordCount.create_worker] in H. apply H.
    - rewrite Hden. apply not_elem_of_empty.
    - by apply (Hin k).
    - done.
    - simpl. lia.
    - rewrite map_func_pairs. apply word_count_values, map_function_ones.
    - intros r _. rewrite Hden. apply not_elem_of_empty. }
  pose proof (partitions_of_word_count sec R text0) as Hparts.
  fold parts pairs in Hparts.
  set (keys := first_occurrences (map (fun kv : text * Z => PyHash.hash sec kv.1 mod R)
                                      pairs)) in *.
  assert (map fst parts = keys) as Hkeys.
  { rewrite Hparts, map_map. simpl. apply map_id. }
  assert (forall r, r ∈ keys -> 0 <= r < R) as Hrange.
  { intros r Hr. unfold keys in Hr.
    rewrite elem_of_first_occurrences, list_elem_of_In, in_map_iff in Hr.
    destruct Hr as (kv & <- & _). apply Z.mod_pos_bound. lia. }
  assert (NoDup (map fst parts)) as Hnd
    by (rewrite Hkeys; apply NoDup_first_occurrences).
  assert (Forall (fun part : Z * list (text * value) =>
                    str_int part.1 = Some (repr_int part.1)) parts) as Hstr.
  { apply Forall_forall. intros [r items] Hri. simpl. apply str_int_small.
    assert (r ∈ keys) as Hr.
    { rewrite <- Hkeys. apply list_elem_of_In, in_map_iff. exists (r, items).
      split; [done | by apply list_elem_of_In]. }
    apply Hrange in Hr. lia. }
  destruct (store_report data parts (intermediate_files (master w)) Hstr Hnd)
    as (manifest' & Hstore & Hlook).
  set (m' := {| workers := workers (master w); map_tasks := map_tasks (master w);
                intermediate_files := manifest';
                num_reduce_tasks := num_reduce_tasks (master w);
                completed_maps := completed_maps (master w) + 1;
                completed_reduces := completed_reduces (master w) |}).
  set (fs1 := write_parts data parts (disk w)).
  exists (set_master (set_disk w fs1) m'). split.
  - assert (forall q, (forall r, 0 <= r < R -> q <> partition_path data r) ->
              files fs1 !! q = files (disk w) !! q) as Hother.
    { intros q Hq. apply write_parts_other. apply Forall_forall.
      intros [r items] Hri. simpl. apply Hq. apply Hrange. rewrite <- Hkeys.
      apply list_elem_of_In, in_map_iff. exists (r, items).
      split; [done | by apply list_elem_of_In]. }
    assert (denied fs1 = ∅) as Hden1
      by (unfold fs1; by rewrite write_parts_denied).
    unfold map_phase_state. cbn [set_master set_disk master disk workers map_tasks
      num_reduce_tasks completed_maps completed_reduces intermediate_files m'].
    split; [done |]. split; [done |]. split; [done |].
    split; [lia |]. split; [done |]. split; [done |].
    split; [| split].
    + intros j f' c' Hj Hf' Hc'. rewrite Hother; [apply (Hin j); [lia | done ..] |].
      intros r Hr Heq. apply (Hdisj (Z.of_nat k) r); [lia | done |].
      unfold partition_path in Heq. cbn [task_num data] in Heq. rewrite <- Heq.
      by eapply list_elem_of_lookup_2.
    + intros r q Hq. rewrite Hlook in Hq. apply elem_of_app in Hq as [Hq | Hq].
      * destruct (Hpaths r q Hq) as (i & r' & Hi & Hr' & ->).
        exists i, r'. split; [lia | done].
      * destruct (decide (r ∈ map fst parts)) as [Hr | Hr];
          [| by apply elem_of_nil in Hq].
        apply list_elem_of_singleton in Hq as ->.
        exists (Z.of_nat k), r. split; [lia |]. split; [| done].
        apply Hrange. by rewrite <- Hkeys.
    + intros r Hr. rewrite Hlook.
      rewrite (take_S_r _ _ _ Hc), map_app, flat_map_app, routed_to_app.
      cbn [map flat_map]. rewrite app_nil_r. fold text0 pairs.
      apply collect_app.
      * rewrite <- (Hcol r Hr). apply collect_ext. intros q Hq.
        apply list_elem_of_In in Hq.
        destruct (Hpaths r q Hq) as (i & r' & Hi & Hr' & ->).
        apply file_pairs_ext; [by rewrite Hden1, Hden |].
        apply Hother. intros r'' Hr'' Heq.
        unfold partition_path in Heq. cbn [task_num data] in Heq.
        apply partition_filename_inj in Heq as [Heq _];
          [lia | apply str_int_small; lia ..].
      * destruct (decide (r ∈ map fst parts)) as [Hin' | Hin'].
        -- cbn [collect].
           assert ((r, int_items (routed_to sec R r pairs)) ∈ parts) as Hri.
           { rewrite Hparts. apply list_elem_of_In, in_map_iff. exists r.
             split; [done |]. apply list_elem_of_In. by rewrite <- Hkeys. }
           destruct (render_ones (routed_to sec R r pairs)) as [t Ht].
           { apply routed_to_Forall, map_function_ones. }
           rewrite (file_pairs_rendered fs1 (partition_path data r)
                      (routed_to sec R r pairs) t).
           ++ by rewrite app_nil_r.
           ++ rewrite Hden1. apply not_elem_of_empty.
           ++ unfold fs1. rewrite (write_parts_lookup data parts r _ _ Hstr Hnd Hri).
              by rewrite Ht.
           ++ apply routed_to_Forall, map_function_keys.
           ++ done.
        -- cbn [collect]. f_equal. symmetry. unfold routed_to.
           apply (filter_none (fun kv : text * Z => PyHash.hash sec kv.1 mod R)).
           intros Hr'. apply Hin'. rewrite Hkeys. unfold keys.
           by apply elem_of_first_occurrences.
  - unfold assign_map_task. rewrite Hp. rewrite HnR. fold data. rewrite Hex.
    unfold map_report. cbn [foldl on_map_report]. unfold map_complete.
    cbn [set_disk master]. rewrite Hstore.
    fold m'. cbn [completed_maps map_tasks m']. rewrite Hmaps, Htasks.
    by destruct (Z.of_nat k + 1 =? Z.of_nat (length inputs)).
Qed.
End MapPhase.

Section PickWorker.
Import Py.
Variable ws : list worker_info.
Hypothesis Hws : ws <> [].

Lemma pick_worker_some i :
  exists wk, pick_worker ws i = Some wk /\ wk ∈ ws.
Proof.
  unfold pick_worker, mod_.
  destruct ws as [| w0 ws']; [done |].
  destruct (Z.eqb_spec (Z.of_nat (length (w0 :: ws'))) 0) as [H0 | H0];
    [simpl in H0; lia |].
  pose proof (Z.mod_pos_bound i (Z.of_nat (length (w0 :: ws')))) as Hb.
  destruct (lookup_lt_is_Some_2 (w0 :: ws')
              (Z.to_nat (i mod Z.of_nat (length (w0 :: ws'))))) as [wk Hwk]; [lia |].
  exists wk. split; [done |]. by eapply list_elem_of_lookup_2.
Qed.
End PickWorker.

Section MapDispatch.
Import Py.
Variable cl : cluster.
Variable sec : PyHash.secret.
Variable ws : list worker_info.
Variable R : Z.
Variables inputs contents : list text.
Hypothesis Hws : ws <> [].
Hypothesis Hcl :
  Forall (fun wk => exists p, cl !! address wk = Some p /\ word_count_process sec p) ws.
Hypothesis HR : 0 < R <= 10 ^ Z.of_nat max_str_digits.
Hypothesis HN : Z.of_nat (length inputs) <= 10 ^ Z.of_nat max_str_digits.
Hypothesis Hlen : length contents = length inputs.
Hypothesis Hdisj : forall i r,
  0 <= i < Z.of_nat (length inputs) -> 0 <= r < R ->
  partition_filename (repr_int i) (repr_int r) ∉ inputs.

(** The dispatch loop over the inputs that are left, from a state in which
    the tasks before them have completed: the last report starts the reduce
    phase. *)
Lemma map_dispatch_runs rest : forall (k : nat) (w : world),
  map_phase_state sec ws R inputs contents k w ->
  drop k inputs = rest -> rest <> [] ->
  exists wN,
    map_phase_state sec ws R inputs contents (length inputs) wN
    /\ map_dispatch cl (Z.of_nat k) rest w = start_reduce_phase cl wN.
Proof.
  induction rest as [| f rest IH]; intros k w Hst Hdrop Hne; [by destruct Hne |].
  assert (inputs !! k = Some f) as Hf.
  { pose proof (lookup_drop inputs k 0) as H. rewrite Hdrop in H. simpl in H.
    by rewrite Nat.add_0_r in H. }
  assert (drop (S k) inputs = rest) as Hdrop'.
  { replace (S k) with (k + 1)%nat by lia. by rewrite <- drop_drop, Hdrop. }
  pose proof (lookup_lt_Some _ _ _ Hf) as Hk.
  destruct (lookup_lt_is_Some_2 contents k) as [c Hc]; [lia |].
  cbn [map_dispatch].
  destruct Hst as (Hw & Hst'). rewrite Hw.
  destruct (pick_worker_some ws Hws (Z.of_nat k)) as (wk & -> & Hwk).
  rewrite str_int_small by lia.
  destruct (map_task_step cl sec ws R inputs contents Hcl HR HN Hdisj k w wk
              (txt "map-" ++ repr_int (Z.of_nat k)) f c)
    as (w1 & Hst1 & ->); [by split | done ..|].
  assert (length rest = (length inputs - S k)%nat) as Hlrest.
  { rewrite <- Hdrop'. by rewrite length_drop. }
  replace (Z.of_nat k + 1) with (Z.of_nat (S k)) by lia.
  destruct rest as [| f' rest'].
  - simpl in Hlrest. assert (S k = length inputs) as HSk by lia.
    rewrite <- HSk, Z.eqb_refl. cbn [map_dispatch]. by exists w1.
  - simpl in Hlrest.
    destruct (Z.eqb_spec (Z.of_nat (S k)) (Z.of_nat (length inputs))); [lia |].
    by apply IH.
Qed.
End MapDispatch.

Section ReducePhase.
Import Py.
Variable cl : cluster.
Variable sec : PyHash.secret.
Variable ws : list worker_info.
Variable R : Z.
Variable all : list (text * Z).
Hypothesis Hcl :
  Forall (fun wk => exists p, cl !! address wk = Some p /\ word_count_process sec p) ws.
Hypothesis HR : 0 < R <= 10 ^ Z.of_nat max_str_digits.
Hypothesis Hones : Forall (fun kv : text * Z => kv.2 = 1) all.
Hypothesis Hkeys : Forall (fun kv : text * Z => key_ok kv.1 = true) all.
Hypothesis Hsize : Z.of_nat (length all) < 10 ^ Z.of_nat max_str_digits.

(** One reduce task of the job; the last one runs the merge. *)
Lemma reduce_task_step (j : nat) (w : world) (wk : worker_info) (tid : text) :
  reduce_phase_state sec ws R all j w -> Z.of_nat j < R -> wk ∈ ws ->
  let w' := assign_reduce_task cl w wk tid (Z.of_nat j) in
  if Z.of_nat j + 1 =? R
  then exists t,
         merged w' = Some (merged_outputs sec R all)
         /\ files (disk w') !! final_results_file = Some t
         /\ parse_records t = Some (merged_outputs sec R all)
  else reduce_phase_state sec ws R all (S j) w'.
Proof.
  intros (Hw & HnR & Hred & Hden & Hpaths & Hcol & Hout) Hj Hwk.
  rewrite Forall_forall in Hcl. destruct (Hcl wk Hwk) as (p & Hp & Hsec & n & Hself).
  set (r := Z.of_nat j) in *.
  set (names := default [] (intermediate_files (master w) !! r)).
  set (l := routed_to sec R r all).
  assert (collect (file_pairs (disk w)) names = Ok l) as Hl by (apply Hcol; lia).
  destruct (render_int_items_total (reduced l)) as [t Ht].
  { apply reduced_values; [by apply routed_to_Forall |].
    pose proof (routed_to_length sec R r all). unfold l. lia. }
  assert (parse_records t = Some (reduced l)) as Hparse.
  { apply parse_records_render; [| done]. apply reduced_keys.
    by apply routed_to_Forall. }
  set (out := output_filename (repr_int r)).
  set (data := {| reduce_task_id := tid; reducer_id := r; input_files := names |}).
  assert (execute_reduce p true data (disk w)
          = (put out t (disk w), Completed, [ReduceComplete tid out])) as Hex.
  { apply (execute_reduce_ok p data (disk w) l t); [done | | |].
    - apply str_int_small. simpl. lia.
    - rewrite Hden. apply not_elem_of_empty.
    - rewrite Hself. cbn [reduce_func WordCount.create_worker].
      rewrite <- Ht. f_equal. unfold reduced, int_items. by rewrite map_map. }
  set (fs1 := put out t (disk w)) in *.
  assert (forall q tn rn, q = partition_filename tn rn ->
            files fs1 !! q = files (disk w) !! q) as Hpart.
  { intros q tn rn ->. unfold fs1. apply files_put_ne.
    apply output_not_partition. }
  assert (forall i, 0 <= i < R -> i <> r ->
            files fs1 !! output_filename (repr_int i)
            = files (disk w) !! output_filename (repr_int i)) as Hother.
  { intros i Hi Hne. unfold fs1. apply files_put_ne. intros Heq.
    apply output_filename_inj, repr_int_inj in Heq;
      [done | apply str_int_small; lia ..]. }
  assert (forall i, 0 <= i < r + 1 ->
            exists t', files fs1 !! output_filename (repr_int i) = Some t'
                       /\ parse_records t' = Some (reduced (routed_to sec R i all)))
    as Hout1.
  { intros i Hi. destruct (decide (i = r)) as [-> | Hne].
    - exists t. split; [apply files_put | done].
    - rewrite Hother by lia. apply Hout. lia. }
  intros w'. subst w'. unfold assign_reduce_task. cbv zeta. fold names.
  cbn [set_master master disk]. rewrite Hp. fold data. rewrite Hex.
  cbn [foldl on_reduce_report]. unfold reduce_complete.
  cbn [set_disk set_master master disk merged completed_reduces num_reduce_tasks
       workers map_tasks intermediate_files completed_maps].
  rewrite Hred, HnR. fold fs1.
  destruct (Z.eqb_spec (r + 1) R) as [Hlast | Hnot].
  - set (m' := {| workers := workers (master w); map_tasks := map_tasks (master w);
                  intermediate_files := <[r:=names]> (intermediate_files (master w));
                  num_reduce_tasks := R;
                  completed_maps := completed_maps (master w);
                  completed_reduces := r + 1 |}).
    pose proof (merge_results_cases m' fs1) as Hm.
    rewrite (collect_map (reducer_output fs1)
               (fun i => reduced (routed_to sec R i all))) in Hm.
    + destruct (decide (final_results_file ∈ denied fs1)) as [Hd | Hd].
      { exfalso. unfold fs1 in Hd. rewrite denied_put, Hden in Hd.
        by apply not_elem_of_empty in Hd. }
      destruct Hm as (t' & _ & Hp' & ->). exists t'. cbn [merged disk].
      split; [done |]. split; [apply files_put | done].
    + intros i Hi. apply in_range in Hi. cbn [num_reduce_tasks m'] in Hi.
      destruct (Hout1 i) as (t' & Hf' & Hp'); [lia |].
      unfold reducer_output. rewrite str_int_small by lia.
      unfold file_pairs. rewrite (read_file_ok _ t').
      * unfold parse_records in Hp'. by rewrite Hp'.
      * unfold fs1. rewrite denied_put, Hden. apply not_elem_of_empty.
      * done.
  - unfold reduce_phase_state.
    cbn [master disk workers num_reduce_tasks completed_reduces intermediate_files].
    split; [done |]. split; [done |]. split; [lia |].
    split; [by rewrite <- Hden |]. split; [| split].
    + intros r' q. unfold names. rewrite manifest_touch. apply Hpaths.
    + intros r' Hr'. unfold names. rewrite manifest_touch.
      rewrite <- (Hcol r') by lia. apply collect_ext. intros q Hq.
      apply list_elem_of_In in Hq. destruct (Hpaths r' q Hq) as (tn & rn & ->).
      apply file_pairs_ext; [done |]. by eapply Hpart.
    + intros i Hi. apply Hout1. lia.
Qed.
End ReducePhase.

Section ReduceDispatch.
Import Py.
Variable cl : cluster.
Variable sec : PyHash.secret.
Variable ws : list worker_info.
Variable R : Z.
Variable all : list (text * Z).
Hypothesis Hws : ws <> [].
Hypothesis Hcl :
  Forall (fun wk => exists p, cl !! address wk = Some p /\ word_count_process sec p) ws.
Hypothesis HR : 0 < R <= 10 ^ Z.of_nat max_str_digits.
Hypothesis Hones : Forall (fun kv : text * Z => kv.2 = 1) all.
Hypothesis Hkeys : Forall (fun kv : text * Z => key_ok kv.1 = true) all.
Hypothesis Hsize : Z.of_nat (length all) < 10 ^ Z.of_nat max_str_digits.

(** The dispatch loop over the reducers that are left: the report of the
    last one runs the merge. *)
Lemma reduce_dispatch_runs (n : nat) : forall (j : nat) (w : world),
  reduce_phase_state sec ws R all j w ->
  n <> 0%nat -> Z.of_nat (j + n) = R ->
  let w' := reduce_dispatch cl (map Z.of_nat (seq j n)) w in
  exists t,
    merged w' = Some (merged_outputs sec R all)
    /\ files (disk w') !! final_results_file = Some t
    /\ parse_records t = Some (merged_outputs sec R all).
Proof.
  induction n as [| n IH]; intros j w Hst Hn Hjn; [done |].
  cbn [seq map reduce_dispatch].
  pose proof Hst as (Hw & _). rewrite Hw.
  destruct (pick_worker_some ws Hws (Z.of_nat j)) as (wk & -> & Hwk).
  rewrite str_int_small by lia.
  pose proof (reduce_task_step cl sec ws R all Hcl HR Hones Hkeys Hsize j w wk
                (txt "reduce-" ++ repr_int (Z.of_nat j)) Hst) as Hstep.
  cbv zeta in Hstep. specialize (Hstep ltac:(lia) Hwk).
  destruct n as [| n'].
  - destruct (Z.eqb_spec (Z.of_nat j + 1) R); [| lia]. exact Hstep.
  - destruct (Z.eqb_spec (Z.of_nat j + 1) R); [lia |].
    apply IH; [done | done | lia].
Qed.
End ReduceDispatch.

Section Classes.
Context {A : Type}.

Lemma filter_disjoint_union (p q : A -> bool) l :
  (forall x, p x = true -> q x = true -> False) ->
  List.filter p l ++ List.filter q l ≡ₚ List.filter (fun x => p x || q x) l.
Proof.
  intros Hpq. induction l as [| x l IH]; [done |].
  cbn [List.filter]. destruct (p x) eqn:Hp, (q x) eqn:Hq; cbn [orb].
  - exfalso. by eapply Hpq.
  - simpl. by constructor.
  - rewrite <- Permutation_middle. by constructor.
  - exact IH.
Qed.

(** The classes of a list under a function into a duplicate-free list of
    indexes are a permutation of the list. *)
Lemma classes_perm (f : A -> Z) (ids : list Z) (l : list A) :
  NoDup ids ->
  concat (map (fun r => List.filter (fun x => bool_decide (f x = r)) l) ids)
  ≡ₚ List.filter (fun x => bool_decide (f x ∈ ids)) l.
Proof.
  induction 1 as [| r ids Hr Hnd IH].
  - cbn [map concat]. induction l as [| x l IHl]; [done |]. cbn [List.filter].
    by rewrite bool_decide_eq_false_2 by apply not_elem_of_nil.
  - cbn [map concat]. rewrite IH.
    rewrite filter_disjoint_union.
    + erewrite filter_ext; [done |]. intros x. simpl.
      destruct (decide (f x = r)) as [Heq | Hne].
      * rewrite bool_decide_eq_true_2 by done. simpl. symmetry.
        apply bool_decide_eq_true_2. apply elem_of_cons. by left.
      * rewrite (bool_decide_eq_false_2 (f x = r)) by done. simpl.
        apply bool_decide_ext. rewrite elem_of_cons. tauto.
    + intros x Hx Hx'. apply bool_decide_eq_true_1 in Hx, Hx'. by subst r.
Qed.

Lemma filter_all (p : A -> bool) l : (forall x, p x = true) -> List.filter p l = l.
Proof.
  intros Hp. induction l as [| x l IH]; [done |]. simpl. by rewrite Hp, IH.
Qed.
End Classes.

Section FirstOccurrences.
Context {A : Type} `{EqDecision A}.

Lemma first_occurrences_filter (p : A -> bool) (l : list A) :
  first_occurrences (List.filter p l) = List.filter p (first_occurrences l).
Proof.
  induction l as [| x l IH] using rev_ind; [done |].
  rewrite List.filter_app. cbn [List.filter]. rewrite (first_occurrences_snoc l).
  destruct (p x) eqn:Hp.
  - rewrite first_occurrences_snoc.
    destruct (decide (x ∈ List.filter p l)) as [Hin | Hin];
      destruct (decide (x ∈ l)) as [Hin' | Hin'].
    + done.
    + exfalso. apply Hin'. apply list_elem_of_In in Hin.
      apply filter_In in Hin as [Hin _]. by apply list_elem_of_In.
    + exfalso. apply Hin. apply list_elem_of_In, filter_In.
      split; [by apply list_elem_of_In | done].
    + rewrite List.filter_app. cbn [List.filter]. by rewrite Hp, IH.
  - rewrite app_nil_r. destruct (decide (x ∈ l)); [done |].
    rewrite List.filter_app. cbn [List.filter]. by rewrite Hp, app_nil_r.
Qed.
End FirstOccurrences.

Section OneSecret.
Import Py.
Variable sec : PyHash.secret.
Variable R : Z.
Hypothesis HR : 0 < R.

Lemma values_of_routed k (all : list (text * Z)) :
  values_of k (routed_to sec R (PyHash.hash sec k mod R) all) = values_of k all.
Proof.
  unfold values_of, routed_to. f_equal.
  induction all as [| [k' n] all IH]; [done |].
  cbn [List.filter fst].
  destruct (decide (k' = k)) as [-> | Hne].
  - rewrite (bool_decide_eq_true_2 (_ mod _ = _)) by done.
    cbn [List.filter fst]. rewrite bool_decide_eq_true_2 by done. by rewrite IH.
  - rewrite (bool_decide_eq_false_2 (k' = k)) by done.
    destruct (bool_decide _); [| exact IH].
    cbn [List.filter fst]. by rewrite bool_decide_eq_false_2.
Qed.

Lemma routed_to_keys r (all : list (text * Z)) :
  map fst (routed_to sec R r all)
  = List.filter (fun k => bool_decide (PyHash.hash sec k mod R = r)) (map fst all).
Proof. unfold routed_to. symmetry. apply filter_map_comm. Qed.

(** With one hash secret every key is reduced by one reducer, which sees all
    its values: the reducers' outputs together are the single-machine
    grouping, in another order. *)
Lemma outputs_perm (all : list (text * Z)) :
  concat (map (fun r => reduced (routed_to sec R r all)) (range R))
  ≡ₚ map (fun k => (k, WordCount.sum (values_of k all)))
         (first_occurrences (map fst all)).
Proof.
  set (K := first_occurrences (map fst all)).
  set (h := fun k : text => (k, WordCount.sum (values_of k all))).
  assert (forall r, reduced (routed_to sec R r all)
                    = map h (List.filter
                               (fun k => bool_decide (PyHash.hash sec k mod R = r)) K))
    as Hred.
  { intros r. rewrite reduced_closed, routed_to_keys, first_occurrences_filter.
    fold K.
    apply map_ext_in. intros k Hk. apply filter_In in Hk as [_ Hk].
    apply bool_decide_eq_true_1 in Hk. subst r. unfold h. f_equal. f_equal.
    apply values_of_routed. }
  erewrite map_ext; [| exact Hred].
  rewrite <- (map_map (fun r => List.filter
                         (fun k => bool_decide (PyHash.hash sec k mod R = r)) K)
                      (map h)).
  rewrite <- concat_map. apply Permutation_map.
  rewrite classes_perm.
  - rewrite filter_all; [done |]. intros k. apply bool_decide_eq_true_2.
    apply list_elem_of_In, in_range. apply Z.mod_pos_bound. lia.
  - unfold range. apply NoDup_ListNoDup, Finite.Injective_map_NoDup.
    + intros a b. lia.
    + apply seq_NoDup.
Qed.
End OneSecret.

(** ** A whole job on workers that share one hash secret *)

(** X18: on a fresh master with at least one registered worker, all workers
    being word-count workers whose interpreters have the same hash secret,
    a job over readable inputs runs to its end in the sequential schedule:
    the merged result holds the same (word, count) pairs as the
    single-machine framework returns for the texts of the inputs, each word
    once, sorted non-increasing by count, and the final results file parses
    back to it.  The inputs must not be named like partition files of the
    job, and the number of words must stay below the interpreter's limit for
    printing an integer. *)
Theorem job_counts_words (cl : cluster) (sec : PyHash.secret) (w : world)
  (inputs contents : list Py.text) :
  workers (master w) <> [] ->
  Forall (fun wk => exists p, cl !! address wk = Some p /\ word_count_process sec p)
         (workers (master w)) ->
  completed_maps (master w) = 0 -> completed_reduces (master w) = 0 ->
  intermediate_files (master w) = ∅ ->
  0 < num_reduce_tasks (master w) <= 10 ^ Z.of_nat Py.max_str_digits ->
  inputs <> [] -> Z.of_nat (length inputs) <= 10 ^ Z.of_nat Py.max_str_digits ->
  denied (disk w) = ∅ ->
  Forall2 (fun f c => files (disk w) !! f = Some c) inputs contents ->
  (forall i r, 0 <= i < Z.of_nat (length inputs) ->
               0 <= r < num_reduce_tasks (master w) ->
               partition_filename (Py.repr_int i) (Py.repr_int r) ∉ inputs) ->
  Z.of_nat (length (flat_map WordCountExample.map_function
                      (map Py.universal_newlines contents)))
  < 10 ^ Z.of_nat Py.max_str_digits ->
  exists final t,
    merged (start_map_phase cl w inputs) = Some final
    /\ final ≡ₚ MapReduce.run WordCountExample.map_function
                  WordCountExample.reduce_function
                  (map Py.universal_newlines contents)
    /\ sorted_desc final
    /\ NoDup (map fst final)
    /\ files (disk (start_map_phase cl w inputs)) !! final_results_file = Some t
    /\ parse_records t = Some final.
Proof.
  intros Hws Hcl Hmaps Hreds Hman HR Hne HN Hden Hfiles Hdisj Hsize.
  set (R := num_reduce_tasks (master w)) in *.
  set (ws := workers (master w)) in *.
  set (all := flat_map WordCountExample.map_function
                (map Py.universal_newlines contents)) in *.
  pose proof (Forall2_length _ _ _ Hfiles) as Hlen.
  unfold start_map_phase. cbv zeta.
  set (w0 := set_master w _).
  assert (map_phase_state sec ws R inputs contents 0 w0) as Hst0.
  { unfold map_phase_state, w0. cbn [set_master master disk workers map_tasks
      num_reduce_tasks completed_maps completed_reduces intermediate_files].
    rewrite Hman.
    split; [done |]. split; [done |]. split; [done |]. split; [done |].
    split; [done |]. split; [done |]. split; [| split].
    - intros j f c _ Hf Hc.
      by apply (Forall2_lookup_lr _ _ _ _ _ _ Hfiles Hf Hc).
    - intros r q Hq. rewrite lookup_empty in Hq. by apply elem_of_nil in Hq.
    - intros r _. by rewrite lookup_empty. }
  destruct (map_dispatch_runs cl sec ws R inputs contents Hws Hcl HR HN
              (eq_sym Hlen) Hdisj inputs 0%nat w0 Hst0 eq_refl Hne)
    as (wN & HstN & Hrun).
  change (Z.of_nat 0) with 0 in Hrun. rewrite Hrun.
  destruct HstN as (HwN & _ & HRN & _ & HredN & HdenN & _ & HpathsN & HcolN).
  rewrite Hlen, firstn_all in HcolN. fold all in HcolN.
  assert (reduce_phase_state sec ws R all 0 wN) as Hrst.
  { unfold reduce_phase_state.
    split; [done |]. split; [done |]. split; [done |]. split; [done |].
    split; [| split].
    - intros r q Hq. destruct (HpathsN r q Hq) as (i & r' & _ & _ & ->). eauto.
    - intros r Hr. apply HcolN. lia.
    - intros r Hr. lia. }
  assert (Forall (fun kv : Py.text * Z => kv.2 = 1) all) as Hones
    by (apply flat_map_Forall; intros s; apply map_function_ones).
  assert (Forall (fun kv : Py.text * Z => key_ok kv.1 = true) all) as Hkeys
    by (apply flat_map_Forall; intros s; apply map_function_keys).
  unfold start_reduce_phase. rewrite HRN. unfold Py.range.
  destruct (reduce_dispatch_runs cl sec ws R all Hws Hcl HR Hones Hkeys Hsize
              (Z.to_nat R) 0%nat wN Hrst) as (t & Hm & Hf & Hp); [lia | lia |].
  assert (merged_outputs sec R all
          ≡ₚ MapReduce.run WordCountExample.map_function
               WordCountExample.reduce_function
               (map Py.universal_newlines contents)) as Hperm.
  { unfold merged_outputs. rewrite sort_desc_perm, outputs_perm by lia.
    unfold MapReduce.run. fold all. by rewrite shuffle_closed, map_map. }
  exists (merged_outputs sec R all), t.
  split; [done |]. split; [done |]. split; [apply sort_desc_sorted |].
  split; [| done].
  rewrite Hperm. apply run_word_count_keys.
Qed.

Lemma job_counts_words_witness :
  exists final t,
    merged (Demo.run (fun _ => 0)) = Some final
    /\ final ≡ₚ MapReduce.run WordCountExample.map_function
                  WordCountExample.reduce_function
                  [Py.txt "the cat sat"; Py.txt "the dog sat"]
    /\ sorted_desc final
    /\ NoDup (map fst final)
    /\ files (disk (Demo.run (fun _ => 0))) !! final_results_file = Some t
    /\ parse_records t = Some final.
Proof.
  apply (job_counts_words (Demo.the_cluster (fun _ => 0)) (PyHash.secret_of_seed 0)
           Demo.world0 [Demo.chunk 0; Demo.chunk 1]
           [Py.txt "the cat sat"; Py.txt "the dog sat"]).
  - discriminate.
  - repeat constructor.
    + exists (Demo.proc (fun _ => 0) 0). split; [vm_compute; reflexivity |].
      split; [reflexivity | by exists 0].
    + exists (Demo.proc (fun _ => 0) 1). split; [vm_compute; reflexivity |].
      split; [reflexivity | by exists 1].
    + exists (Demo.proc (fun _ => 0) 2). split; [vm_compute; reflexivity |].
      split; [reflexivity | by exists 2].
  - reflexivity.
  - reflexivity.
  - reflexivity.
  - split; [simpl; lia | vm_compute; discriminate].
  - discriminate.
  - vm_compute. discriminate.
  - reflexivity.
  - repeat constructor; vm_compute; reflexivity.
  - intros i r _ _ Hin. unfold partition_filename in Hin.
    apply elem_of_cons in Hin as [Hin | Hin]; [vm_compute in Hin; discriminate |].
    apply elem_of_cons in Hin as [Hin | Hin]; [vm_compute in Hin; discriminate |].
    by apply elem_of_nil in Hin.
  - vm_compute. reflexivity.
Defined.

(** ** Jobs that cannot finish *)

Section MapTaskFootprint.
Import Py.

Lemma format_int_disk n fs : (format_int n fs).1 = fs.
Proof. unfold format_int, of_option. by destruct (str_int n). Qed.

(** What the loop over the partitions does to the disk, also when it stops
    at an exception: it writes partition files only. *)
Lemma map_write_loop_footprint data parts : forall names fs fs' res,
  for_fold parts (write_partition_file data) names fs = (fs', res) ->
  denied fs' = denied fs
  /\ forall q, (forall tn rn, q <> partition_filename tn rn) ->
       files fs' !! q = files fs !! q.
Proof.
  induction parts as [| [r items] parts IH]; intros names fs fs' res Hrun.
  { injection Hrun as <- _. done. }
  cbn [for_fold] in Hrun. unfold bind at 1 in Hrun.
  unfold write_partition_file at 1 in Hrun. cbn [fst snd] in Hrun.
  unfold bind at 1 in Hrun.
  pose proof (format_int_disk (task_num data) fs) as Htn.
  destruct (format_int (task_num data) fs) as [fs1 [tn |]]; simpl in Htn; subst fs1;
    [| injection Hrun as <- _; done].
  unfold bind at 1 in Hrun.
  pose proof (format_int_disk r fs) as Hr.
  destruct (format_int r fs) as [fs1 [rid |]]; simpl in Hr; subst fs1;
    [| injection Hrun as <- _; done].
  unfold bind at 1 in Hrun. unfold open_w at 1 in Hrun.
  destruct (decide (partition_filename tn rid ∈ denied fs));
    [injection Hrun as <- _; done |].
  unfold bind at 1 in Hrun.
  set (fs1 := {| files := <[partition_filename tn rid:=[]]> (files fs);
                 denied := denied fs |}) in *.
  pose proof (write_records_denied (partition_filename tn rid) items fs1) as Hd.
  pose proof (fun q Hq => write_records_other (partition_filename tn rid) items q fs1 Hq)
    as Ho.
  destruct (write_records (partition_filename tn rid) items fs1) as [fs2 [[] |]];
    simpl in Hd, Ho.
  - unfold ret at 1 in Hrun. cbv beta iota in Hrun.
    destruct (IH _ _ _ _ Hrun) as [IHd IHo].
    split; [by rewrite IHd, Hd |].
    intros q Hq. rewrite IHo, Ho by (done || apply Hq). apply lookup_insert_ne.
    intros Heq. by apply (Hq tn rid).
  - injection Hrun as <- _. split; [done |]. intros q Hq. rewrite Ho by apply Hq.
    apply lookup_insert_ne. intros Heq. by apply (Hq tn rid).
Qed.

Lemma json_loop_disk names : forall js fs, (for_fold names json_entry js fs).1 = fs.
Proof.
  induction names as [| [r ns] names IH]; intros js fs; [done |].
  cbn [for_fold]. unfold bind at 1. unfold json_entry at 1. unfold bind at 1.
  cbn [fst snd].
  pose proof (format_int_disk r fs) as Hr.
  destruct (format_int r fs) as [fs1 [rid |]]; simpl in Hr; subst fs1; [| done].
  unfold ret at 1. cbv beta iota. apply IH.
Qed.

(** A map task, whatever its map function and whether it completes or
    fails, changes no file that is not named like a partition file and sends
    at most one report; an input it cannot read makes it fail without a
    report. *)
Lemma execute_map_footprint p up data fs fs' resp sent :
  execute_map p up data fs = (fs', resp, sent) ->
  denied fs' = denied fs
  /\ (forall q, (forall tn rn, q <> partition_filename tn rn) ->
        files fs' !! q = files fs !! q)
  /\ (unreadable (input_file data) fs -> sent = [])
  /\ (sent = [] \/ exists m, sent = [m]).
Proof.
  unfold execute_map, map_body. unfold bind at 1.
  pose proof (read_file_disk (input_file data) fs) as Hrd.
  destruct (read_file (input_file data) fs) as [fs0 [text |]] eqn:Hread;
    simpl in Hrd; subst fs0; [| intros [= <- <- <-]; by eauto].
  assert (~ unreadable (input_file data) fs) as Hu.
  { intros [Hin | [Hnone _]].
    - by rewrite read_file_denied in Hread.
    - unfold read_file in Hread. rewrite Hnone in Hread. by destruct (decide _). }
  unfold bind at 1. rewrite map_partition_loop.
  destruct (partitions_from _ _ _ _) as [parts |];
    [| intros [= <- <- <-]; by eauto].
  unfold bind at 1.
  destruct (for_fold parts (write_partition_file data) [] fs) as [fs1 res] eqn:Hloop.
  destruct (map_write_loop_footprint data parts [] fs fs1 res Hloop) as [Hd Ho].
  destruct res as [names |]; [| intros [= <- <- <-]; by eauto].
  unfold bind at 1. pose proof (json_loop_disk names [] fs1) as Hj.
  destruct (for_fold names json_entry [] fs1) as [fs2 [payload |]];
    simpl in Hj; subst fs2; [| intros [= <- <- <-]; by eauto].
  unfold post. destruct up; simpl; intros [= <- <- <-];
    (split; [done |]); (split; [done |]); (split; [done |]); eauto.
Qed.
End MapTaskFootprint.

Section Stall.
Import Py.
Variable cl : cluster.

Lemma unreadable_kept f fs fs' :
  denied fs' = denied fs ->
  (forall q, (forall tn rn, q <> partition_filename tn rn) ->
     files fs' !! q = files fs !! q) ->
  unreadable f fs -> unreadable f fs'.
Proof.
  intros Hd Ho [Hin | [Hnone Hname]].
  - left. by rewrite Hd.
  - right. split; [| done]. by rewrite Ho.
Qed.

(** One dispatch of a map task that cannot bring the counter to the number
    of map tasks: the reduce phase is not started. *)
Lemma map_task_no_spawn (w : world) (wk : worker_info) (tid f : text) (i : Z) :
  completed_maps (master w) + 1 <> Z.of_nat (length (map_tasks (master w)))
  \/ unreadable f (disk w) ->
  let w1 := assign_map_task cl w wk tid f i in
  merged w1 = merged w
  /\ completed_reduces (master w1) = completed_reduces (master w)
  /\ map_tasks (master w1) = map_tasks (master w)
  /\ workers (master w1) = workers (master w)
  /\ completed_maps (master w) <= completed_maps (master w1)
     <= completed_maps (master w) + 1
  /\ (unreadable f (disk w) -> completed_maps (master w1) = completed_maps (master w))
  /\ (forall g, unreadable g (disk w) -> unreadable g (disk w1)).
Proof.
  intros Hcase w1. subst w1. unfold assign_map_task.
  destruct (cl !! address wk) as [p |]; [| repeat split; (done || lia)].
  set (data := {| map_task_id := tid; input_file := f;
                  num_reducers := num_reduce_tasks (master w); task_num := i |}).
  destruct (execute_map p true data (disk w)) as [[fs resp] sent] eqn:Hex.
  destruct (execute_map_footprint p true data (disk w) fs resp sent Hex)
    as (Hd & Ho & Hun & Hsent).
  assert (forall g, unreadable g (disk w) -> unreadable g fs) as Hkept
    by (intros g; by apply unreadable_kept).
  destruct Hsent as [-> | [m ->]].
  { cbn [foldl set_disk master disk merged]. repeat split; (done || lia). }
  cbn [foldl]. destruct m as [tid' intermediate | ? ?];
    [| cbn [on_map_report set_disk master disk merged]; repeat split; (done || lia)].
  assert (~ unreadable f (disk w)) as Hread by (intros H; by specialize (Hun H)).
  destruct Hcase as [Hcount | Hu]; [| done].
  cbn [on_map_report set_disk master]. unfold map_complete.
  destruct (store_intermediate intermediate (intermediate_files (master w)))
    as [manifest [[] | e]].
  - cbn [completed_maps map_tasks].
    destruct (Z.eqb_spec (completed_maps (master w) + 1)
                (Z.of_nat (length (map_tasks (master w))))) as [Heq | _]; [done |].
    cbn [set_master master disk merged completed_maps completed_reduces map_tasks
         workers].
    repeat split; (done || lia).
  - cbn [set_master master disk merged completed_maps completed_reduces map_tasks
         workers].
    repeat split; (done || lia).
Qed.

(** The dispatch loop when one of the inputs that are left cannot be read,
    or too many reports are missing already. *)
Lemma map_dispatch_stalls rest : forall (k : Z) (w : world),
  completed_maps (master w) + Z.of_nat (length rest)
  <= Z.of_nat (length (map_tasks (master w))) ->
  (exists f, f ∈ rest /\ unreadable f (disk w))
  \/ completed_maps (master w) + Z.of_nat (length rest)
     < Z.of_nat (length (map_tasks (master w))) ->
  let w' := map_dispatch cl k rest w in
  merged w' = merged w
  /\ completed_reduces (master w') = completed_reduces (master w)
  /\ completed_maps (master w') < Z.of_nat (length (map_tasks (master w))).
Proof.
  induction rest as [| f rest IH]; intros k w Hle Hcase.
  - simpl. destruct Hcase as [(f & Hf & _) | Hlt]; [by apply elem_of_nil in Hf |].
    simpl in Hlt. repeat split; (done || lia).
  - cbn [map_dispatch]. cbn [length] in Hle, Hcase.
    destruct (pick_worker (workers (master w)) k) as [wk |];
      [| simpl; repeat split; (done || lia)].
    destruct (str_int k) as [n |]; [| simpl; repeat split; (done || lia)].
    destruct (map_task_no_spawn w wk (txt "map-" ++ n) f k)
      as (Hm & Hr & Ht & _ & Hc & Hcu & Hkept).
    { destruct Hcase as [(g & Hg & Hu) | Hlt]; [| left; lia].
      apply elem_of_cons in Hg as [-> | Hg]; [by right |]. left.
      assert (0 < Z.of_nat (length rest)); [| lia].
      destruct rest; [by apply elem_of_nil in Hg | simpl; lia]. }
    set (w1 := assign_map_task cl w wk (txt "map-" ++ n) f k) in *.
    destruct (IH (k + 1) w1) as (Hm' & Hr' & Hc').
    + rewrite Ht. lia.
    + rewrite Ht. destruct Hcase as [(g & Hg & Hu) | Hlt]; [| right; lia].
      apply elem_of_cons in Hg as [-> | Hg].
      * right. rewrite (Hcu Hu). lia.
      * left. exists g. split; [done | by apply Hkept].
    + cbv zeta. rewrite Hm', Hr', <- Ht. repeat split; (done || lia).
Qed.
End Stall.

(** X19: the job has no recovery from a failed map task.  When one of the
    inputs cannot be read (it cannot be opened, or it does not exist), then
    whatever the workers, their map functions and their hash secrets are, the
    counter of completed map tasks stays below the number of map tasks: the
    reduce phase is never started, no reduce task is counted and no merged
    result is produced. *)
Theorem unreadable_input_stalls_job (cl : cluster) (w : world)
  (inputs : list Py.text) (f : Py.text) :
  f ∈ inputs -> unreadable f (disk w) -> completed_maps (master w) = 0 ->
  let w' := start_map_phase cl w inputs in
  merged w' = merged w
  /\ completed_reduces (master w') = completed_reduces (master w)
  /\ completed_maps (master w') < Z.of_nat (length inputs).
Proof.
  intros Hf Hu Hmaps w'. subst w'. unfold start_map_phase. cbv zeta.
  set (w0 := set_master w _).
  destruct (map_dispatch_stalls cl inputs 0 w0) as (Hm & Hr & Hc).
  - unfold w0. cbn [set_master master completed_maps map_tasks]. lia.
  - left. exists f. split; [done | exact Hu].
  - done.
Qed.

Lemma unreadable_input_stalls_job_witness :
  merged (start_map_phase (Demo.the_cluster (fun _ => 0)) Demo.world0
            [Demo.chunk 0; Demo.chunk 2]) = None
  /\ completed_reduces
       (master (start_map_phase (Demo.the_cluster (fun _ => 0)) Demo.world0
                  [Demo.chunk 0; Demo.chunk 2])) = 0
  /\ completed_maps
       (master (start_map_phase (Demo.the_cluster (fun _ => 0)) Demo.world0
                  [Demo.chunk 0; Demo.chunk 2])) < 2.
Proof.
  apply (unreadable_input_stalls_job (Demo.the_cluster (fun _ => 0)) Demo.world0
           [Demo.chunk 0; Demo.chunk 2] (Demo.chunk 2)).
  - apply elem_of_cons. right. apply elem_of_cons. by left.
  - right. split; [vm_compute; reflexivity |].
    intros tn rn Heq. unfold partition_filename in Heq. vm_compute in Heq. discriminate.
  - reflexivity.
Defined.

Section ReduceStall.
Import Py.
Variable cl : cluster.

(** A reduce task, whatever its reduce function and whether it completes or
    fails, leaves the refused paths as they are and sends at most one
    report; when its output file cannot be opened it sends none. *)
Lemma execute_reduce_footprint p up data fs fs' resp sent :
  execute_reduce p up data fs = (fs', resp, sent) ->
  denied fs' = denied fs
  /\ (output_filename (repr_int (reducer_id data)) ∈ denied fs -> sent = [])
  /\ (sent = [] \/ exists m, sent = [m]).
Proof.
  unfold execute_reduce, reduce_body. unfold bind at 1. rewrite reduce_read_loop.
  destruct (collect (file_pairs fs) (input_files data)) as [l |];
    [| intros [= <- <- <-]; by eauto].
  unfold bind at 1, format_int at 1, of_option.
  destruct (str_int (reducer_id data)) as [rid |] eqn:Hrid;
    [| intros [= <- <- <-]; by eauto].
  pose proof (str_int_repr _ _ Hrid) as ->. simpl.
  unfold bind at 1.
  destruct (decide (output_filename (repr_int (reducer_id data)) ∈ denied fs))
    as [Hin | Hout].
  { rewrite open_w_denied by done. intros [= <- <- <-]. by eauto. }
  rewrite open_w_ok by done. unfold bind at 1.
  pose proof (write_records_denied (output_filename (repr_int (reducer_id data)))
                (map (fun kvs => reduce_func (self p) kvs.1 kvs.2) (group l []))
                (put (output_filename (repr_int (reducer_id data))) [] fs)) as Hd.
  destruct (write_records _ _ _) as [fs1 [[] |]]; simpl in Hd;
    [| intros [= <- <- <-]; by eauto].
  unfold post. destruct up; simpl; intros [= <- <- <-];
    (split; [done |]); (split; [done |]); eauto.
Qed.

Lemma merge_results_denied m fs : denied (merge_results m fs).1 = denied fs.
Proof.
  rewrite merge_results_spec.
  destruct (collect _ _) as [l |]; [| done].
  unfold bind at 1. unfold open_w at 1.
  destruct (decide (final_results_file ∈ denied fs)); [done |].
  unfold bind at 1.
  pose proof (write_records_denied final_results_file (int_items (sort_desc l))
                {| files := <[final_results_file:=[]]> (files fs);
                   denied := denied fs |}) as Hd.
  by destruct (write_records _ _ _) as [fs1 [[] |]].
Qed.

(** One dispatch of a reduce task that cannot bring the counter to the number
    of reduce tasks: the merge is not run. *)
Lemma reduce_task_no_merge (w : world) (wk : worker_info) (tid : text) (r : Z) :
  completed_reduces (master w) + 1 <> num_reduce_tasks (master w)
  \/ output_filename (repr_int r) ∈ denied (disk w) ->
  let w1 := assign_reduce_task cl w wk tid r in
  merged w1 = merged w
  /\ num_reduce_tasks (master w1) = num_reduce_tasks (master w)
  /\ workers (master w1) = workers (master w)
  /\ denied (disk w1) = denied (disk w)
  /\ completed_reduces (master w) <= completed_reduces (master w1)
     <= completed_reduces (master w) + 1
  /\ (output_filename (repr_int r) ∈ denied (disk w) ->
      completed_reduces (master w1) = completed_reduces (master w)).
Proof.
  intros Hcase w1. subst w1. unfold assign_reduce_task. cbv zeta.
  cbn [set_master master disk].
  destruct (cl !! address wk) as [p |];
    [| cbn [set_master master disk merged num_reduce_tasks workers
            completed_reduces];
       repeat split; (done || lia)].
  set (data := {| reduce_task_id := tid; reducer_id := r;
                  input_files := default [] (intermediate_files (master w) !! r) |}).
  destruct (execute_reduce p true data (disk w)) as [[fs resp] sent] eqn:Hex.
  destruct (execute_reduce_footprint p true data (disk w) fs resp sent Hex)
    as (Hd & Hun & Hsent).
  cbn [reducer_id data] in Hun.
  destruct Hsent as [-> | [m ->]].
  { cbn [foldl set_disk set_master master disk merged num_reduce_tasks workers
         completed_reduces].
    repeat split; (done || lia). }
  cbn [foldl]. destruct m as [? ? | tid' out];
    [cbn [on_reduce_report set_disk set_master master disk merged
          num_reduce_tasks workers completed_reduces];
     repeat split; (done || lia) |].
  assert (output_filename (repr_int r) ∉ denied (disk w)) as Hok
    by (intros H; by specialize (Hun H)).
  destruct Hcase as [Hcount | Hu]; [| done].
  cbn [on_reduce_report]. unfold reduce_complete.
  cbn [set_disk set_master master disk merged completed_reduces num_reduce_tasks
       workers map_tasks intermediate_files completed_maps].
  destruct (Z.eqb_spec (completed_reduces (master w) + 1) (num_reduce_tasks (master w)));
    [done |].
  cbn [master disk merged num_reduce_tasks workers completed_reduces].
  repeat split; (done || lia).
Qed.

(** The dispatch loop when one of the reducers that are left cannot write
    its output, or too many reports are missing already. *)
Lemma reduce_dispatch_stalls ids : forall (w : world),
  completed_reduces (master w) + Z.of_nat (length ids) <= num_reduce_tasks (master w) ->
  (exists r, r ∈ ids /\ output_filename (repr_int r) ∈ denied (disk w))
  \/ completed_reduces (master w) + Z.of_nat (length ids) < num_reduce_tasks (master w) ->
  let w' := reduce_dispatch cl ids w in
  merged w' = merged w
  /\ completed_reduces (master w') < num_reduce_tasks (master w).
Proof.
  induction ids as [| r ids IH]; intros w Hle Hcase.
  - simpl. destruct Hcase as [(r & Hr & _) | Hlt]; [by apply elem_of_nil in Hr |].
    simpl in Hlt. split; [done | lia].
  - cbn [reduce_dispatch]. cbn [length] in Hle, Hcase.
    destruct (pick_worker (workers (master w)) r) as [wk |]; [| simpl; split; [done | lia]].
    destruct (str_int r) as [n |]; [| simpl; split; [done | lia]].
    destruct (reduce_task_no_merge w wk (txt "reduce-" ++ n) r)
      as (Hm & HR & _ & Hd & Hc & Hcu).
    { destruct Hcase as [(g & Hg & Hu) | Hlt]; [| left; lia].
      apply elem_of_cons in Hg as [-> | Hg]; [by right |]. left.
      assert (0 < Z.of_nat (length ids)); [| lia].
      destruct ids; [by apply elem_of_nil in Hg | simpl; lia]. }
    set (w1 := assign_reduce_task cl w wk (txt "reduce-" ++ n) r) in *.
    destruct (IH w1) as (Hm' & Hc').
    + rewrite HR. lia.
    + rewrite HR, Hd. destruct Hcase as [(g & Hg & Hu) | Hlt]; [| right; lia].
      apply elem_of_cons in Hg as [-> | Hg].
      * right. rewrite (Hcu Hu). lia.
      * left. by exists g.
    + cbv zeta. rewrite Hm', <- HR. split; [done | lia].
Qed.
End ReduceStall.

(** X20: the job has no recovery from a failed reduce task either.  When
    the output file of one reducer cannot be opened for writing, then
    whatever the workers and their reduce functions are, the counter of
    completed reduce tasks stays below the number of reduce tasks: the merge
    is never run and no merged result is produced. *)
Theorem unwritable_output_blocks_merge (cl : cluster) (w : world) (r : Z) :
  0 <= r < num_reduce_tasks (master w) ->
  output_filename (Py.repr_int r) ∈ denied (disk w) ->
  completed_reduces (master w) = 0 ->
  let w' := start_reduce_phase cl w in
  merged w' = merged w
  /\ completed_reduces (master w') < num_reduce_tasks (master w).
Proof.
  intros Hr Hd Hreds w'. subst w'. unfold start_reduce_phase.
  apply reduce_dispatch_stalls.
  - unfold Py.range. rewrite length_map, length_seq. lia.
  - left. exists r. split; [| done]. by apply list_elem_of_In, in_range.
Qed.

Lemma unwritable_output_blocks_merge_witness :
  merged (start_reduce_phase (Demo.the_cluster (fun _ => 0)) world_output_refused)
  = None
  /\ completed_reduces
       (master (start_reduce_phase (Demo.the_cluster (fun _ => 0))
                  world_output_refused)) < 4.
Proof.
  refine (unwritable_output_blocks_merge (Demo.the_cluster (fun _ => 0))
            world_output_refused 2 _ _ _).
  - simpl. lia.
  - vm_compute. reflexivity.
  - reflexivity.
Defined.
